(** * Urho3D / rbfx render pipeline: visibility, lighting, shadow splits

    A shallow embedding of the parts of the render pipeline that decide
    which lights, shadow splits and batches exist in a frame:

    - [LightProcessor.cpp] (shadow split setup, shadow map hand-over,
      directional shadow camera quantization, focusing),
    - [LightProcessor.h] (the shadow map size that the light processors
      are sorted by),
    - [ScenePass.cpp] (shadow batch collection),
    - [DrawableProcessor.cpp] (visible drawables, per-light accumulation,
      visible light list),
    - [BatchStateCache.h] (pipeline state cache; only its interface is
      available).

    Conventions.  A C++ [float] that is only compared, copied, or combined
    by [Min]/[Max] is a rational number of type [Q]: every finite binary32
    value is a rational and these operations are exact on them.  Where a
    property depends on how the arithmetic rounds (the quantization of the
    view size of a directional shadow camera), the function is embedded a
    second time on binary32 numbers (modules [Single] and [Quantization])
    and the property is stated there.  Unsigned
    masks are [N] with [N.land].  A [std::vector] or C array indexed by an
    integer is a [list] read with [!!]; an index outside the container is
    undefined behaviour in C++ and makes the embedded operation return
    [None].  Objects reached through pointers (drawables, lights) are
    records carrying the attributes the pipeline reads. *)

From Stdlib Require Import ZArith NArith QArith Qround Lia Lqa String.
From Stdlib Require Floats.SpecFloat.
From stdpp Require Import base option list sorting gmap.

Set Default Proof Using "Type".

(** ** Math helpers *)

Module Math.

Definition float := Q.
Bind Scope Q_scope with float.

Definition flt (a b : float) : bool := negb (Qle_bool b a).
Definition fgt (a b : float) : bool := flt b a.
Definition fle (a b : float) : bool := Qle_bool a b.
Definition fge (a b : float) : bool := fle b a.

(** [Min] and [Max] of Math/MathDefs.h (the header is not among the
    sources at hand): [lhs < rhs ? lhs : rhs] and [lhs > rhs ? lhs : rhs]. *)
Definition Min (lhs rhs : float) : float := if flt lhs rhs then lhs else rhs.
Definition Max (lhs rhs : float) : float := if fgt lhs rhs then lhs else rhs.

(** [ceilf (sqrtf x)] for [x >= 0]: the least natural [n] with [x <= n * n].
    For an integer [c] the least such [n] is [Z.sqrt_up c], and
    [x <= n * n] holds exactly when [ceil x <= n * n]. *)
Definition ceil_sqrt (x : float) : Z := Z.sqrt_up (Qceiling x).

(** [FloatRange] is a pair of floats ([first], [second]). *)
Record FloatRange := MkRange { first : float; second : float }.

Definition IntVector2 : Type := Z * Z.
Definition IntVector2_ZERO : IntVector2 := (0%Z, 0%Z).
Definition IntVector2_scale (s : Z) (v : IntVector2) : IntVector2 :=
  (s * v.1, s * v.2)%Z.

Record IntRect := MkRect { left_ : Z; top_ : Z; right_ : Z; bottom_ : Z }.
Definition IntRect_ZERO : IntRect := MkRect 0 0 0 0.
Definition IntRect_Width (r : IntRect) : Z := (right_ r - left_ r)%Z.

End Math.
Export Math.

(** A shadow map region: the texture (null when allocation failed) and the
    rectangle inside it. *)
Record ShadowMap := { texture_ : option N; region_ : IntRect }.

Definition ShadowMap_new : ShadowMap := {| texture_ := None; region_ := IntRect_ZERO |}.

(** ** Interface to classes outside the pipeline

    [Frustum], [Polyhedron], [BoundingBox], [Sphere], the numeric range
    operators and [ShadowMap::GetSplit] are not among the sources at hand.
    The pipeline code uses them through the operations collected here. *)

Class Externals := {
  Frustum : Type;
  Polyhedron : Type;
  BoundingBox : Type;
  (** [Polyhedron::Define(const Frustum&)] *)
  Polyhedron_Define : Frustum → Polyhedron;
  (** [Polyhedron::Clip(const BoundingBox&)] *)
  Polyhedron_Clip : Polyhedron → BoundingBox → Polyhedron;
  (** [Polyhedron::Empty()] *)
  Polyhedron_Empty : Polyhedron → bool;
  (** default-constructed (undefined) [BoundingBox] *)
  BoundingBox_new : BoundingBox;
  (** [BoundingBox::Merge(const BoundingBox&)] *)
  BoundingBox_Merge : BoundingBox → BoundingBox → BoundingBox;
  (** [BoundingBox::Defined()] *)
  BoundingBox_Defined : BoundingBox → bool;
  (** [FloatRange::Interset] (sic) and [operator &] *)
  FloatRange_Interset : FloatRange → FloatRange → bool;
  FloatRange_and : FloatRange → FloatRange → FloatRange;
  (** [Camera::GetSplitFrustum(nearClip, farClip)] of the cull camera *)
  GetSplitFrustum : float → float → Frustum;
  (** The light-space box fitted around a frustum volume: a sphere around
      the volume when the size is uniform, the volume itself otherwise.
      The result is (min.x, min.y, max.x, max.y, max.z). *)
  FitShadowBox : bool → Polyhedron → float * float * float * float * float;
  (** [ShadowMap::GetSplit(split, numSplitsInGrid)] *)
  ShadowMap_GetSplit : ShadowMap → nat → IntVector2 → ShadowMap;
}.

(** ** Lights, drawables, cameras *)

Inductive LightType := LIGHT_DIRECTIONAL | LIGHT_SPOT | LIGHT_POINT.

Global Instance LightType_eq_dec : EqDecision LightType.
Proof. solve_decision. Defined.

(** Split limits of Graphics/GraphicsDefs.h (not among the sources at
    hand).  A cube map has six faces; [shadowSplits_], filled from the
    cascade table, is a four-component vector. *)
Definition MAX_CUBEMAP_FACES : nat := 6.
Definition MAX_CASCADE_SPLITS : nat := 4.
Definition MAX_SPLITS : nat := 6.

Record FocusParameters := {
  focus_ : bool;
  nonUniform_ : bool;
  quantize_ : float;
  minView_ : float;
}.

Inductive LightImportance := LI_AUTO | LI_IMPORTANT | LI_NOT_IMPORTANT.

Record Light := {
  (** [GetID()]: the component ID *)
  light_ID : N;
  lightType_ : LightType;
  lightImportance_ : LightImportance;
  (** [GetIntensityDivisor()] *)
  intensityDivisor_ : float;
  (** [GetLightMask()] *)
  lightMask_ : N;
  (** [GetLightMaskEffective()] *)
  lightMaskEffective_ : N;
  (** [GetEffectiveColor().Equals(Color::BLACK)] *)
  effectiveColorIsBlack_ : bool;
  (** [GetShadowCascade().splits_] *)
  cascadeSplits_ : list float;
  (** [GetNumShadowSplits()], the requested number of cascades; it is
      read as a loop bound and is never negative *)
  numShadowSplits_ : nat;
  shadowFocus_ : FocusParameters;
  light_range_ : float;
  light_fov_ : float;
  light_aspectRatio_ : float;
  shadowNearFarRatio_ : float;
  light_drawDistance_ : float;
  light_distance_ : float;
  (** [GetPipelineStateHash()] of the scene light *)
  light_pipelineStateHash_ : N;
}.

Record Camera := {
  orthographic_ : bool;
  zoom_ : float;
  nearClip_ : float;
  farClip_ : float;
  fov_ : float;
  aspectRatio_ : float;
  orthoSize_ : float;
}.

Definition Camera_new : Camera :=
  {| orthographic_ := false; zoom_ := 1%Q; nearClip_ := 0%Q; farClip_ := 0%Q;
     fov_ := 0%Q; aspectRatio_ := 1%Q; orthoSize_ := 0%Q |}.

Inductive GeometryTypeTag := GEOM_STATIC | GEOM_SKINNED | GEOM_INSTANCED | GEOM_BILLBOARD.

Record SourceBatch := {
  sb_geometry_ : N;
  (** null when the batch has no material of its own *)
  sb_material_ : option N;
  sb_geometryType_ : GeometryTypeTag;
}.

(** Bits of [DrawableFlags] (Graphics/Drawable.h). *)
Definition DRAWABLE_GEOMETRY : N := 1.
Definition DRAWABLE_LIGHT : N := 2.

Inductive UpdateGeometryType := UPDATE_NONE | UPDATE_MAIN_THREAD | UPDATE_WORKER_THREAD.

Inductive GlobalIlluminationType := GI_None | GI_UseLightMap | GI_BlendLightProbes.

Section WithExternals.
Context `{Externals}.

Record Drawable := {
  drawableIndex_ : nat;
  drawable_ID : N;
  drawableFlags_ : N;
  drawDistance_ : float;
  shadowDistance_ : float;
  (** [GetDistance()]: distance from the camera, set by [UpdateBatches] *)
  distance_ : float;
  castShadows_ : bool;
  lightMaskInZone_ : N;
  shadowMaskInZone_ : N;
  worldBoundingBox_ : BoundingBox;
  batches_ : list SourceBatch;
  updateGeometryType_ : UpdateGeometryType;
  globalIlluminationType_ : GlobalIlluminationType;
  (** the drawable seen as a [Light] when [DRAWABLE_LIGHT] is set *)
  asLight_ : Light;
}.

End WithExternals.

(** ** Interface to materials, techniques and light accumulation

    [Material::FindTechnique], [Technique::GetPass], the [LightAccumulator]
    of a drawable and the view-space depth of a bounding box are used
    through the operations collected here. *)

Class SceneExternals `{Externals} := {
  Technique : Type;
  LightAccumulator : Type;
  (** [material->FindTechnique(drawable, materialQuality)]; [None] is a
      null technique *)
  FindTechnique : N → Drawable → N → option Technique;
  (** [technique->GetPass(passIndex)] *)
  Technique_GetPass : Technique → N → option N;
  (** [technique->GetSupportedPass(passIndex)] *)
  Technique_GetSupportedPass : Technique → N → option N;
  (** a default-constructed [LightAccumulator] *)
  LightAccumulator_new : LightAccumulator;
  (** [LightAccumulator::ResetLights()] *)
  LightAccumulator_ResetLights : LightAccumulator → LightAccumulator;
  (** The ambient reset of a lit geometry: [sh_] sampled from the global
      illumination when the flag is set, zero otherwise, plus the linear
      ambient of the drawable's cached zone. *)
  LightAccumulator_ResetAmbient : bool → Drawable → LightAccumulator → LightAccumulator;
  (** [LightAccumulator::AccumulateLight(ctx, penalty)] with the light
      index and the limits of the context *)
  LightAccumulator_AccumulateLight :
    nat → LightImportance → nat → nat → float → LightAccumulator → LightAccumulator;
  (** [DrawableProcessor::CalculateBoundingBoxZRange], which projects the
      box on the view direction of the frame's cull camera *)
  CalculateBoundingBoxZRange : BoundingBox → FloatRange;
  (** [FloatRange::IsValid()], [operator |=] and the empty range *)
  FloatRange_IsValid : FloatRange → bool;
  FloatRange_or : FloatRange → FloatRange → FloatRange;
  FloatRange_new : FloatRange;
  (** [light->GetDistanceTo(geometry)] *)
  GetDistanceTo : Light → Drawable → float;
}.

(** [WorkQueueVector::PushBack(threadIndex, value)]: one vector per thread. *)
Definition PushBack {A} (threadIndex : nat) (value : A) (c : list (list A))
    : option (list (list A)) :=
  v ← c !! threadIndex; Some (<[threadIndex := v ++ [value]]> c).

(** Iteration over a [WorkQueueVector]: thread by thread. *)
Definition Elements {A} (c : list (list A)) : list A := concat c.

(** ** LightProcessor.cpp *)

Module LightProcessor.
Section Defs.
Context `{Externals}.

(** A resolved shadow caster batch of a split (ScenePass.cpp fills it). *)
Record BaseSceneBatch := {
  batch_drawableIndex_ : nat;
  batch_sourceBatchIndex_ : nat;
  batch_geometryType_ : GeometryTypeTag;
  batch_drawable_ : Drawable;
  batch_geometry_ : N;
  batch_material_ : N;
  batch_pass_ : N;
  batch_pipelineState_ : option N;
}.

Record SceneLightShadowSplit := {
  shadowCamera_ : option Camera;
  zRange_ : FloatRange;
  split_shadowMap_ : ShadowMap;
  shadowCasters_ : list Drawable;
  shadowCasterBatches_ : list BaseSceneBatch;
}.

Record LightProcessor := {
  light_ : Light;
  hasShadow_ : bool;
  numSplits_ : nat;
  splits_ : list SceneLightShadowSplit;
  litGeometries_ : list Drawable;
  tempShadowCasters_ : list Drawable;
  shadowMap_ : ShadowMap;
  shadowMapSplitSize_ : Z;
  shadowMapSize_ : IntVector2;
}.

(** What [SceneLightProcessContext] provides to the light: the cull camera
    clip planes and, from the drawable processor, the scene Z range and
    the per-drawable Z ranges. *)
Record SceneLightProcessContext := {
  cull_nearClip_ : float;
  cull_farClip_ : float;
  dp_sceneZRange_ : FloatRange;
  dp_geometryZRanges_ : list FloatRange;
}.

Definition set_camera (c : Camera) (s : SceneLightShadowSplit) : SceneLightShadowSplit :=
  {| shadowCamera_ := Some c; zRange_ := zRange_ s;
     split_shadowMap_ := split_shadowMap_ s; shadowCasters_ := shadowCasters_ s;
     shadowCasterBatches_ := shadowCasterBatches_ s |}.

Definition set_zRange (r : FloatRange) (s : SceneLightShadowSplit) : SceneLightShadowSplit :=
  {| shadowCamera_ := shadowCamera_ s; zRange_ := r;
     split_shadowMap_ := split_shadowMap_ s; shadowCasters_ := shadowCasters_ s;
     shadowCasterBatches_ := shadowCasterBatches_ s |}.

Definition set_split_shadowMap (m : ShadowMap) (s : SceneLightShadowSplit) : SceneLightShadowSplit :=
  {| shadowCamera_ := shadowCamera_ s; zRange_ := zRange_ s;
     split_shadowMap_ := m; shadowCasters_ := shadowCasters_ s;
     shadowCasterBatches_ := shadowCasterBatches_ s |}.

Definition set_shadowCasterBatches (b : list BaseSceneBatch) (s : SceneLightShadowSplit)
  : SceneLightShadowSplit :=
  {| shadowCamera_ := shadowCamera_ s; zRange_ := zRange_ s;
     split_shadowMap_ := split_shadowMap_ s; shadowCasters_ := shadowCasters_ s;
     shadowCasterBatches_ := b |}.

Definition set_splits (n : nat) (ss : list SceneLightShadowSplit) (lp : LightProcessor)
  : LightProcessor :=
  {| light_ := light_ lp; hasShadow_ := hasShadow_ lp; numSplits_ := n; splits_ := ss;
     litGeometries_ := litGeometries_ lp; tempShadowCasters_ := tempShadowCasters_ lp;
     shadowMap_ := shadowMap_ lp; shadowMapSplitSize_ := shadowMapSplitSize_ lp;
     shadowMapSize_ := shadowMapSize_ lp |}.

Definition set_numSplits (n : nat) (lp : LightProcessor) : LightProcessor :=
  set_splits n (splits_ lp) lp.

Definition set_hasShadow (b : bool) (lp : LightProcessor) : LightProcessor :=
  {| light_ := light_ lp; hasShadow_ := b; numSplits_ := numSplits_ lp; splits_ := splits_ lp;
     litGeometries_ := litGeometries_ lp; tempShadowCasters_ := tempShadowCasters_ lp;
     shadowMap_ := shadowMap_ lp; shadowMapSplitSize_ := shadowMapSplitSize_ lp;
     shadowMapSize_ := shadowMapSize_ lp |}.

Definition set_shadowMapSize (s : Z) (sz : IntVector2) (lp : LightProcessor) : LightProcessor :=
  {| light_ := light_ lp; hasShadow_ := hasShadow_ lp; numSplits_ := numSplits_ lp;
     splits_ := splits_ lp;
     litGeometries_ := litGeometries_ lp; tempShadowCasters_ := tempShadowCasters_ lp;
     shadowMap_ := shadowMap_ lp; shadowMapSplitSize_ := s; shadowMapSize_ := sz |}.

Definition set_shadowMap (m : ShadowMap) (ss : list SceneLightShadowSplit) (lp : LightProcessor)
  : LightProcessor :=
  {| light_ := light_ lp; hasShadow_ := hasShadow_ lp; numSplits_ := numSplits_ lp;
     splits_ := ss;
     litGeometries_ := litGeometries_ lp; tempShadowCasters_ := tempShadowCasters_ lp;
     shadowMap_ := m; shadowMapSplitSize_ := shadowMapSplitSize_ lp;
     shadowMapSize_ := shadowMapSize_ lp |}.

(** [LightProcessor::LightProcessor(Light* light)] *)
Definition SceneLightShadowSplit_new : SceneLightShadowSplit :=
  {| shadowCamera_ := None; zRange_ := MkRange 0 0; split_shadowMap_ := ShadowMap_new;
     shadowCasters_ := []; shadowCasterBatches_ := [] |}.

Definition LightProcessor_new (light : Light) : LightProcessor :=
  {| light_ := light; hasShadow_ := false; numSplits_ := 0;
     splits_ := replicate MAX_SPLITS SceneLightShadowSplit_new;
     litGeometries_ := []; tempShadowCasters_ := [];
     shadowMap_ := ShadowMap_new; shadowMapSplitSize_ := 0; shadowMapSize_ := IntVector2_ZERO |}.

(** *** Quantization of the directional shadow camera *)

(** One component: [ceilf(sqrtf(v / quantize))], squared, times [quantize],
    raised to [minView].  The arithmetic is exact here, which is enough for
    what the split setup is shown to do to the cameras; how the size itself
    behaves under rounding is stated on [Quantization.QuantizeComponent]. *)
Definition QuantizeComponent (parameters : FocusParameters) (v : float) : float :=
  let n := inject_Z (ceil_sqrt (v / quantize_ parameters)%Q) in
  Max (n * n * quantize_ parameters)%Q (minView_ parameters).

(** The view size computed in the middle of [QuantizeDirLightShadowCamera]. *)
Definition QuantizeViewSize (parameters : FocusParameters) (viewSize : float * float)
  : float * float :=
  if nonUniform_ parameters then
    (QuantizeComponent parameters viewSize.1, QuantizeComponent parameters viewSize.2)
  else if focus_ parameters then
    let x := QuantizeComponent parameters (Max viewSize.1 viewSize.2) in
    (x, x)
  else viewSize.

(** [Camera::SetOrthoSize(const Vector2&)]: the height is kept as the
    orthographic size and the width through the aspect ratio. *)
Definition SetOrthoSize (viewSize : float * float) (c : Camera) : Camera :=
  {| orthographic_ := orthographic_ c; zoom_ := zoom_ c; nearClip_ := nearClip_ c;
     farClip_ := farClip_ c; fov_ := fov_ c;
     aspectRatio_ := (viewSize.1 / viewSize.2)%Q; orthoSize_ := viewSize.2 |}.

(** [QuantizeDirLightShadowCamera(parameters, viewBox)] on the camera's
    projection; [viewBox] is (min.x, min.y, max.x, max.y).  The translation
    of the camera node (centering and texel snapping) moves the camera
    without changing its size and is not part of the camera record. *)
Definition QuantizeDirLightShadowCamera (parameters : FocusParameters)
    (viewBox : float * float * float * float) (c : Camera) : Camera :=
  let '(minX, minY, maxX, maxY) := viewBox in
  let viewSize := ((maxX - minX)%Q, (maxY - minY)%Q) in
  SetOrthoSize (QuantizeViewSize parameters viewSize) c.

(** *** Focusing of the split frustum *)

(** The bounding box merged in the loop over [litGeometries]. *)
Fixpoint MergeLitGeometries (geometryZRanges : list FloatRange) (splitZRange : FloatRange)
    (litGeometries : list Drawable) (box : BoundingBox) : option BoundingBox :=
  match litGeometries with
  | [] => Some box
  | drawable :: rest =>
      geometryZRange ← geometryZRanges !! drawableIndex_ drawable;
      MergeLitGeometries geometryZRanges splitZRange rest
        (if FloatRange_Interset geometryZRange splitZRange
         then BoundingBox_Merge box (worldBoundingBox_ drawable)
         else box)
  end.

(** The frustum volume of [SetupDirLightShadowCamera] as it stands when it
    is transformed to light space. *)
Definition SplitFrustumVolume (parameters : FocusParameters) (ctx : SceneLightProcessContext)
    (zRange : FloatRange) (litGeometries : list Drawable) : option Polyhedron :=
  let splitZRange :=
    if focus_ parameters then FloatRange_and (dp_sceneZRange_ ctx) zRange else zRange in
  let splitFrustum := GetSplitFrustum (first splitZRange) (second splitZRange) in
  let frustumVolume := Polyhedron_Define splitFrustum in
  if focus_ parameters then
    litGeometriesBox ←
      MergeLitGeometries (dp_geometryZRanges_ ctx) splitZRange litGeometries BoundingBox_new;
    if BoundingBox_Defined litGeometriesBox then
      let clipped := Polyhedron_Clip frustumVolume litGeometriesBox in
      if Polyhedron_Empty clipped then Some (Polyhedron_Define splitFrustum)
      else Some clipped
    else Some frustumVolume
  else Some frustumVolume.

(** [SetupDirLightShadowCamera]: the placement of the camera node is left
    out, as for the quantization; the projection follows the source. *)
Definition SetupDirLightShadowCamera (light : Light) (ctx : SceneLightProcessContext)
    (litGeometries : list Drawable) (split : SceneLightShadowSplit)
    : option SceneLightShadowSplit :=
  let parameters := shadowFocus_ light in
  shadowCamera ← shadowCamera_ split;
  frustumVolume ← SplitFrustumVolume parameters ctx (zRange_ split) litGeometries;
  let '(minX, minY, maxX, maxY, maxZ) := FitShadowBox (nonUniform_ parameters) frustumVolume in
  let camera :=
    {| orthographic_ := true; zoom_ := zoom_ shadowCamera; nearClip_ := 0%Q;
       farClip_ := maxZ; fov_ := fov_ shadowCamera;
       aspectRatio_ := 1%Q; orthoSize_ := orthoSize_ shadowCamera |} in
  let shadowMap :=
    {| texture_ := texture_ (split_shadowMap_ split); region_ := IntRect_ZERO |} in
  Some (set_camera (QuantizeDirLightShadowCamera parameters (minX, minY, maxX, maxY) camera)
          (set_split_shadowMap shadowMap split)).


(** *** Shadow cameras and splits *)

Definition GetOrCreateShadowCamera (split : SceneLightShadowSplit) : SceneLightShadowSplit :=
  let camera := default Camera_new (shadowCamera_ split) in
  set_camera
    {| orthographic_ := false; zoom_ := 1%Q; nearClip_ := nearClip_ camera;
       farClip_ := farClip_ camera; fov_ := fov_ camera;
       aspectRatio_ := aspectRatio_ camera; orthoSize_ := orthoSize_ camera |}
    split.

(** [SetNearClip], [SetFarClip], [SetFov], [SetAspectRatio] in a row, as the
    spot and point branches do. *)
Definition SetPerspective (nearClip farClip fov aspectRatio : float)
    (split : SceneLightShadowSplit) : SceneLightShadowSplit :=
  match shadowCamera_ split with
  | Some camera =>
      set_camera
        {| orthographic_ := orthographic_ camera; zoom_ := zoom_ camera;
           nearClip_ := nearClip; farClip_ := farClip; fov_ := fov;
           aspectRatio_ := aspectRatio; orthoSize_ := orthoSize_ camera |}
        split
  | None => split
  end.

(** The directional branch's loop [for (unsigned i = 0; i < numSplits; ++i)],
    with [remaining = numSplits - i] iterations still to run. *)
Fixpoint SetupDirSplits (ctx : SceneLightProcessContext) (remaining i : nat)
    (nearSplit : float) (lp : LightProcessor) : option LightProcessor :=
  match remaining with
  | O => Some lp
  | S remaining' =>
      (* If split is completely beyond camera far clip, we are done *)
      if fgt nearSplit (cull_farClip_ ctx) then Some lp
      else
        cascadeSplit ← cascadeSplits_ (light_ lp) !! i;
        let farSplit := Min (cull_farClip_ ctx) cascadeSplit in
        if fle farSplit nearSplit then Some lp
        else
          split ← splits_ lp !! i;
          (* Setup the shadow camera for the split *)
          split' ← SetupDirLightShadowCamera (light_ lp) ctx (litGeometries_ lp)
                     (set_zRange (MkRange nearSplit farSplit) (GetOrCreateShadowCamera split));
          SetupDirSplits ctx remaining' (S i) farSplit
            (set_splits (S (numSplits_ lp)) (<[i := split']> (splits_ lp)) lp)
  end.

(** The point branch's loop over the cube faces [i .. MAX_CUBEMAP_FACES). *)
Fixpoint SetupPointSplits (remaining i : nat) (lp : LightProcessor) : option LightProcessor :=
  match remaining with
  | O => Some lp
  | S remaining' =>
      split ← splits_ lp !! i;
      let light := light_ lp in
      let split' :=
        SetPerspective (shadowNearFarRatio_ light * light_range_ light)%Q (light_range_ light)
          90%Q 1%Q (GetOrCreateShadowCamera split) in
      SetupPointSplits remaining' (S i) (set_splits (numSplits_ lp) (<[i := split']> (splits_ lp)) lp)
  end.

Definition SetupShadowCameras (ctx : SceneLightProcessContext) (lp : LightProcessor)
    : option LightProcessor :=
  match lightType_ (light_ lp) with
  | LIGHT_DIRECTIONAL =>
      let nearSplit := cull_nearClip_ ctx in
      let numSplits := numShadowSplits_ (light_ lp) in
      SetupDirSplits ctx numSplits 0 nearSplit (set_numSplits 0 lp)
  | LIGHT_SPOT =>
      split ← splits_ lp !! 0%nat;
      let light := light_ lp in
      let split' :=
        SetPerspective (shadowNearFarRatio_ light * light_range_ light)%Q (light_range_ light)
          (light_fov_ light) (light_aspectRatio_ light) (GetOrCreateShadowCamera split) in
      Some (set_splits 1 (<[0%nat := split']> (splits_ lp)) lp)
  | LIGHT_POINT =>
      lp' ← SetupPointSplits MAX_CUBEMAP_FACES 0 lp;
      Some (set_numSplits MAX_CUBEMAP_FACES lp')
  end.

Definition GetSplitsGridSize (lp : LightProcessor) : IntVector2 :=
  if decide (numSplits_ lp = 1%nat) then (1, 1)%Z
  else if decide (numSplits_ lp = 2%nat) then (2, 1)%Z
  else if decide (numSplits_ lp < 6)%nat then (2, 2)%Z
  else (3, 2)%Z.

Definition BeginFrame (hasShadow : bool) (lp : LightProcessor) : LightProcessor :=
  {| light_ := light_ lp; hasShadow_ := hasShadow; numSplits_ := numSplits_ lp;
     splits_ := splits_ lp; litGeometries_ := []; tempShadowCasters_ := [];
     shadowMap_ := ShadowMap_new; shadowMapSplitSize_ := shadowMapSplitSize_ lp;
     shadowMapSize_ := shadowMapSize_ lp |}.

(** The lambda [hasShadowCaster] of [FinalizeShadowMap]. *)
Definition hasShadowCaster (split : SceneLightShadowSplit) : bool :=
  negb (bool_decide (shadowCasters_ split = [])).

(** [ea::any_of(begin, end, pred)] *)
Definition any_of {A} (pred : A → bool) (l : list A) : bool := existsb pred l.

(** [FinalizeShadowMap]; the range [begin(splits_), begin(splits_) +
    numSplits_) has to lie within the array. *)
Definition FinalizeShadowMap (lp : LightProcessor) : option LightProcessor :=
  (* Skip if doesn't have shadow or shadow casters *)
  if negb (hasShadow_ lp) then Some lp
  else if decide (numSplits_ lp ≤ length (splits_ lp))%nat then
    if negb (any_of hasShadowCaster (take (numSplits_ lp) (splits_ lp)))
    then Some (set_hasShadow false lp)
    else
      (* Evaluate split shadow map size *)
      let shadowMapSplitSize :=
        if decide (lightType_ (light_ lp) ≠ LIGHT_POINT) then 512%Z else 256%Z in
      let grid := GetSplitsGridSize lp in
      Some (set_shadowMapSize shadowMapSplitSize
              (shadowMapSplitSize * grid.1, shadowMapSplitSize * grid.2)%Z lp)
  else None.

(** Cube shadow map padding, in pixels. *)
Definition cubeShadowMapPadding : float := 2%Q.

Definition FinalizeShadowCamera (light : Light) (split : SceneLightShadowSplit)
    : option SceneLightShadowSplit :=
  let parameters := shadowFocus_ light in
  let shadowMapWidth := inject_Z (IntRect_Width (region_ (split_shadowMap_ split))) in
  camera ← shadowCamera_ split;
  let camera1 :=
    if decide (lightType_ light = LIGHT_DIRECTIONAL) then
      let maxY := (orthoSize_ camera * (1 # 2))%Q in
      let maxX := (aspectRatio_ camera * maxY)%Q in
      (* Requantize and snap to shadow map texels *)
      QuantizeDirLightShadowCamera parameters ((- maxX)%Q, (- maxY)%Q, maxX, maxY) camera
    else camera in
  let camera2 :=
    if fge (zoom_ camera1) 1%Q then
      let scale :=
        if decide (lightType_ light ≠ LIGHT_POINT)
        then ((shadowMapWidth - 2) / shadowMapWidth)%Q
        else ((shadowMapWidth - 2 * cubeShadowMapPadding) / shadowMapWidth)%Q in
      {| orthographic_ := orthographic_ camera1; zoom_ := (zoom_ camera1 * scale)%Q;
         nearClip_ := nearClip_ camera1; farClip_ := farClip_ camera1; fov_ := fov_ camera1;
         aspectRatio_ := aspectRatio_ camera1; orthoSize_ := orthoSize_ camera1 |}
    else camera1 in
  Some (set_camera camera2 split).

(** The loop of [SetShadowMap] over [splitIndex .. numSplits_). *)
Fixpoint InitializeSplitShadowMaps (shadowMap : ShadowMap) (grid : IntVector2)
    (remaining splitIndex : nat) (light : Light) (splits : list SceneLightShadowSplit)
    : option (list SceneLightShadowSplit) :=
  match remaining with
  | O => Some splits
  | S remaining' =>
      split ← splits !! splitIndex;
      split' ← FinalizeShadowCamera light
                 (set_split_shadowMap (ShadowMap_GetSplit shadowMap splitIndex grid) split);
      InitializeSplitShadowMaps shadowMap grid remaining' (S splitIndex) light
        (<[splitIndex := split']> splits)
  end.

Definition SetShadowMap (shadowMap : ShadowMap) (lp : LightProcessor) : option LightProcessor :=
  match texture_ shadowMap with
  | None =>
      (* If failed to allocate, reset shadows *)
      Some (set_numSplits 0 lp)
  | Some _ =>
      (* Initialize shadow map for all splits *)
      splits ← InitializeSplitShadowMaps shadowMap (GetSplitsGridSize lp)
                 (numSplits_ lp) 0 (light_ lp) (splits_ lp);
      Some (set_shadowMap shadowMap splits lp)
  end.

(** *** The shadow map size of LightProcessor.h

    [GetShadowMapSize()], by which DrawableProcessor.cpp sorts the light
    processors, reads the counter [numActiveSplits_] of the header. *)

(** Modelled from the spec: the code that maintains [numActiveSplits_]
    (LightProcessor.cpp as of the header) is not among the sources at hand.
    LightProcessor.cpp at hand counts the splits in [numSplits_], which is
    what the specification calls the number of active shadow splits. *)
Definition numActiveSplits_ (lp : LightProcessor) : nat := numSplits_ lp.

Definition GetShadowMapSize (lp : LightProcessor) : IntVector2 :=
  if negb (bool_decide (numActiveSplits_ lp = 0%nat)) then shadowMapSize_ lp
  else IntVector2_ZERO.

End Defs.
End LightProcessor.

(** ** LightProcessor.cpp: pipeline state hash *)

Module PipelineStateHash.
Section Defs.
Context `{Externals}.
Import LightProcessor.

(** [BiasParameters], and the attributes of the light that the hash reads
    ([GetShapeTexture()], [GetSpecularIntensity()], [GetShadowBias()]);
    they are passed beside the light processor. *)
Record BiasParameters := {
  constantBias_ : float;
  slopeScaledBias_ : float;
  normalOffset_ : float;
}.

Record LightShading := {
  shapeTexture_ : option N;
  specularIntensity_ : float;
  shadowBias_ : BiasParameters;
}.

(** The values of the enumerators of [LightType] (Graphics/Light.h) and
    [CombineHash] (Math/MathDefs.h) are not among the sources at hand. *)
Variable LightType_value : LightType → N.
Variable CombineHash : N → float → N.

(** [static_cast<unsigned>(b)] *)
Definition flag (b : bool) : N := if b then 1%N else 0%N.

(** The bits of [hash] before the bias parameters are combined in. *)
Definition PipelineStateFlags (shading : LightShading) (lp : LightProcessor) : N :=
  let biasParameters := shadowBias_ shading in
  let hash := 0%N in
  let hash := N.lor hash (N.land (LightType_value (lightType_ (light_ lp))) 3) in
  let hash := N.lor hash (N.shiftl (flag (hasShadow_ lp)) 2) in
  let hash := N.lor hash (N.shiftl (flag (bool_decide (is_Some (shapeTexture_ shading)))) 3) in
  let hash := N.lor hash (N.shiftl (flag (fgt (specularIntensity_ shading) 0)) 4) in
  let hash := N.lor hash (N.shiftl (flag (fgt (normalOffset_ biasParameters) 0)) 5) in
  hash.

Definition RecalculatePipelineStateHash (shading : LightShading) (lp : LightProcessor) : N :=
  let biasParameters := shadowBias_ shading in
  let hash := PipelineStateFlags shading lp in
  let hash := CombineHash hash (constantBias_ biasParameters) in
  let hash := CombineHash hash (slopeScaledBias_ biasParameters) in
  hash.

End Defs.
End PipelineStateHash.

(** ** ScenePass.cpp: shadow batches *)

Module ScenePass.
Section Defs.
Context `{SceneExternals}.
Import LightProcessor.

(** [ScenePipelineStateKey{ batch, lightHash }] *)
Definition ScenePipelineStateKey : Type := BaseSceneBatch * N.

Record ShadowScenePass := {
  shadowPassIndex_ : N;
  (** [renderer_->GetDefaultMaterial()] *)
  renderer_defaultMaterial_ : N;
  (** [pipelineStateCache_.GetPipelineState(key)] *)
  pipelineStateCache_ : ScenePipelineStateKey → option N;
  (** per thread: (light, split index, batch index) *)
  batchesDirty_ : list (list (N * nat * nat));
}.

Definition set_batchesDirty (d : list (list (N * nat * nat))) (pass : ShadowScenePass)
    : ShadowScenePass :=
  {| shadowPassIndex_ := shadowPassIndex_ pass; renderer_defaultMaterial_ := renderer_defaultMaterial_ pass;
     pipelineStateCache_ := pipelineStateCache_ pass; batchesDirty_ := d |}.

(** The condition [drawable->GetShadowMaskInZone() & lightMask == 0] as C++
    parses it: [==] binds tighter than [&], so the mask is and-ed with the
    value of the comparison [lightMask == 0] (1 or 0). *)
Definition ShadowMaskCheck (drawable : Drawable) (lightMask : N) : bool :=
  negb (N.land (shadowMaskInZone_ drawable) (if (lightMask =? 0)%N then 1 else 0) =? 0)%N.

(** [maxShadowDistance] after the draw distance has been taken into account. *)
Definition MaxShadowDistance (drawable : Drawable) : float :=
  let maxShadowDistance := shadowDistance_ drawable in
  let drawDistance := drawDistance_ drawable in
  if fgt drawDistance 0 && (fle maxShadowDistance 0 || flt drawDistance maxShadowDistance)
  then drawDistance else maxShadowDistance.

Definition ShadowDistanceCheck (drawable : Drawable) : bool :=
  let maxShadowDistance := MaxShadowDistance drawable in
  fgt maxShadowDistance 0 && fgt (distance_ drawable) maxShadowDistance.

(** The loop over the source batches [j ..) of one shadow caster. *)
Fixpoint AddShadowBatches (pass : ShadowScenePass) (threadIndex : nat) (materialQuality : N)
    (sceneLight : LightProcessor) (splitIndex : nat) (drawable : Drawable)
    (j : nat) (sourceBatches : list SourceBatch)
    (acc : list BaseSceneBatch * list (list (N * nat * nat)))
    : option (list BaseSceneBatch * list (list (N * nat * nat))) :=
  match sourceBatches with
  | [] => Some acc
  | sourceBatch :: rest =>
      let material := default (renderer_defaultMaterial_ pass) (sb_material_ sourceBatch) in
      tech ← FindTechnique material drawable materialQuality;
      match Technique_GetSupportedPass tech (shadowPassIndex_ pass) with
      | None =>
          AddShadowBatches pass threadIndex materialQuality sceneLight splitIndex drawable
            (S j) rest acc
      | Some shadowPass =>
          let '(shadowBatches, dirty) := acc in
          let batch pipelineState :=
            {| batch_drawableIndex_ := drawableIndex_ drawable;
               batch_sourceBatchIndex_ := j;
               batch_geometryType_ := sb_geometryType_ sourceBatch;
               batch_drawable_ := drawable;
               batch_geometry_ := sb_geometry_ sourceBatch;
               batch_material_ := material;
               batch_pass_ := shadowPass;
               batch_pipelineState_ := pipelineState |} in
          let key := (batch None, light_pipelineStateHash_ (light_ sceneLight)) in
          let pipelineState := pipelineStateCache_ pass key in
          dirty' ←
            (if pipelineState is None
             then PushBack threadIndex
                    (light_ID (light_ sceneLight), splitIndex, length shadowBatches) dirty
             else Some dirty);
          AddShadowBatches pass threadIndex materialQuality sceneLight splitIndex drawable
            (S j) rest (shadowBatches ++ [batch pipelineState], dirty')
      end
  end.

(** The loop over the shadow casters of the split. *)
Fixpoint CollectCasterBatches (pass : ShadowScenePass) (threadIndex : nat) (materialQuality : N)
    (sceneLight : LightProcessor) (splitIndex : nat) (lightMask : N)
    (shadowCasters : list Drawable)
    (acc : list BaseSceneBatch * list (list (N * nat * nat)))
    : option (list BaseSceneBatch * list (list (N * nat * nat))) :=
  match shadowCasters with
  | [] => Some acc
  | drawable :: rest =>
      (* Check shadow mask now when zone is ready *)
      if ShadowMaskCheck drawable lightMask then
        CollectCasterBatches pass threadIndex materialQuality sceneLight splitIndex lightMask
          rest acc
      (* Check shadow distance *)
      else if ShadowDistanceCheck drawable then
        CollectCasterBatches pass threadIndex materialQuality sceneLight splitIndex lightMask
          rest acc
      else
        (* Add batches *)
        acc' ← AddShadowBatches pass threadIndex materialQuality sceneLight splitIndex
                 drawable 0 (batches_ drawable) acc;
        CollectCasterBatches pass threadIndex materialQuality sceneLight splitIndex lightMask
          rest acc'
  end.

Definition CollectShadowBatches (threadIndex : nat) (materialQuality : N)
    (sceneLight : LightProcessor) (splitIndex : nat) (pass : ShadowScenePass)
    : option (LightProcessor * ShadowScenePass) :=
  split ← splits_ sceneLight !! splitIndex;
  let lightMask := lightMask_ (light_ sceneLight) in
  '(shadowBatches, dirty) ←
    CollectCasterBatches pass threadIndex materialQuality sceneLight splitIndex lightMask
      (shadowCasters_ split) (shadowCasterBatches_ split, batchesDirty_ pass);
  Some (set_splits (numSplits_ sceneLight)
          (<[splitIndex := set_shadowCasterBatches shadowBatches split]> (splits_ sceneLight))
          sceneLight,
        set_batchesDirty dirty pass).

End Defs.
End ScenePass.

(** ** The rest of the frame *)

Module Frame.
Section Defs.
Context `{SceneExternals}.
Import LightProcessor ScenePass.

(** Modelled from the spec: the batch collector that calls the light
    processors through a frame is not among the sources at hand.  The
    specification orders the calls on a light processor in a frame as
    [BeginFrame], the collection of lit geometries and shadow casters with
    [SetupShadowCameras], [FinalizeShadowMap], the allocation of the shadow
    map ([SetShadowMap]), [FinalizeShaderParameters], and has the shadow
    batches collected by split.  From [FinalizeShadowMap] on, the calls that
    may follow on a light processor are therefore [FinalizeShadowMap],
    [SetShadowMap] with any shadow map, and [CollectShadowBatches] for a
    split, in any number and order.  [FinalizeShaderParameters] only writes
    the shader parameter block, which the record does not hold, and is
    left out. *)
Inductive Call :=
  | FinalizeShadowMap_call
  | SetShadowMap_call (shadowMap : ShadowMap)
  | CollectShadowBatches_call (threadIndex : nat) (materialQuality : N) (splitIndex : nat).

Definition State : Type := LightProcessor * ShadowScenePass.

Definition run (call : Call) (state : State) : option State :=
  match call with
  | FinalizeShadowMap_call =>
      lp ← FinalizeShadowMap state.1; Some (lp, state.2)
  | SetShadowMap_call shadowMap =>
      lp ← SetShadowMap shadowMap state.1; Some (lp, state.2)
  | CollectShadowBatches_call threadIndex materialQuality splitIndex =>
      CollectShadowBatches threadIndex materialQuality state.1 splitIndex state.2
  end.

(** Modelled from the spec: shadow batches are collected for the active
    splits only, those below [numSplits_]. *)
Definition onActiveSplit (call : Call) (lp : LightProcessor) : Prop :=
  match call with
  | CollectShadowBatches_call _ _ splitIndex => (splitIndex < numSplits_ lp)%nat
  | _ => True
  end.

(** Modelled from the spec: the states that the rest of the frame leads
    to, by calls as above. *)
Inductive Continues : State → State → Prop :=
  | Continues_here state : Continues state state
  | Continues_call call state state' state'' :
      onActiveSplit call state.1 →
      run call state = Some state' →
      Continues state' state'' →
      Continues state state''.

End Defs.
End Frame.

(** ** DrawableProcessor.cpp *)

Module DrawableProcessor.
Section Defs.
Context `{SceneExternals}.

(** Constants of Math/MathDefs.h and RenderPipeline/CommonTypes.h. *)
Definition M_LARGE_VALUE : float := 100000000.
Definition M_LARGE_EPSILON : float := 5 # 100000.
Definition GeometryRenderFlag_Visible : N := 1.
Definition GeometryRenderFlag_Lit : N := 2.
Definition GeometryRenderFlag_ForwardLit : N := 4.

(** [ea::max(a, b)] *)
Definition ea_max (a b : float) : float := if flt a b then b else a.

Inductive LogLevel := LOG_TRACE | LOG_DEBUG | LOG_INFO | LOG_WARNING | LOG_ERROR | LOG_NONE.

(** A message handed to the logger: level, format string, argument. *)
Record LogMessage := { log_level_ : LogLevel; log_format_ : string; log_argument_ : nat }.

Record GeometryBatch := {
  gb_drawable_ : Drawable;
  gb_sourceBatchIndex_ : nat;
  gb_unlitBasePass_ : N;
  gb_litBasePass_ : option N;
  gb_lightPass_ : option N;
}.

Record DrawableProcessorPass := {
  needAmbient_ : bool;
  unlitBasePassIndex_ : N;
  litBasePassIndex_ : N;
  lightPassIndex_ : N;
  (** per thread *)
  geometryBatches_ : list (list GeometryBatch);
}.

Record AddResult := { added_ : bool; litAdded_ : bool }.

Definition DrawableProcessorPass_OnUpdateBegin (numThreads : nat) (pass : DrawableProcessorPass)
    : DrawableProcessorPass :=
  {| needAmbient_ := needAmbient_ pass; unlitBasePassIndex_ := unlitBasePassIndex_ pass;
     litBasePassIndex_ := litBasePassIndex_ pass; lightPassIndex_ := lightPassIndex_ pass;
     geometryBatches_ := replicate numThreads [] |}.

Definition AddBatch (threadIndex : nat) (drawable : Drawable) (sourceBatchIndex : nat)
    (technique : Technique) (pass : DrawableProcessorPass)
    : option (AddResult * DrawableProcessorPass) :=
  let unlitBasePass := Technique_GetPass technique (unlitBasePassIndex_ pass) in
  let lightPass := Technique_GetPass technique (lightPassIndex_ pass) in
  let litBasePass :=
    if lightPass is Some _ then Technique_GetPass technique (litBasePassIndex_ pass) else None in
  match unlitBasePass with
  | None => Some ({| added_ := false; litAdded_ := false |}, pass)
  | Some unlit =>
      batches ← PushBack threadIndex
                  {| gb_drawable_ := drawable; gb_sourceBatchIndex_ := sourceBatchIndex;
                     gb_unlitBasePass_ := unlit; gb_litBasePass_ := litBasePass;
                     gb_lightPass_ := lightPass |}
                  (geometryBatches_ pass);
      Some ({| added_ := true; litAdded_ := bool_decide (is_Some lightPass) |},
            {| needAmbient_ := needAmbient_ pass; unlitBasePassIndex_ := unlitBasePassIndex_ pass;
               litBasePassIndex_ := litBasePassIndex_ pass;
               lightPassIndex_ := lightPassIndex_ pass; geometryBatches_ := batches |})
  end.

Record FrameInfo := {
  frame_numThreads_ : nat;
  (** [octree_->GetAllDrawables().size()] *)
  frame_numDrawables_ : nat;
  (** the renderer's material quality after the camera's override *)
  frame_materialQuality_ : N;
  (** whether the scene has a [GlobalIllumination] component *)
  frame_gi_ : bool;
}.

Record DrawableProcessor := {
  (** frame constants *)
  numDrawables_ : nat;
  materialQuality_ : N;
  defaultMaterial_ : N;
  gi_ : bool;
  (** [settings_] *)
  maxVertexLights_ : nat;
  maxPixelLights_ : nat;
  (** per drawable, indexed by the drawable index *)
  isDrawableUpdated_ : list bool;
  geometryFlags_ : list N;
  geometryZRanges_ : list FloatRange;
  geometryLighting_ : list LightAccumulator;
  (** per thread *)
  sceneZRangeTemp_ : list FloatRange;
  sceneZRange_ : FloatRange;
  visibleGeometries_ : list (list Drawable);
  threadedGeometryUpdates_ : list (list Drawable);
  nonThreadedGeometryUpdates_ : list (list Drawable);
  visibleLightsTemp_ : list (list Light);
  (** results of [ProcessVisibleDrawables] *)
  visibleLights_ : list Light;
  (** the light processors, named by the light they belong to *)
  lightProcessors_ : list N;
  lightProcessorCache_ : gmap N LightProcessor.LightProcessor;
  passes_ : list DrawableProcessorPass;
  (** what was written to the log *)
  log_ : list LogMessage;
}.

Definition set_isDrawableUpdated_ (v : list bool) (dp : DrawableProcessor) : DrawableProcessor :=
  {| numDrawables_ := numDrawables_ dp; materialQuality_ := materialQuality_ dp;
     defaultMaterial_ := defaultMaterial_ dp; gi_ := gi_ dp;
     maxVertexLights_ := maxVertexLights_ dp; maxPixelLights_ := maxPixelLights_ dp;
     isDrawableUpdated_ := v; geometryFlags_ := geometryFlags_ dp;
     geometryZRanges_ := geometryZRanges_ dp; geometryLighting_ := geometryLighting_ dp;
     sceneZRangeTemp_ := sceneZRangeTemp_ dp; sceneZRange_ := sceneZRange_ dp;
     visibleGeometries_ := visibleGeometries_ dp;
     threadedGeometryUpdates_ := threadedGeometryUpdates_ dp;
     nonThreadedGeometryUpdates_ := nonThreadedGeometryUpdates_ dp;
     visibleLightsTemp_ := visibleLightsTemp_ dp; visibleLights_ := visibleLights_ dp;
     lightProcessors_ := lightProcessors_ dp; lightProcessorCache_ := lightProcessorCache_ dp;
     passes_ := passes_ dp; log_ := log_ dp |}.

Definition set_geometryFlags_ (v : list N) (dp : DrawableProcessor) : DrawableProcessor :=
  {| numDrawables_ := numDrawables_ dp; materialQuality_ := materialQuality_ dp;
     defaultMaterial_ := defaultMaterial_ dp; gi_ := gi_ dp;
     maxVertexLights_ := maxVertexLights_ dp; maxPixelLights_ := maxPixelLights_ dp;
     isDrawableUpdated_ := isDrawableUpdated_ dp; geometryFlags_ := v;
     geometryZRanges_ := geometryZRanges_ dp; geometryLighting_ := geometryLighting_ dp;
     sceneZRangeTemp_ := sceneZRangeTemp_ dp; sceneZRange_ := sceneZRange_ dp;
     visibleGeometries_ := visibleGeometries_ dp;
     threadedGeometryUpdates_ := threadedGeometryUpdates_ dp;
     nonThreadedGeometryUpdates_ := nonThreadedGeometryUpdates_ dp;
     visibleLightsTemp_ := visibleLightsTemp_ dp; visibleLights_ := visibleLights_ dp;
     lightProcessors_ := lightProcessors_ dp; lightProcessorCache_ := lightProcessorCache_ dp;
     passes_ := passes_ dp; log_ := log_ dp |}.

Definition set_geometryZRanges_ (v : list FloatRange) (dp : DrawableProcessor) : DrawableProcessor :=
  {| numDrawables_ := numDrawables_ dp; materialQuality_ := materialQuality_ dp;
     defaultMaterial_ := defaultMaterial_ dp; gi_ := gi_ dp;
     maxVertexLights_ := maxVertexLights_ dp; maxPixelLights_ := maxPixelLights_ dp;
     isDrawableUpdated_ := isDrawableUpdated_ dp; geometryFlags_ := geometryFlags_ dp;
     geometryZRanges_ := v; geometryLighting_ := geometryLighting_ dp;
     sceneZRangeTemp_ := sceneZRangeTemp_ dp; sceneZRange_ := sceneZRange_ dp;
     visibleGeometries_ := visibleGeometries_ dp;
     threadedGeometryUpdates_ := threadedGeometryUpdates_ dp;
     nonThreadedGeometryUpdates_ := nonThreadedGeometryUpdates_ dp;
     visibleLightsTemp_ := visibleLightsTemp_ dp; visibleLights_ := visibleLights_ dp;
     lightProcessors_ := lightProcessors_ dp; lightProcessorCache_ := lightProcessorCache_ dp;
     passes_ := passes_ dp; log_ := log_ dp |}.

Definition set_geometryLighting_ (v : list LightAccumulator) (dp : DrawableProcessor) : DrawableProcessor :=
  {| numDrawables_ := numDrawables_ dp; materialQuality_ := materialQuality_ dp;
     defaultMaterial_ := defaultMaterial_ dp; gi_ := gi_ dp;
     maxVertexLights_ := maxVertexLights_ dp; maxPixelLights_ := maxPixelLights_ dp;
     isDrawableUpdated_ := isDrawableUpdated_ dp; geometryFlags_ := geometryFlags_ dp;
     geometryZRanges_ := geometryZRanges_ dp; geometryLighting_ := v;
     sceneZRangeTemp_ := sceneZRangeTemp_ dp; sceneZRange_ := sceneZRange_ dp;
     visibleGeometries_ := visibleGeometries_ dp;
     threadedGeometryUpdates_ := threadedGeometryUpdates_ dp;
     nonThreadedGeometryUpdates_ := nonThreadedGeometryUpdates_ dp;
     visibleLightsTemp_ := visibleLightsTemp_ dp; visibleLights_ := visibleLights_ dp;
     lightProcessors_ := lightProcessors_ dp; lightProcessorCache_ := lightProcessorCache_ dp;
     passes_ := passes_ dp; log_ := log_ dp |}.

Definition set_sceneZRangeTemp_ (v : list FloatRange) (dp : DrawableProcessor) : DrawableProcessor :=
  {| numDrawables_ := numDrawables_ dp; materialQuality_ := materialQuality_ dp;
     defaultMaterial_ := defaultMaterial_ dp; gi_ := gi_ dp;
     maxVertexLights_ := maxVertexLights_ dp; maxPixelLights_ := maxPixelLights_ dp;
     isDrawableUpdated_ := isDrawableUpdated_ dp; geometryFlags_ := geometryFlags_ dp;
     geometryZRanges_ := geometryZRanges_ dp; geometryLighting_ := geometryLighting_ dp;
     sceneZRangeTemp_ := v; sceneZRange_ := sceneZRange_ dp;
     visibleGeometries_ := visibleGeometries_ dp;
     threadedGeometryUpdates_ := threadedGeometryUpdates_ dp;
     nonThreadedGeometryUpdates_ := nonThreadedGeometryUpdates_ dp;
     visibleLightsTemp_ := visibleLightsTemp_ dp; visibleLights_ := visibleLights_ dp;
     lightProcessors_ := lightProcessors_ dp; lightProcessorCache_ := lightProcessorCache_ dp;
     passes_ := passes_ dp; log_ := log_ dp |}.

Definition set_visibleGeometries_ (v : list (list Drawable)) (dp : DrawableProcessor) : DrawableProcessor :=
  {| numDrawables_ := numDrawables_ dp; materialQuality_ := materialQuality_ dp;
     defaultMaterial_ := defaultMaterial_ dp; gi_ := gi_ dp;
     maxVertexLights_ := maxVertexLights_ dp; maxPixelLights_ := maxPixelLights_ dp;
     isDrawableUpdated_ := isDrawableUpdated_ dp; geometryFlags_ := geometryFlags_ dp;
     geometryZRanges_ := geometryZRanges_ dp; geometryLighting_ := geometryLighting_ dp;
     sceneZRangeTemp_ := sceneZRangeTemp_ dp; sceneZRange_ := sceneZRange_ dp;
     visibleGeometries_ := v; threadedGeometryUpdates_ := threadedGeometryUpdates_ dp;
     nonThreadedGeometryUpdates_ := nonThreadedGeometryUpdates_ dp;
     visibleLightsTemp_ := visibleLightsTemp_ dp; visibleLights_ := visibleLights_ dp;
     lightProcessors_ := lightProcessors_ dp; lightProcessorCache_ := lightProcessorCache_ dp;
     passes_ := passes_ dp; log_ := log_ dp |}.

Definition set_threadedGeometryUpdates_ (v : list (list Drawable)) (dp : DrawableProcessor) : DrawableProcessor :=
  {| numDrawables_ := numDrawables_ dp; materialQuality_ := materialQuality_ dp;
     defaultMaterial_ := defaultMaterial_ dp; gi_ := gi_ dp;
     maxVertexLights_ := maxVertexLights_ dp; maxPixelLights_ := maxPixelLights_ dp;
     isDrawableUpdated_ := isDrawableUpdated_ dp; geometryFlags_ := geometryFlags_ dp;
     geometryZRanges_ := geometryZRanges_ dp; geometryLighting_ := geometryLighting_ dp;
     sceneZRangeTemp_ := sceneZRangeTemp_ dp; sceneZRange_ := sceneZRange_ dp;
     visibleGeometries_ := visibleGeometries_ dp; threadedGeometryUpdates_ := v;
     nonThreadedGeometryUpdates_ := nonThreadedGeometryUpdates_ dp;
     visibleLightsTemp_ := visibleLightsTemp_ dp; visibleLights_ := visibleLights_ dp;
     lightProcessors_ := lightProcessors_ dp; lightProcessorCache_ := lightProcessorCache_ dp;
     passes_ := passes_ dp; log_ := log_ dp |}.

Definition set_nonThreadedGeometryUpdates_ (v : list (list Drawable)) (dp : DrawableProcessor) : DrawableProcessor :=
  {| numDrawables_ := numDrawables_ dp; materialQuality_ := materialQuality_ dp;
     defaultMaterial_ := defaultMaterial_ dp; gi_ := gi_ dp;
     maxVertexLights_ := maxVertexLights_ dp; maxPixelLights_ := maxPixelLights_ dp;
     isDrawableUpdated_ := isDrawableUpdated_ dp; geometryFlags_ := geometryFlags_ dp;
     geometryZRanges_ := geometryZRanges_ dp; geometryLighting_ := geometryLighting_ dp;
     sceneZRangeTemp_ := sceneZRangeTemp_ dp; sceneZRange_ := sceneZRange_ dp;
     visibleGeometries_ := visibleGeometries_ dp;
     threadedGeometryUpdates_ := threadedGeometryUpdates_ dp; nonThreadedGeometryUpdates_ := v;
     visibleLightsTemp_ := visibleLightsTemp_ dp; visibleLights_ := visibleLights_ dp;
     lightProcessors_ := lightProcessors_ dp; lightProcessorCache_ := lightProcessorCache_ dp;
     passes_ := passes_ dp; log_ := log_ dp |}.

Definition set_visibleLightsTemp_ (v : list (list Light)) (dp : DrawableProcessor) : DrawableProcessor :=
  {| numDrawables_ := numDrawables_ dp; materialQuality_ := materialQuality_ dp;
     defaultMaterial_ := defaultMaterial_ dp; gi_ := gi_ dp;
     maxVertexLights_ := maxVertexLights_ dp; maxPixelLights_ := maxPixelLights_ dp;
     isDrawableUpdated_ := isDrawableUpdated_ dp; geometryFlags_ := geometryFlags_ dp;
     geometryZRanges_ := geometryZRanges_ dp; geometryLighting_ := geometryLighting_ dp;
     sceneZRangeTemp_ := sceneZRangeTemp_ dp; sceneZRange_ := sceneZRange_ dp;
     visibleGeometries_ := visibleGeometries_ dp;
     threadedGeometryUpdates_ := threadedGeometryUpdates_ dp;
     nonThreadedGeometryUpdates_ := nonThreadedGeometryUpdates_ dp; visibleLightsTemp_ := v;
     visibleLights_ := visibleLights_ dp; lightProcessors_ := lightProcessors_ dp;
     lightProcessorCache_ := lightProcessorCache_ dp; passes_ := passes_ dp; log_ := log_ dp |}.

Definition set_passes_ (v : list DrawableProcessorPass) (dp : DrawableProcessor) : DrawableProcessor :=
  {| numDrawables_ := numDrawables_ dp; materialQuality_ := materialQuality_ dp;
     defaultMaterial_ := defaultMaterial_ dp; gi_ := gi_ dp;
     maxVertexLights_ := maxVertexLights_ dp; maxPixelLights_ := maxPixelLights_ dp;
     isDrawableUpdated_ := isDrawableUpdated_ dp; geometryFlags_ := geometryFlags_ dp;
     geometryZRanges_ := geometryZRanges_ dp; geometryLighting_ := geometryLighting_ dp;
     sceneZRangeTemp_ := sceneZRangeTemp_ dp; sceneZRange_ := sceneZRange_ dp;
     visibleGeometries_ := visibleGeometries_ dp;
     threadedGeometryUpdates_ := threadedGeometryUpdates_ dp;
     nonThreadedGeometryUpdates_ := nonThreadedGeometryUpdates_ dp;
     visibleLightsTemp_ := visibleLightsTemp_ dp; visibleLights_ := visibleLights_ dp;
     lightProcessors_ := lightProcessors_ dp; lightProcessorCache_ := lightProcessorCache_ dp;
     passes_ := v; log_ := log_ dp |}.

Definition set_log_ (v : list LogMessage) (dp : DrawableProcessor) : DrawableProcessor :=
  {| numDrawables_ := numDrawables_ dp; materialQuality_ := materialQuality_ dp;
     defaultMaterial_ := defaultMaterial_ dp; gi_ := gi_ dp;
     maxVertexLights_ := maxVertexLights_ dp; maxPixelLights_ := maxPixelLights_ dp;
     isDrawableUpdated_ := isDrawableUpdated_ dp; geometryFlags_ := geometryFlags_ dp;
     geometryZRanges_ := geometryZRanges_ dp; geometryLighting_ := geometryLighting_ dp;
     sceneZRangeTemp_ := sceneZRangeTemp_ dp; sceneZRange_ := sceneZRange_ dp;
     visibleGeometries_ := visibleGeometries_ dp;
     threadedGeometryUpdates_ := threadedGeometryUpdates_ dp;
     nonThreadedGeometryUpdates_ := nonThreadedGeometryUpdates_ dp;
     visibleLightsTemp_ := visibleLightsTemp_ dp; visibleLights_ := visibleLights_ dp;
     lightProcessors_ := lightProcessors_ dp; lightProcessorCache_ := lightProcessorCache_ dp;
     passes_ := passes_ dp; log_ := v |}.

Definition set_visibleLights (lights : list Light) (processors : list N)
    (cache : gmap N LightProcessor.LightProcessor) (zRange : FloatRange)
    (dp : DrawableProcessor) : DrawableProcessor :=
  {| numDrawables_ := numDrawables_ dp; materialQuality_ := materialQuality_ dp;
     defaultMaterial_ := defaultMaterial_ dp; gi_ := gi_ dp;
     maxVertexLights_ := maxVertexLights_ dp; maxPixelLights_ := maxPixelLights_ dp;
     isDrawableUpdated_ := isDrawableUpdated_ dp; geometryFlags_ := geometryFlags_ dp;
     geometryZRanges_ := geometryZRanges_ dp; geometryLighting_ := geometryLighting_ dp;
     sceneZRangeTemp_ := sceneZRangeTemp_ dp; sceneZRange_ := zRange;
     visibleGeometries_ := visibleGeometries_ dp;
     threadedGeometryUpdates_ := threadedGeometryUpdates_ dp;
     nonThreadedGeometryUpdates_ := nonThreadedGeometryUpdates_ dp;
     visibleLightsTemp_ := visibleLightsTemp_ dp; visibleLights_ := lights;
     lightProcessors_ := processors; lightProcessorCache_ := cache; passes_ := passes_ dp;
     log_ := log_ dp |}.

(** [OnUpdateBegin]: frame constants are taken over and the per-frame
    containers are sized and cleared. *)
Definition OnUpdateBegin (frameInfo : FrameInfo) (dp : DrawableProcessor) : DrawableProcessor :=
  let numDrawables := frame_numDrawables_ frameInfo in
  let numThreads := frame_numThreads_ frameInfo in
  {| numDrawables_ := numDrawables; materialQuality_ := frame_materialQuality_ frameInfo;
     defaultMaterial_ := defaultMaterial_ dp; gi_ := frame_gi_ frameInfo;
     maxVertexLights_ := maxVertexLights_ dp; maxPixelLights_ := maxPixelLights_ dp;
     isDrawableUpdated_ := replicate numDrawables false;
     geometryFlags_ := replicate numDrawables 0%N;
     geometryZRanges_ := resize numDrawables FloatRange_new (geometryZRanges_ dp);
     geometryLighting_ := resize numDrawables LightAccumulator_new (geometryLighting_ dp);
     sceneZRangeTemp_ := replicate numThreads FloatRange_new; sceneZRange_ := FloatRange_new;
     visibleGeometries_ := replicate numThreads [];
     threadedGeometryUpdates_ := replicate numThreads [];
     nonThreadedGeometryUpdates_ := replicate numThreads [];
     visibleLightsTemp_ := replicate numThreads []; visibleLights_ := visibleLights_ dp;
     lightProcessors_ := lightProcessors_ dp; lightProcessorCache_ := lightProcessorCache_ dp;
     passes_ := passes_ dp; log_ := log_ dp |}.

(** [URHO3D_LOGERROR(format, argument)], in a build with logging. *)
Definition URHO3D_LOGERROR (format : string) (argument : nat) (dp : DrawableProcessor)
    : DrawableProcessor :=
  set_log_ (log_ dp ++ [{| log_level_ := LOG_ERROR; log_format_ := format;
                           log_argument_ := argument |}]) dp.

Definition QueueDrawableGeometryUpdate (threadIndex : nat) (drawable : Drawable)
    (dp : DrawableProcessor) : option DrawableProcessor :=
  match updateGeometryType_ drawable with
  | UPDATE_MAIN_THREAD =>
      q ← PushBack threadIndex drawable (nonThreadedGeometryUpdates_ dp);
      Some (set_nonThreadedGeometryUpdates_ q dp)
  | _ =>
      q ← PushBack threadIndex drawable (threadedGeometryUpdates_ dp);
      Some (set_threadedGeometryUpdates_ q dp)
  end.

(** The loop [for (DrawableProcessorPass* pass : passes_)] for one source
    batch; the flags are ([isForwardLit], [needAmbient]). *)
Fixpoint AddBatchToPasses (threadIndex : nat) (drawable : Drawable) (i : nat)
    (technique : Technique) (passes : list DrawableProcessorPass) (flags : bool * bool)
    : option (list DrawableProcessorPass * (bool * bool)) :=
  match passes with
  | [] => Some ([], flags)
  | pass :: rest =>
      '(result, pass') ← AddBatch threadIndex drawable i technique pass;
      let isForwardLit := if litAdded_ result then true else flags.1 in
      let needAmbient :=
        if litAdded_ result || (added_ result && needAmbient_ pass) then true else flags.2 in
      '(rest', flags') ← AddBatchToPasses threadIndex drawable i technique rest
                           (isForwardLit, needAmbient);
      Some (pass' :: rest', flags')
  end.

(** The loop over the source batches [i ..) of a drawable. *)
Fixpoint CollectBatches (defaultMaterial materialQuality : N) (threadIndex : nat)
    (drawable : Drawable) (i : nat) (sourceBatches : list SourceBatch)
    (passes : list DrawableProcessorPass) (flags : bool * bool)
    : option (list DrawableProcessorPass * (bool * bool)) :=
  match sourceBatches with
  | [] => Some (passes, flags)
  | sourceBatch :: rest =>
      (* Find current technique *)
      let material := default defaultMaterial (sb_material_ sourceBatch) in
      match FindTechnique material drawable materialQuality with
      | None =>
          CollectBatches defaultMaterial materialQuality threadIndex drawable (S i) rest
            passes flags
      | Some technique =>
          (* Update scene passes *)
          '(passes', flags') ← AddBatchToPasses threadIndex drawable i technique passes flags;
          CollectBatches defaultMaterial materialQuality threadIndex drawable (S i) rest
            passes' flags'
      end
  end.

Definition testFlag (flags flag : N) : bool := negb (N.land flags flag =? 0)%N.

(** The geometry branch of [ProcessVisibleDrawable].  [UpdateDrawableZone]
    refreshes the zone cached in the drawable itself; the ambient reset
    below reads it through the drawable. *)
Definition ProcessVisibleGeometry (threadIndex : nat) (drawable : Drawable)
    (dp : DrawableProcessor) : option DrawableProcessor :=
  let drawableIndex := drawableIndex_ drawable in
  let zRange := CalculateBoundingBoxZRange (worldBoundingBox_ drawable) in
  (* Do not add "infinite" objects like skybox *)
  _ ← geometryZRanges_ dp !! drawableIndex;
  dp1 ←
    (if negb (FloatRange_IsValid zRange) then
       Some (set_geometryZRanges_
               (<[drawableIndex := MkRange M_LARGE_VALUE M_LARGE_VALUE]> (geometryZRanges_ dp)) dp)
     else
       threadRange ← sceneZRangeTemp_ dp !! threadIndex;
       Some (set_sceneZRangeTemp_
               (<[threadIndex := FloatRange_or threadRange zRange]> (sceneZRangeTemp_ dp))
               (set_geometryZRanges_ (<[drawableIndex := zRange]> (geometryZRanges_ dp)) dp)));
  (* Collect batches *)
  '(passes, flags) ←
    CollectBatches (defaultMaterial_ dp1) (materialQuality_ dp1) threadIndex drawable 0
      (batches_ drawable) (passes_ dp1) (false, false);
  let isForwardLit : bool := flags.1 in
  let needAmbient : bool := flags.2 in
  let dp2 := set_passes_ passes dp1 in
  (* Process lighting *)
  dp3 ←
    (if needAmbient then
       lightAccumulator ← geometryLighting_ dp2 !! drawableIndex;
       let reset :=
         if isForwardLit then LightAccumulator_ResetLights lightAccumulator
         else lightAccumulator in
       let fromGI :=
         gi_ dp2 &&
         match globalIlluminationType_ drawable with
         | GI_BlendLightProbes => true
         | _ => false
         end in
       Some (set_geometryLighting_
               (<[drawableIndex := LightAccumulator_ResetAmbient fromGI drawable reset]>
                  (geometryLighting_ dp2)) dp2)
     else Some dp2);
  (* Store geometry *)
  visible ← PushBack threadIndex drawable (visibleGeometries_ dp3);
  let dp4 := set_visibleGeometries_ visible dp3 in
  (* Update flags *)
  _ ← geometryFlags_ dp4 !! drawableIndex;
  let flag :=
    N.lor (N.lor GeometryRenderFlag_Visible
             (if needAmbient then GeometryRenderFlag_Lit else 0))
      (if isForwardLit then GeometryRenderFlag_ForwardLit else 0) in
  let dp5 := set_geometryFlags_ (<[drawableIndex := flag]> (geometryFlags_ dp4)) dp4 in
  (* Queue geometry update *)
  QueueDrawableGeometryUpdate threadIndex drawable dp5.

(** [ProcessVisibleDrawable(drawable)] on the worker thread [threadIndex].
    The drawable record carries the attributes as [UpdateBatches] and
    [MarkInView] leave them. *)
Definition ProcessVisibleDrawable (threadIndex : nat) (drawable : Drawable)
    (dp : DrawableProcessor) : option DrawableProcessor :=
  let drawableIndex := drawableIndex_ drawable in
  _ ← isDrawableUpdated_ dp !! drawableIndex;
  let dp0 := set_isDrawableUpdated_ (<[drawableIndex := true]> (isDrawableUpdated_ dp)) dp in
  (* Skip if too far *)
  let maxDistance := drawDistance_ drawable in
  if fgt maxDistance 0 && fgt (distance_ drawable) maxDistance then Some dp0
  (* For geometries, find zone, clear lights and calculate view space Z range *)
  else if testFlag (drawableFlags_ drawable) DRAWABLE_GEOMETRY then
    ProcessVisibleGeometry threadIndex drawable dp0
  else if testFlag (drawableFlags_ drawable) DRAWABLE_LIGHT then
    let light := asLight_ drawable in
    (* Skip lights with zero brightness or black color, skip baked lights too *)
    if negb (effectiveColorIsBlack_ light) && negb (lightMaskEffective_ light =? 0)%N then
      lights ← PushBack threadIndex light (visibleLightsTemp_ dp0);
      Some (set_visibleLightsTemp_ lights dp0)
    else Some dp0
  else Some dp0.

(** *** Visible lights *)

(** The comparison [compareID] handed to [ea::sort]. *)
Definition compareID (lhs rhs : Light) : bool := (light_ID lhs <? light_ID rhs)%N.

(** [ea::sort(begin, end, compare)], as an insertion sort: [ea::sort]
    promises a permutation of its input in which no element compares less
    than an element before it. *)
Fixpoint sorted_insert {A} (compare : A → A → bool) (x : A) (l : list A) : list A :=
  match l with
  | [] => [x]
  | y :: l' => if compare x y then x :: l else y :: sorted_insert compare x l'
  end.

Definition ea_sort {A} (compare : A → A → bool) (l : list A) : list A :=
  foldr (sorted_insert compare) [] l.

(** Modelled from the spec: [LightProcessorCache::GetLightProcessor] is
    declared in LightProcessor.h and defined outside the sources at hand.
    The cache maps light identity to a light processor instance, lazily
    created on first visibility and reused thereafter.  A processor is
    named by the light it belongs to. *)
Definition GetLightProcessor (light : Light) (cache : gmap N LightProcessor.LightProcessor)
    : N * gmap N LightProcessor.LightProcessor :=
  match cache !! light_ID light with
  | Some _ => (light_ID light, cache)
  | None => (light_ID light, <[light_ID light := LightProcessor.LightProcessor_new light]> cache)
  end.

(** The loop [for (Light* light : visibleLights_)] that fills
    [lightProcessors_]. *)
Fixpoint CollectLightProcessors (lights : list Light)
    (cache : gmap N LightProcessor.LightProcessor)
    : list N * gmap N LightProcessor.LightProcessor :=
  match lights with
  | [] => ([], cache)
  | light :: rest =>
      let '(processor, cache') := GetLightProcessor light cache in
      let '(processors, cache'') := CollectLightProcessors rest cache' in
      (processor :: processors, cache'')
  end.

(** [ForEachParallel(workQueue_, drawables, ProcessVisibleDrawable)]: each
    drawable is processed on some worker thread; a run is described by the
    thread that took each drawable and the order in which the calls took
    effect. *)
Fixpoint ForEachParallel (schedule : list (nat * Drawable)) (dp : DrawableProcessor)
    : option DrawableProcessor :=
  match schedule with
  | [] => Some dp
  | (threadIndex, drawable) :: rest =>
      dp' ← ProcessVisibleDrawable threadIndex drawable dp;
      ForEachParallel rest dp'
  end.

Definition ProcessVisibleDrawables (schedule : list (nat * Drawable)) (dp : DrawableProcessor)
    : option DrawableProcessor :=
  dp1 ← ForEachParallel schedule dp;
  (* Sort lights by component ID for stability *)
  let visibleLights := ea_sort compareID (Elements (visibleLightsTemp_ dp1)) in
  let '(lightProcessors, cache) :=
    CollectLightProcessors visibleLights (lightProcessorCache_ dp1) in
  (* Compute scene Z range *)
  let sceneZRange := foldl FloatRange_or (sceneZRange_ dp1) (sceneZRangeTemp_ dp1) in
  Some (set_visibleLights visibleLights lightProcessors cache sceneZRange dp1).

(** *** Forward lighting *)

Definition GetDrawableLightPenalty (intensityPenalty : float) (importance : LightImportance)
    (type : LightType) : float :=
  match importance with
  | LI_IMPORTANT => if decide (type = LIGHT_DIRECTIONAL) then (-2)%Q else (-1)%Q
  | LI_AUTO =>
      if fle intensityPenalty 1 then intensityPenalty else (2 - 1 / intensityPenalty)%Q
  | LI_NOT_IMPORTANT =>
      if fle intensityPenalty 1 then (3 + intensityPenalty)%Q else (5 - 1 / intensityPenalty)%Q
  end.

(** The loop over [litGeometries] of [ProcessForwardLighting]; every
    geometry has an accumulator of its own. *)
Fixpoint AccumulateForwardLight (light : Light) (lightIndex maxVertexLights maxPixelLights : nat)
    (litGeometries : list Drawable) (lighting : list LightAccumulator)
    : option (list LightAccumulator) :=
  match litGeometries with
  | [] => Some lighting
  | geometry :: rest =>
      let lightIntensityPenalty := (1 / intensityDivisor_ light)%Q in
      let distance := ea_max (GetDistanceTo light geometry) M_LARGE_EPSILON in
      let penalty :=
        GetDrawableLightPenalty (distance * lightIntensityPenalty)%Q
          (lightImportance_ light) (lightType_ light) in
      let drawableIndex := drawableIndex_ geometry in
      accumulator ← lighting !! drawableIndex;
      AccumulateForwardLight light lightIndex maxVertexLights maxPixelLights rest
        (<[drawableIndex :=
             LightAccumulator_AccumulateLight lightIndex (lightImportance_ light)
               maxVertexLights maxPixelLights penalty accumulator]> lighting)
  end.

Definition ProcessForwardLighting (lightIndex : nat) (litGeometries : list Drawable)
    (dp : DrawableProcessor) : option DrawableProcessor :=
  if decide (length (visibleLights_ dp) ≤ lightIndex)%nat then
    Some (URHO3D_LOGERROR "Invalid light index {}" lightIndex dp)
  else
    light ← visibleLights_ dp !! lightIndex;
    lighting ← AccumulateForwardLight light lightIndex (maxVertexLights_ dp)
                 (maxPixelLights_ dp) litGeometries (geometryLighting_ dp);
    Some (set_geometryLighting_ lighting dp).

End Defs.
End DrawableProcessor.

(** ** BatchStateCache.h *)

Module BatchStateCache.

(** Key used to lookup cached pipeline states.  Geometry, material and pass
    are object identities, the geometry type is its enumerator value. *)
Record BatchStateLookupKey := {
  drawableHash_ : N;
  pixelLightHash_ : N;
  geometryType_ : N;
  geometry_ : N;
  material_ : N;
  pass_ : N;
}.

(** [operator ==] compares all six members. *)
Global Instance BatchStateLookupKey_eq_dec : EqDecision BatchStateLookupKey.
Proof. solve_decision. Defined.

Definition key_to_tuple (k : BatchStateLookupKey) : N * N * N * N * N * N :=
  (drawableHash_ k, pixelLightHash_ k, geometryType_ k, geometry_ k, material_ k, pass_ k).

Definition key_of_tuple (t : N * N * N * N * N * N) : BatchStateLookupKey :=
  let '(a, b, c, d, e, f) := t in
  {| drawableHash_ := a; pixelLightHash_ := b; geometryType_ := c;
     geometry_ := d; material_ := e; pass_ := f |}.

Global Instance BatchStateLookupKey_countable : Countable BatchStateLookupKey.
Proof.
  apply (inj_countable' key_to_tuple key_of_tuple).
  intros []. reflexivity.
Defined.

(** Key used to create cached pipeline states: the lookup key and the
    objects behind the hashes. *)
Record BatchStateCreateKey := {
  lookupKey_ : BatchStateLookupKey;
  drawable_ : N;
  sourceBatchIndex_ : N;
  pixelLight_ : option N;
  pixelLightIndex_ : N;
  vertexLightsHash_ : N;
}.

(** Pipeline state cache entry.  May be invalid. *)
Record CachedBatchState := {
  (** hashes of the corresponding objects at the moment of caching *)
  geometryHash_ : N;
  materialHash_ : N;
  passHash_ : N;
  (** the pipeline state; null when creation failed *)
  pipelineState_ : option N;
  (** whether the state is invalidated and should be recreated *)
  invalidated_ : bool;
}.

Record BatchStateCreateContext := {
  ctx_pass_ : N;
  subpassIndex_ : N;
}.

(** [BatchStateCacheCallback::CreateBatchPipelineState] *)
Definition BatchStateCacheCallback : Type :=
  BatchStateCreateKey → BatchStateCreateContext → option N.

(** The pipeline state hashes that geometries, materials and passes report
    at the time of a call. *)
Record ObjectHashes := {
  geometryHashOf : N → N;
  materialHashOf : N → N;
  passHashOf : N → N;
}.

(** Whether an entry still matches the objects of its key. *)
Definition upToDate (hashes : ObjectHashes) (key : BatchStateLookupKey)
    (entry : CachedBatchState) : bool :=
  negb (invalidated_ entry)
  && (geometryHashOf hashes (geometry_ key) =? geometryHash_ entry)%N
  && (materialHashOf hashes (material_ key) =? materialHash_ entry)%N
  && (passHashOf hashes (pass_ key) =? passHash_ entry)%N.

(** Modelled from the spec: the member functions of [BatchStateCache] are
    declared in BatchStateCache.h and defined outside the sources at hand.
    [Lookup(key)] (declared as [GetPipelineState]) returns the existing
    state or null and is read-only; an entry counts once its invalidation
    flag is clear and the hashes kept at creation time still hold. *)
Definition GetPipelineState (hashes : ObjectHashes) (key : BatchStateLookupKey)
    (cache_ : gmap BatchStateLookupKey CachedBatchState) : option N :=
  entry ← cache_ !! key;
  if upToDate hashes key entry then pipelineState_ entry else None.

(** Modelled from the spec: [ResolveOrCreate(key, context, callback)]
    (declared as [GetOrCreatePipelineState]) consults the same map and on a
    miss invokes the creation callback and stores the result, which may
    itself be invalid, with the hashes of geometry, material and pass at
    creation time. *)
Definition GetOrCreatePipelineState (hashes : ObjectHashes) (key : BatchStateCreateKey)
    (ctx : BatchStateCreateContext) (callback : BatchStateCacheCallback)
    (cache_ : gmap BatchStateLookupKey CachedBatchState)
    : option N * gmap BatchStateLookupKey CachedBatchState :=
  let lookupKey := lookupKey_ key in
  match GetPipelineState hashes lookupKey cache_ with
  | Some pipelineState => (Some pipelineState, cache_)
  | None =>
      let pipelineState := callback key ctx in
      (pipelineState,
       <[lookupKey := {| geometryHash_ := geometryHashOf hashes (geometry_ lookupKey);
                         materialHash_ := materialHashOf hashes (material_ lookupKey);
                         passHash_ := passHashOf hashes (pass_ lookupKey);
                         pipelineState_ := pipelineState;
                         invalidated_ := false |}]> cache_)
  end.

(** Modelled from the spec: [Invalidate()] marks every entry as
    invalidated, so that it is recreated on its next resolution. *)
Definition Invalidate (cache_ : gmap BatchStateLookupKey CachedBatchState)
    : gmap BatchStateLookupKey CachedBatchState :=
  (λ entry, {| geometryHash_ := geometryHash_ entry; materialHash_ := materialHash_ entry;
               passHash_ := passHash_ entry; pipelineState_ := pipelineState_ entry;
               invalidated_ := true |}) <$> cache_.

End BatchStateCache.

(** ** LightProcessor.cpp: light fade *)

Module LightFade.

(** [ea::min(a, b)] *)
Definition ea_min (a b : float) : float := if flt b a then b else a.

(** [GetLightFade(light)].  The fade start, [light->GetFadeDistance()], is
    passed beside the light; the fade end is its draw distance. *)
Definition GetLightFade (fadeDistance : float) (light : Light) : float :=
  let fadeStart := fadeDistance in
  let fadeEnd := light_drawDistance_ light in
  if negb (bool_decide (lightType_ light = LIGHT_DIRECTIONAL))
     && fgt fadeEnd 0 && fgt fadeStart 0 && flt fadeStart fadeEnd
  then ea_min (1 - (light_distance_ light - fadeStart) / (fadeEnd - fadeStart))%Q 1
  else 1.

End LightFade.

(** ** DrawableProcessor.cpp: light processors by shadow map size *)

Module LightProcessorOrder.
Section Defs.
Context `{SceneExternals}.
Import LightProcessor DrawableProcessor.

(** [IntVector2::Length()] of Math/Vector2.h (not among the sources at
    hand) is the Euclidean length of the vector; two lengths compare as
    their squares do. *)
Definition IntVector2_LengthSquared (v : IntVector2) : Z := (v.1 * v.1 + v.2 * v.2)%Z.

(** The comparison [compareShadowMapSize] handed to [ea::sort]. *)
Definition compareShadowMapSize (lhs rhs : LightProcessor) : bool :=
  let lhsSize := GetShadowMapSize lhs in
  let rhsSize := GetShadowMapSize rhs in
  if negb (bool_decide (lhsSize = rhsSize))
  then (IntVector2_LengthSquared rhsSize <? IntVector2_LengthSquared lhsSize)%Z
  else (light_ID (light_ lhs) <? light_ID (light_ rhs))%N.

(** [SortLightProcessorsByShadowMap], on the light processors that
    [lightProcessors_] points to. *)
Definition SortLightProcessorsByShadowMap (lightProcessors : list LightProcessor)
    : list LightProcessor :=
  let lightProcessorsByShadowMapSize := lightProcessors in
  ea_sort compareShadowMapSize lightProcessorsByShadowMapSize.

End Defs.
End LightProcessorOrder.

(** ** DrawableProcessor.cpp: shadow casters

    The frustum and bounding box tests behind the choice of shadow casters
    are used through the operations collected here. *)

Class ShadowCasterExternals `{SceneExternals} := {
  (** [frustum.Transformed(shadowCamera->GetView())] *)
  Frustum_ToLightSpace : Camera → Frustum → Frustum;
  (** [lightSpaceFrustum.vertices_[0] == lightSpaceFrustum.vertices_[4]] *)
  Frustum_IsDegenerate : Frustum → bool;
  (** [BoundingBox(lightSpaceFrustum)] *)
  BoundingBox_OfFrustum : Frustum → BoundingBox;
  (** [shadowCamera->GetFrustum().IsInsideFast(box) == OUTSIDE] *)
  ShadowCamera_IsOutside : Camera → BoundingBox → bool;
  (** [box.Transformed(shadowCamera->GetView())] *)
  BoundingBox_ToLightSpace : Camera → BoundingBox → BoundingBox;
  (** the extruded box tests for an orthogonal and for a perspective light
      source *)
  IsBoundingBoxShadowInOrthoFrustum : BoundingBox → Frustum → BoundingBox → bool;
  IsBoundingBoxShadowInPerspectiveFrustum : BoundingBox → Frustum → float → bool;
}.

Module ShadowCasters.
Section Defs.
Context `{ShadowCasterExternals}.
Import LightProcessor DrawableProcessor.

(** The drawable processor together with [queuedDrawableUpdates_], one
    vector per thread. *)
Definition QueueState : Type := DrawableProcessor * list (list Drawable).

Definition IsShadowCasterVisible (lightSpaceBoundingBox : BoundingBox) (shadowCamera : Camera)
    (lightSpaceFrustum : Frustum) (lightSpaceFrustumBoundingBox : BoundingBox) : bool :=
  if orthographic_ shadowCamera then
    IsBoundingBoxShadowInOrthoFrustum lightSpaceBoundingBox lightSpaceFrustum
      lightSpaceFrustumBoundingBox
  else
    IsBoundingBoxShadowInPerspectiveFrustum lightSpaceBoundingBox lightSpaceFrustum
      (farClip_ shadowCamera).

(** [QueueDrawableUpdate(drawable)] on the thread [threadIndex]:
    [test_and_set] on the update mark, and [Insert] into the queue of the
    calling thread when the mark was clear. *)
Definition QueueDrawableUpdate (threadIndex : nat) (drawable : Drawable) (state : QueueState)
    : option QueueState :=
  let '(dp, queuedDrawableUpdates) := state in
  let drawableIndex := drawableIndex_ drawable in
  isUpdated ← isDrawableUpdated_ dp !! drawableIndex;
  let dp' := set_isDrawableUpdated_ (<[drawableIndex := true]> (isDrawableUpdated_ dp)) dp in
  if negb isUpdated then
    queue ← PushBack threadIndex drawable queuedDrawableUpdates;
    Some (dp', queue)
  else Some (dp', queuedDrawableUpdates).

(** The loop over [candidates] of [PreprocessShadowCasters]. *)
Fixpoint CollectCasters (threadIndex : nat) (lightType : LightType) (shadowCamera : Camera)
    (lightSpaceFrustum : Frustum) (lightSpaceFrustumBoundingBox : BoundingBox)
    (candidates : list Drawable) (shadowCasters : list Drawable) (state : QueueState)
    : option (list Drawable * QueueState) :=
  match candidates with
  | [] => Some (shadowCasters, state)
  | drawable :: rest =>
      (* For point light, check that this drawable is inside the split shadow camera frustum *)
      if bool_decide (lightType = LIGHT_POINT)
         && ShadowCamera_IsOutside shadowCamera (worldBoundingBox_ drawable)
      then CollectCasters threadIndex lightType shadowCamera lightSpaceFrustum
             lightSpaceFrustumBoundingBox rest shadowCasters state
      else
        (* Queue shadow caster if it's visible *)
        let lightSpaceBoundingBox :=
          BoundingBox_ToLightSpace shadowCamera (worldBoundingBox_ drawable) in
        flags ← geometryFlags_ state.1 !! drawableIndex_ drawable;
        let isDrawableVisible := testFlag flags GeometryRenderFlag_Visible in
        if isDrawableVisible
           || IsShadowCasterVisible lightSpaceBoundingBox shadowCamera lightSpaceFrustum
                lightSpaceFrustumBoundingBox
        then
          state' ← QueueDrawableUpdate threadIndex drawable state;
          CollectCasters threadIndex lightType shadowCamera lightSpaceFrustum
            lightSpaceFrustumBoundingBox rest (shadowCasters ++ [drawable]) state'
        else CollectCasters threadIndex lightType shadowCamera lightSpaceFrustum
               lightSpaceFrustumBoundingBox rest shadowCasters state
  end.

(** [PreprocessShadowCasters(shadowCasters, candidates, frustumSubRange,
    light, shadowCamera)], called on the thread [threadIndex]; the result
    is the new content of [shadowCasters]. *)
Definition PreprocessShadowCasters (threadIndex : nat) (candidates : list Drawable)
    (frustumSubRange : FloatRange) (light : Light) (shadowCamera : Camera) (state : QueueState)
    : option (list Drawable * QueueState) :=
  let lightType := lightType_ light in
  (* Convert frustum (or sub-frustum) to shadow camera space *)
  let splitZRange :=
    if negb (bool_decide (lightType = LIGHT_DIRECTIONAL)) then sceneZRange_ state.1
    else FloatRange_and (sceneZRange_ state.1) frustumSubRange in
  let frustum := GetSplitFrustum (first splitZRange) (second splitZRange) in
  let lightSpaceFrustum := Frustum_ToLightSpace shadowCamera frustum in
  let lightSpaceFrustumBoundingBox := BoundingBox_OfFrustum lightSpaceFrustum in
  (* Check for degenerate split frustum *)
  if Frustum_IsDegenerate lightSpaceFrustum then Some ([], state)
  else
    CollectCasters threadIndex lightType shadowCamera lightSpaceFrustum
      lightSpaceFrustumBoundingBox candidates [] state.

Definition set_shadowCasters (casters : list Drawable) (s : SceneLightShadowSplit)
    : SceneLightShadowSplit :=
  {| shadowCamera_ := shadowCamera_ s; zRange_ := zRange_ s;
     split_shadowMap_ := split_shadowMap_ s; shadowCasters_ := casters;
     shadowCasterBatches_ := shadowCasterBatches_ s |}.

(** [LightProcessor::ProcessShadowCasters(ctx, drawables, splitIndex)] *)
Definition LightProcessor_ProcessShadowCasters (threadIndex : nat) (drawables : list Drawable)
    (splitIndex : nat) (lp : LightProcessor) (state : QueueState)
    : option (LightProcessor * QueueState) :=
  split ← splits_ lp !! splitIndex;
  shadowCamera ← shadowCamera_ split;
  result ← PreprocessShadowCasters threadIndex drawables (zRange_ split) (light_ lp)
              shadowCamera state;
  Some (set_splits (numSplits_ lp)
          (<[splitIndex := set_shadowCasters result.1 split]> (splits_ lp)) lp,
        result.2).

(** [ProcessQueuedDrawable(drawable)] on the thread [threadIndex]; the
    batches, the view mark and the cached zone it refreshes belong to the
    drawable. *)
Definition ProcessQueuedDrawable (threadIndex : nat) (drawable : Drawable)
    (dp : DrawableProcessor) : option DrawableProcessor :=
  QueueDrawableGeometryUpdate threadIndex drawable dp.

(** [ForEachParallel(workQueue_, queuedDrawableUpdates_, ...)]: a run is
    described by the thread that took each queued drawable. *)
Fixpoint ForEachQueued (schedule : list (nat * Drawable)) (dp : DrawableProcessor)
    : option DrawableProcessor :=
  match schedule with
  | [] => Some dp
  | (threadIndex, drawable) :: rest =>
      dp' ← ProcessQueuedDrawable threadIndex drawable dp;
      ForEachQueued rest dp'
  end.

(** [DrawableProcessor::ProcessShadowCasters()]; the schedule hands out
    the drawables of the queue. *)
Definition ProcessShadowCasters (numThreads : nat) (schedule : list (nat * Drawable))
    (state : QueueState) : option QueueState :=
  dp' ← ForEachQueued schedule state.1;
  Some (dp', replicate numThreads []).

End Defs.
End ShadowCasters.

(** ** ScenePass.cpp: shader defines *)

Module ShaderDefines.

(** [ea::string_view::back()]: the last character; [None] on the empty
    string, where the source does not call it. *)
Fixpoint back (s : string) : option Ascii.ascii :=
  match s with
  | EmptyString => None
  | String c EmptyString => Some c
  | String _ rest => back rest
  end.

(** [define.empty()] *)
Definition empty (s : string) : bool :=
  match s with
  | EmptyString => true
  | String _ _ => false
  end.

Definition NormalizeShaderDefine (define : string) : string :=
  if negb (empty define) && negb (bool_decide (back define = Some Ascii.Space))
  then String.append define " "
  else define.

End ShaderDefines.

(** ** LightProcessor.cpp: octree queries for lit geometries and shadow casters

    The view mask and the shadow mask of a drawable and the test of a
    bounding box against the query volume (the light's sphere or frustum,
    the frustum of the shadow camera) are used through the operations
    collected here. *)

Class OctreeExternals `{Externals} := {
  (** the light sphere of a point light, the frustum of a spot light or of
      a shadow camera *)
  QueryVolume : Type;
  (** [volume.IsInsideFast(box)], as the condition reads it: not [OUTSIDE] *)
  QueryVolume_IsInsideFast : QueryVolume → BoundingBox → bool;
  (** [drawable->GetViewMask()] *)
  GetViewMask : Drawable → N;
  (** [drawable->GetShadowMask()] *)
  GetShadowMask : Drawable → N;
}.

Module OctreeQueries.
Section Defs.
Context `{OctreeExternals}.

(** [flags & mask], read as a condition *)
Definition overlaps (flags mask : N) : bool := negb (N.land flags mask =? 0)%N.

(** The members that [PointLightLitGeometriesQuery] and
    [SpotLightLitGeometriesQuery] share; [hasShadowCasters_] tells whether
    the pointer [shadowCasters_] is set. *)
Record LitGeometriesQuery := {
  volume_ : QueryVolume;
  query_drawableFlags_ : N;
  query_viewMask_ : N;
  query_lightMask_ : N;
  (** [geometryFlags_] of the drawable processor, read through
      [GetGeometryRenderFlags] *)
  query_geometryFlags_ : list N;
}.

(** [IsLitOrShadowCaster(drawable, inside)]; [hasShadowCasters] is the
    pointer [shadowCasters_] read as a condition. *)
Definition IsLitOrShadowCaster (query : LitGeometriesQuery) (hasShadowCasters : bool)
    (drawable : Drawable) (inside : bool) : option (bool * bool) :=
  let drawableIndex := drawableIndex_ drawable in
  geometryFlags ← query_geometryFlags_ query !! drawableIndex;
  let isInside :=
    overlaps (drawableFlags_ drawable) (query_drawableFlags_ query)
    && overlaps (GetViewMask drawable) (query_viewMask_ query)
    && (inside || QueryVolume_IsInsideFast (volume_ query) (worldBoundingBox_ drawable)) in
  let isLit :=
    isInside
    && overlaps geometryFlags DrawableProcessor.GeometryRenderFlag_Visible
    && overlaps (lightMaskInZone_ drawable) (query_lightMask_ query) in
  let isShadowCaster :=
    hasShadowCasters && isInside
    && castShadows_ drawable
    && overlaps (GetShadowMask drawable) (query_lightMask_ query) in
  Some (isLit, isShadowCaster).

(** [TestDrawables(start, end, inside)] of the point and spot light
    queries; [shadowCasters] is [None] for a null pointer, and writing
    through it then has no defined result. *)
Fixpoint TestDrawables (query : LitGeometriesQuery) (drawables : list Drawable) (inside : bool)
    (result : list Drawable) (shadowCasters : option (list Drawable))
    : option (list Drawable * option (list Drawable)) :=
  match drawables with
  | [] => Some (result, shadowCasters)
  | drawable :: rest =>
      '(isLit, isShadowCaster) ←
        IsLitOrShadowCaster query (bool_decide (is_Some shadowCasters)) drawable inside;
      let result' := if isLit : bool then result ++ [drawable] else result in
      shadowCasters' ←
        (if isShadowCaster : bool then
           casters ← shadowCasters; Some (Some (casters ++ [drawable]))
         else Some shadowCasters);
      TestDrawables query rest inside result' shadowCasters'
  end.

(** [DirectionalLightShadowCasterOctreeQuery] *)
Record ShadowCasterQuery := {
  caster_volume_ : QueryVolume;
  caster_drawableFlags_ : N;
  caster_viewMask_ : N;
  caster_lightMask_ : N;
}.

Definition IsShadowCaster (query : ShadowCasterQuery) (drawable : Drawable) (inside : bool)
    : bool :=
  castShadows_ drawable
  && overlaps (drawableFlags_ drawable) (caster_drawableFlags_ query)
  && overlaps (GetViewMask drawable) (caster_viewMask_ query)
  && overlaps (GetShadowMask drawable) (caster_lightMask_ query)
  && (inside || QueryVolume_IsInsideFast (caster_volume_ query) (worldBoundingBox_ drawable)).

Fixpoint TestShadowCasters (query : ShadowCasterQuery) (drawables : list Drawable)
    (inside : bool) (result : list Drawable) : list Drawable :=
  match drawables with
  | [] => result
  | drawable :: rest =>
      TestShadowCasters query rest inside
        (if IsShadowCaster query drawable inside then result ++ [drawable] else result)
  end.

End Defs.
End OctreeQueries.

(** ** Single precision arithmetic

    Where a result depends on how [/], [*] and [sqrtf] round, a [float] is
    a binary32 number (24 bits of precision, exponents up to 127) and the
    operations round to nearest, ties to even. *)

Module Single.

Definition prec : Z := 24.
Definition emax : Z := 128.

Definition float32 : Type := SpecFloat.spec_float.

(** The float nearest to [z * 2 ^ e], and to the integer [z]. *)
Definition ldexp (z e : Z) : float32 := SpecFloat.binary_normalize prec emax z e false.
Definition of_Z (z : Z) : float32 := ldexp z 0.

Definition fmul (a b : float32) : float32 := SpecFloat.SFmul prec emax a b.
Definition fdiv (a b : float32) : float32 := SpecFloat.SFdiv prec emax a b.
Definition sqrtf (a : float32) : float32 := SpecFloat.SFsqrt prec emax a.

(** [ceilf]: a float with a non-negative exponent is an integer already;
    otherwise the ceiling of [m * 2 ^ e] is an integer of at most 24 bits.
    A zero result keeps the sign of the argument. *)
Definition ceilf (a : float32) : float32 :=
  match a with
  | SpecFloat.S754_finite s m e =>
      if (0 <=? e)%Z then a
      else
        let z := if s then Z.neg m else Z.pos m in
        SpecFloat.binary_normalize prec emax (- ((- z) / 2 ^ (- e)))%Z 0 s
  | _ => a
  end.

(** Comparisons are false when an operand is not a number. *)
Definition flt (a b : float32) : bool := SpecFloat.SFltb a b.
Definition fgt (a b : float32) : bool := flt b a.
Definition fle (a b : float32) : bool := SpecFloat.SFleb a b.

Definition isNaN (a : float32) : bool :=
  match a with SpecFloat.S754_nan => true | _ => false end.

(** [Max] of Math/MathDefs.h: [lhs > rhs ? lhs : rhs]. *)
Definition Max (lhs rhs : float32) : float32 := if fgt lhs rhs then lhs else rhs.

(** The same float, bit for bit. *)
Definition eqb (a b : float32) : bool :=
  match a, b with
  | SpecFloat.S754_zero s1, SpecFloat.S754_zero s2 => Bool.eqb s1 s2
  | SpecFloat.S754_infinity s1, SpecFloat.S754_infinity s2 => Bool.eqb s1 s2
  | SpecFloat.S754_nan, SpecFloat.S754_nan => true
  | SpecFloat.S754_finite s1 m1 e1, SpecFloat.S754_finite s2 m2 e2 =>
      Bool.eqb s1 s2 && (m1 =? m2)%positive && (e1 =? e2)%Z
  | _, _ => false
  end.

End Single.

(** ** LightProcessor.cpp: quantization of the view size, in single precision *)

Module Quantization.
Import Single.

Record FocusParameters := {
  focus_ : bool;
  nonUniform_ : bool;
  quantize_ : float32;
  minView_ : float32;
}.

(** One component: [ceilf(sqrtf(v / quantize))], squared, times [quantize],
    raised to [minView]. *)
Definition QuantizeComponent (parameters : FocusParameters) (v : float32) : float32 :=
  let n := ceilf (sqrtf (fdiv v (quantize_ parameters))) in
  Max (fmul (fmul n n) (quantize_ parameters)) (minView_ parameters).

(** The view size computed in the middle of [QuantizeDirLightShadowCamera]. *)
Definition QuantizeViewSize (parameters : FocusParameters) (viewSize : float32 * float32)
  : float32 * float32 :=
  if nonUniform_ parameters then
    (QuantizeComponent parameters viewSize.1, QuantizeComponent parameters viewSize.2)
  else if focus_ parameters then
    let x := QuantizeComponent parameters (Max viewSize.1 viewSize.2) in
    (x, x)
  else viewSize.

End Quantization.

(** ** A one-dimensional instance of the interface

    Scenes on a line: a frustum and a bounding box are intervals, a
    polyhedron is an interval or empty, clipping is intersection.  It is
    used to run the definitions on concrete scenes. *)

Module Line.

Definition Interval : Type := float * float.

Definition clip (p : option Interval) (b : option Interval) : option Interval :=
  match p, b with
  | Some (lo, hi), Some (blo, bhi) =>
      let lo' := Max lo blo in
      let hi' := Min hi bhi in
      if fle lo' hi' then Some (lo', hi') else None
  | _, _ => None
  end.

Definition merge (a b : option Interval) : option Interval :=
  match a, b with
  | Some (alo, ahi), Some (blo, bhi) => Some (Min alo blo, Max ahi bhi)
  | None, b => b
  | a, None => a
  end.

Definition fit (p : option Interval) : float * float * float * float * float :=
  match p with
  | Some (lo, hi) => (lo, lo, hi, hi, hi)
  | None => (0, 0, 0, 0, 0)%Q
  end.

Definition externals : Externals := {|
  Frustum := Interval;
  Polyhedron := option Interval;
  BoundingBox := option Interval;
  Polyhedron_Define := Some;
  Polyhedron_Clip := clip;
  Polyhedron_Empty := λ p, match p with None => true | Some _ => false end;
  BoundingBox_new := None;
  BoundingBox_Merge := merge;
  BoundingBox_Defined := λ b, match b with None => false | Some _ => true end;
  FloatRange_Interset := λ a b, fle (first a) (second b) && fle (first b) (second a);
  FloatRange_and := λ a b, MkRange (Max (first a) (first b)) (Min (second a) (second b));
  GetSplitFrustum := λ nearClip farClip, (nearClip, farClip);
  FitShadowBox := λ _ p, fit p;
  ShadowMap_GetSplit := λ m _ _, m;
|}.

Definition depthRange (box : option Interval) : FloatRange :=
  match box with Some (lo, hi) => MkRange lo hi | None => MkRange 1 0 end.

(** Techniques are numbered, every material has technique 0 and every
    technique has every pass; a light accumulator is the list of
    (light index, penalty) pairs it has received; depth is position. *)
Definition sceneExternals : @SceneExternals externals := {|
  Technique := N;
  LightAccumulator := list (nat * float);
  FindTechnique := λ _ _ _, Some 0%N;
  Technique_GetPass := λ _ passIndex, Some passIndex;
  Technique_GetSupportedPass := λ _ passIndex, Some passIndex;
  LightAccumulator_new := [];
  LightAccumulator_ResetLights := λ _, [];
  LightAccumulator_ResetAmbient := λ _ _ acc, acc;
  LightAccumulator_AccumulateLight := λ lightIndex _ _ _ penalty acc, acc ++ [(lightIndex, penalty)];
  CalculateBoundingBoxZRange := (depthRange : @BoundingBox externals → FloatRange);
  FloatRange_IsValid := λ r, fle (first r) (second r);
  FloatRange_or := λ a b, MkRange (Min (first a) (first b)) (Max (second a) (second b));
  FloatRange_new := MkRange 1 0;
  GetDistanceTo := λ _ _, 1%Q;
|}.

End Line.

(** The same line for the shadow caster tests and the octree queries: the
    light space is the line itself, a frustum is degenerate when its ends
    coincide, and a box is inside a volume when the two intervals meet. *)
Module LineShadows.

Definition meets (box : option Line.Interval) (volume : Line.Interval) : bool :=
  match box with
  | Some (lo, hi) => fle lo volume.2 && fle volume.1 hi
  | None => false
  end.

Definition isDegenerate (frustum : Line.Interval) : bool := Qeq_bool frustum.1 frustum.2.

Definition isOutside (camera : Camera) (box : option Line.Interval) : bool :=
  negb (meets box (nearClip_ camera, farClip_ camera)).

Definition shadowCasterExternals : @ShadowCasterExternals Line.externals Line.sceneExternals := {|
  Frustum_ToLightSpace := λ _ frustum, frustum;
  Frustum_IsDegenerate := (isDegenerate : @Frustum Line.externals → bool);
  BoundingBox_OfFrustum :=
    (Some : @Frustum Line.externals → @BoundingBox Line.externals);
  ShadowCamera_IsOutside := (isOutside : Camera → @BoundingBox Line.externals → bool);
  BoundingBox_ToLightSpace := λ _ box, box;
  IsBoundingBoxShadowInOrthoFrustum :=
    ((λ box frustum _, meets box frustum)
     : @BoundingBox Line.externals → @Frustum Line.externals
       → @BoundingBox Line.externals → bool);
  IsBoundingBoxShadowInPerspectiveFrustum :=
    ((λ box frustum _, meets box frustum)
     : @BoundingBox Line.externals → @Frustum Line.externals → float → bool);
|}.

Definition octreeExternals : @OctreeExternals Line.externals := {|
  QueryVolume := Line.Interval;
  QueryVolume_IsInsideFast :=
    ((λ volume box, meets box volume)
     : Line.Interval → @BoundingBox Line.externals → bool);
  GetViewMask := λ _, 255%N;
  GetShadowMask := λ drawable, shadowMaskInZone_ drawable;
|}.

End LineShadows.

(** * Specification-side notions *)

Module Spec.
Section Defs.
Context `{Externals}.
Import LightProcessor.

(** The far bound of cascade entry [i], clamped to the camera far clip. *)
Definition cascadeFarBound (ctx : SceneLightProcessContext) (light : Light) (i : nat)
    : option float :=
  Min (cull_farClip_ ctx) <$> cascadeSplits_ light !! i.

(** The near bound of cascade entry [i]: the camera near clip for the first
    entry, the far bound of the entry before it otherwise. *)
Definition cascadeNearBound (ctx : SceneLightProcessContext) (light : Light) (i : nat)
    : option float :=
  match i with
  | O => Some (cull_nearClip_ ctx)
  | S j => cascadeFarBound ctx light j
  end.

(** Entry [i] has a near bound that does not exceed the far clip and a
    clamped far bound that exceeds the near bound. *)
Definition cascadeEntryActive (ctx : SceneLightProcessContext) (light : Light) (i : nat)
    : bool :=
  match cascadeNearBound ctx light i, cascadeFarBound ctx light i with
  | Some nearSplit, Some farSplit => fle nearSplit (cull_farClip_ ctx) && flt nearSplit farSplit
  | _, _ => false
  end.

(** The number of entries, among the requested ones, that are active. *)
Definition numActiveCascadeEntries (ctx : SceneLightProcessContext) (light : Light) : nat :=
  length (filter (λ i, cascadeEntryActive ctx light i = true) (seq 0 (numShadowSplits_ light))).

(** The same count when the near bound of an entry is the far bound of the
    last active entry before it (the near clip when there is none). *)
Fixpoint countActiveFrom (farClip : float) (nearSplit : float) (table : list float) : nat :=
  match table with
  | [] => O
  | cascadeSplit :: rest =>
      let farSplit := Min farClip cascadeSplit in
      if fle nearSplit farClip && flt nearSplit farSplit
      then S (countActiveFrom farClip farSplit rest)
      else countActiveFrom farClip nearSplit rest
  end.

Definition numActiveCascadeEntriesRunning (ctx : SceneLightProcessContext) (light : Light) : nat :=
  countActiveFrom (cull_farClip_ ctx) (cull_nearClip_ ctx)
    (take (numShadowSplits_ light) (cascadeSplits_ light)).

(** The most splits a light of the given type may hold. *)
Definition maxSplitsOfType (t : LightType) : nat :=
  match t with
  | LIGHT_DIRECTIONAL => MAX_CASCADE_SPLITS
  | LIGHT_SPOT => 1
  | LIGHT_POINT => MAX_CUBEMAP_FACES
  end.

End Defs.

Section SceneDefs.
Context `{SceneExternals}.
Import DrawableProcessor.

(** A drawable that [ProcessVisibleDrawable] takes as a visible light: it
    is within its draw distance, it is a light and not a geometry, its
    effective color is not black and its effective light mask is not zero. *)
Definition isVisibleLight (drawable : Drawable) : bool :=
  negb (fgt (drawDistance_ drawable) 0 && fgt (distance_ drawable) (drawDistance_ drawable))
  && negb (testFlag (drawableFlags_ drawable) DRAWABLE_GEOMETRY)
  && testFlag (drawableFlags_ drawable) DRAWABLE_LIGHT
  && negb (effectiveColorIsBlack_ (asLight_ drawable))
  && negb (lightMaskEffective_ (asLight_ drawable) =? 0)%N.

(** The visible lights among the drawables handed to
    [ProcessVisibleDrawables]. *)
Definition visibleLightsOf (drawables : list Drawable) : list Light :=
  asLight_ <$> filter (λ drawable, isVisibleLight drawable = true) drawables.

(** Ascending order of component ID. *)
Definition ascendingID (lhs rhs : Light) : Prop := (light_ID lhs ≤ light_ID rhs)%N.

(** A pass has one vector of batches per thread. *)
Definition passSized (numThreads : nat) (pass : DrawableProcessorPass) : Prop :=
  length (geometryBatches_ pass) = numThreads.

(** The per-frame containers have one slot per drawable, respectively one
    vector per thread, as [OnUpdateBegin] sizes them. *)
Definition FrameSized (numThreads numDrawables : nat) (dp : DrawableProcessor) : Prop :=
  length (isDrawableUpdated_ dp) = numDrawables ∧
  length (geometryFlags_ dp) = numDrawables ∧
  length (geometryZRanges_ dp) = numDrawables ∧
  length (geometryLighting_ dp) = numDrawables ∧
  length (sceneZRangeTemp_ dp) = numThreads ∧
  length (visibleGeometries_ dp) = numThreads ∧
  length (threadedGeometryUpdates_ dp) = numThreads ∧
  length (nonThreadedGeometryUpdates_ dp) = numThreads ∧
  length (visibleLightsTemp_ dp) = numThreads ∧
  Forall (passSized numThreads) (passes_ dp).

(** Every call of a run is made on an existing thread for a drawable with
    a slot. *)
Definition ScheduleInRange (numThreads numDrawables : nat) (schedule : list (nat * Drawable))
    : Prop :=
  Forall (λ call, (call.1 < numThreads)%nat ∧ (drawableIndex_ call.2 < numDrawables)%nat)
    schedule.

End SceneDefs.
End Spec.

(** * Further specification-side notions *)

Module Notions.
Section Defs.
Context `{SceneExternals}.
Import DrawableProcessor.

(** A drawable that [ProcessVisibleDrawable] takes as a visible geometry:
    it is within its draw distance and it is a geometry. *)
Definition isVisibleGeometry (drawable : Drawable) : bool :=
  negb (fgt (drawDistance_ drawable) 0 && fgt (distance_ drawable) (drawDistance_ drawable))
  && testFlag (drawableFlags_ drawable) DRAWABLE_GEOMETRY.

(** The visible geometries among the drawables handed to
    [ProcessVisibleDrawables]. *)
Definition visibleGeometriesOf (drawables : list Drawable) : list Drawable :=
  filter (λ drawable, isVisibleGeometry drawable = true) drawables.

(** The geometry has to be updated from the main thread. *)
Definition updatesInMainThread (drawable : Drawable) : bool :=
  match updateGeometryType_ drawable with
  | UPDATE_MAIN_THREAD => true
  | _ => false
  end.

(** The values a geometry render flag takes once the geometry is visible:
    visible; visible and lit; visible, lit and forward lit. *)
Definition visibleFlags : list N :=
  [GeometryRenderFlag_Visible;
   N.lor GeometryRenderFlag_Visible GeometryRenderFlag_Lit;
   N.lor (N.lor GeometryRenderFlag_Visible GeometryRenderFlag_Lit) GeometryRenderFlag_ForwardLit].

(** The shadow map sizes that [FinalizeShadowMap] assigns: a split size of
    256 or 512 times one of the grids of [GetSplitsGridSize], beside the
    zero size a light processor starts with. *)
Definition shadowMapSizes : list IntVector2 :=
  IntVector2_ZERO
  :: (splitSize ← [256; 512]%Z;
      grid ← [(1, 1); (2, 1); (2, 2); (3, 2)]%Z;
      [IntVector2_scale splitSize grid]).

(** The order that [SortLightProcessorsByShadowMap] aims at: larger shadow
    maps first, and ascending component ID of the light among shadow maps
    of the same length. *)
Definition largerShadowMapFirst (lhs rhs : LightProcessor.LightProcessor) : Prop :=
  let lhsLength := LightProcessorOrder.IntVector2_LengthSquared
                     (LightProcessor.GetShadowMapSize lhs) in
  let rhsLength := LightProcessorOrder.IntVector2_LengthSquared
                     (LightProcessor.GetShadowMapSize rhs) in
  (rhsLength < lhsLength)%Z ∨
  (lhsLength = rhsLength ∧
   (light_ID (LightProcessor.light_ lhs) ≤ light_ID (LightProcessor.light_ rhs))%N).

(** The geometries that wait for an update of their geometry: those in the
    two geometry update queues and those still in the queue of drawable
    updates. *)
Definition queuedForUpdate (state : ShadowCasters.QueueState) : list Drawable :=
  Elements (threadedGeometryUpdates_ state.1)
  ++ Elements (nonThreadedGeometryUpdates_ state.1)
  ++ Elements state.2.

(** No drawable index waits twice, and every waiting drawable is marked as
    updated. *)
Definition UpdatesUnique (state : ShadowCasters.QueueState) : Prop :=
  NoDup (drawableIndex_ <$> queuedForUpdate state) ∧
  Forall (λ d, isDrawableUpdated_ state.1 !! drawableIndex_ d = Some true)
    (queuedForUpdate state).

End Defs.
End Notions.

(** * Notions for the quantization in single precision *)

Module WholeSteps.
Import Single Quantization.

(** Quantization steps that are powers of two, from 1/8 to 8, and the
    largest number of steps considered. *)
Definition stepSizes : list float32 := (ldexp 1) <$> [-3; -2; -1; 0; 1; 2; 3]%Z.
Definition maxSteps : Z := 512.

(** The size of [k] whole steps: [k * k * quantize]. *)
Definition QuantizeStep (parameters : FocusParameters) (k : Z) : float32 :=
  fmul (fmul (of_Z k) (of_Z k)) (quantize_ parameters).

(** The size [v] is rounded up to [k] steps, [k] a whole number of at most
    [maxSteps]. *)
Definition roundedTo (parameters : FocusParameters) (v : float32) (k : Z) : Prop :=
  (0 ≤ k ≤ maxSteps)%Z ∧ ceilf (sqrtf (fdiv v (quantize_ parameters))) = of_Z k.

(** The component produced from [v] consists of whole steps: the minimum
    view size did not raise it. *)
Definition wholeSteps (parameters : FocusParameters) (v : float32) : Prop :=
  ∃ k, roundedTo parameters v k ∧
       QuantizeComponent parameters v = QuantizeStep parameters k.

(** The components that [QuantizeViewSize] quantizes. *)
Definition quantizedComponents (parameters : FocusParameters) (viewSize : float32 * float32)
    : list float32 :=
  if nonUniform_ parameters then [viewSize.1; viewSize.2]
  else if focus_ parameters then [Max viewSize.1 viewSize.2]
  else [].

(** [k] whole steps of size [q] are rounded up to [k] steps again. *)
Definition stepFixed (q : float32) (k : Z) : bool :=
  eqb (ceilf (sqrtf (fdiv (fmul (fmul (of_Z k) (of_Z k)) q) q))) (of_Z k).

Fixpoint allUpTo (n : nat) (f : Z → bool) : bool :=
  f (Z.of_nat n) && match n with O => true | S n' => allUpTo n' f end.

(** The parameters of the scenes: focusing on both axes, a step of 0.5 and
    a minimum view size of 3; and the same with a step of 0.7. *)
Definition halfStepFocus : FocusParameters :=
  {| focus_ := true; nonUniform_ := true; quantize_ := ldexp 1 (-1); minView_ := of_Z 3 |}.

Definition oddStepFocus : FocusParameters :=
  {| focus_ := true; nonUniform_ := true; quantize_ := fdiv (of_Z 7) (of_Z 10);
     minView_ := of_Z 3 |}.

End WholeSteps.

(** * Concrete scenes *)

Module Scenes.
Import LightProcessor ScenePass DrawableProcessor.
#[local] Existing Instance Line.externals.
#[local] Existing Instance Line.sceneExternals.

Definition defaultFocus : FocusParameters :=
  {| focus_ := true; nonUniform_ := true; quantize_ := 1 # 2; minView_ := 3 |}.

Definition noFocus : FocusParameters :=
  {| focus_ := false; nonUniform_ := false; quantize_ := 1 # 2; minView_ := 3 |}.

Definition mkLight (t : LightType) (table : list float) (numSplits : nat)
    (focus : FocusParameters) : Light :=
  {| light_ID := 1; lightType_ := t; lightImportance_ := LI_AUTO; intensityDivisor_ := 1;
     lightMask_ := 255; lightMaskEffective_ := 255;
     effectiveColorIsBlack_ := false; cascadeSplits_ := table;
     numShadowSplits_ := numSplits; shadowFocus_ := focus;
     light_range_ := 10; light_fov_ := 30; light_aspectRatio_ := 1;
     shadowNearFarRatio_ := 1 # 500; light_drawDistance_ := 0; light_distance_ := 0;
     light_pipelineStateHash_ := 0 |}.

Definition emptySplit : SceneLightShadowSplit :=
  {| shadowCamera_ := None; zRange_ := MkRange 0 0; split_shadowMap_ := ShadowMap_new;
     shadowCasters_ := []; shadowCasterBatches_ := [] |}.

Definition mkProcessor (light : Light) : LightProcessor :=
  {| light_ := light; hasShadow_ := true; numSplits_ := 0;
     splits_ := replicate MAX_SPLITS emptySplit;
     litGeometries_ := []; tempShadowCasters_ := [];
     shadowMap_ := ShadowMap_new; shadowMapSplitSize_ := 0; shadowMapSize_ := IntVector2_ZERO |}.

Definition mkContext (nearClip farClip : float) : SceneLightProcessContext :=
  {| cull_nearClip_ := nearClip; cull_farClip_ := farClip;
     dp_sceneZRange_ := MkRange nearClip farClip; dp_geometryZRanges_ := [] |}.

(** A directional light with cascades at 10, 100, 400 and 1000, all four
    requested, seen by a camera with clip planes 1 and 1000. *)
Definition fourCascades : LightProcessor :=
  mkProcessor (mkLight LIGHT_DIRECTIONAL [10; 100; 400; 1000]%Q 4 noFocus).

(** A directional light with cascades at 0.5, 10, 20 and 40, all four
    requested, seen by a camera with clip planes 1 and 100: the first
    cascade ends in front of the near plane. *)
Definition cascadeBeforeNearClip : LightProcessor :=
  mkProcessor (mkLight LIGHT_DIRECTIONAL [1 # 2; 10; 20; 40]%Q 4 noFocus).

Definition mkDrawable (index : nat) (flags : N) (box : option Line.Interval) : Drawable :=
  {| drawableIndex_ := index; drawable_ID := N.of_nat index + 100; drawableFlags_ := flags;
     drawDistance_ := 0; shadowDistance_ := 0; distance_ := 5;
     castShadows_ := true; lightMaskInZone_ := 255; shadowMaskInZone_ := 255;
     worldBoundingBox_ := box; batches_ := [];
     updateGeometryType_ := UPDATE_NONE; globalIlluminationType_ := GI_None;
     asLight_ := mkLight LIGHT_POINT [] 1 noFocus |}.

(** A lit geometry whose view-space depth range [2, 5] lies inside the
    first cascade while its bounding box [200, 300] misses the split
    frustum [1, 10]. *)
Definition farBoxContext : SceneLightProcessContext :=
  {| cull_nearClip_ := 1; cull_farClip_ := 1000;
     dp_sceneZRange_ := MkRange 1 1000; dp_geometryZRanges_ := [MkRange 2 5] |}.

Definition farBoxGeometries : list Drawable :=
  [mkDrawable 0 DRAWABLE_GEOMETRY (Some (200, 300)%Q)].

(** A point light after [SetupShadowCameras]: six active splits, none of
    which received a shadow caster. *)
Definition pointLightNoCasters : LightProcessor :=
  set_numSplits 6 (mkProcessor (mkLight LIGHT_POINT [10; 100; 400; 1000]%Q 4 noFocus)).


(** A directional light with the default focus parameters and one cascade
    ending at 2, seen by a camera with clip planes 1 and 1000: the split
    [1, 2] is one unit wide. *)
Definition narrowCascade : LightProcessor :=
  mkProcessor (mkLight LIGHT_DIRECTIONAL [2; 100; 400; 1000]%Q 1
                 {| focus_ := false; nonUniform_ := true; quantize_ := 1 # 2; minView_ := 3 |}).

Definition allocatedShadowMap : ShadowMap :=
  {| texture_ := Some 7%N; region_ := MkRect 0 0 512 512 |}.

(** A shadow caster whose shadow mask (bit 1) shares no bit with the light
    mask (bit 0) of the light that lists it in its first split. *)
Definition maskedCaster : Drawable :=
  {| drawableIndex_ := 0; drawable_ID := 100; drawableFlags_ := DRAWABLE_GEOMETRY;
     drawDistance_ := 0; shadowDistance_ := 0; distance_ := 5;
     castShadows_ := true; lightMaskInZone_ := 2; shadowMaskInZone_ := 2;
     worldBoundingBox_ := Some (0, 1)%Q;
     batches_ := [{| sb_geometry_ := 11; sb_material_ := Some 12%N;
                     sb_geometryType_ := GEOM_STATIC |}];
     updateGeometryType_ := UPDATE_NONE; globalIlluminationType_ := GI_None;
     asLight_ := mkLight LIGHT_POINT [] 1 noFocus |}.

Definition bitZeroLight : Light :=
  {| light_ID := 1; lightType_ := LIGHT_SPOT; lightImportance_ := LI_AUTO;
     intensityDivisor_ := 1; lightMask_ := 1; lightMaskEffective_ := 1;
     effectiveColorIsBlack_ := false; cascadeSplits_ := [10; 100; 400; 1000]%Q;
     numShadowSplits_ := 1; shadowFocus_ := noFocus;
     light_range_ := 10; light_fov_ := 30; light_aspectRatio_ := 1;
     shadowNearFarRatio_ := 1 # 500; light_drawDistance_ := 0; light_distance_ := 0;
     light_pipelineStateHash_ := 0 |}.

Definition maskedCasterLight : LightProcessor :=
  {| light_ := bitZeroLight; hasShadow_ := true; numSplits_ := 1;
     splits_ :=
       {| shadowCamera_ := None; zRange_ := MkRange 0 0; split_shadowMap_ := ShadowMap_new;
          shadowCasters_ := [maskedCaster]; shadowCasterBatches_ := [] |}
       :: replicate 5 emptySplit;
     litGeometries_ := []; tempShadowCasters_ := [maskedCaster];
     shadowMap_ := ShadowMap_new; shadowMapSplitSize_ := 0; shadowMapSize_ := IntVector2_ZERO |}.

(** A shadow pass with an empty pipeline state cache, run on one thread. *)
Definition shadowPass : ShadowScenePass :=
  {| shadowPassIndex_ := 3; renderer_defaultMaterial_ := 9;
     pipelineStateCache_ := λ _, None; batchesDirty_ := [[]] |}.

(** A drawable processor with one forward-lit pass, at the start of a frame
    with two worker threads and three drawables. *)
Definition forwardPass : DrawableProcessorPass :=
  {| needAmbient_ := true; unlitBasePassIndex_ := 1; litBasePassIndex_ := 2;
     lightPassIndex_ := 3; geometryBatches_ := [[]; []] |}.

Definition idleProcessor : DrawableProcessor :=
  {| numDrawables_ := 0; materialQuality_ := 2; defaultMaterial_ := 9; gi_ := false;
     maxVertexLights_ := 4; maxPixelLights_ := 4;
     isDrawableUpdated_ := []; geometryFlags_ := []; geometryZRanges_ := [];
     geometryLighting_ := []; sceneZRangeTemp_ := []; sceneZRange_ := MkRange 1 0;
     visibleGeometries_ := []; threadedGeometryUpdates_ := [];
     nonThreadedGeometryUpdates_ := []; visibleLightsTemp_ := []; visibleLights_ := [];
     lightProcessors_ := []; lightProcessorCache_ := ∅;
     passes_ := [forwardPass]; log_ := [] |}.

Definition frameStart : DrawableProcessor :=
  OnUpdateBegin
    {| frame_numThreads_ := 2; frame_numDrawables_ := 3; frame_materialQuality_ := 2;
       frame_gi_ := false |}
    idleProcessor.

(** A geometry with draw distance 10 that is 50 away from the camera. *)
Definition farGeometry : Drawable :=
  {| drawableIndex_ := 0; drawable_ID := 100; drawableFlags_ := DRAWABLE_GEOMETRY;
     drawDistance_ := 10; shadowDistance_ := 0; distance_ := 50;
     castShadows_ := true; lightMaskInZone_ := 255; shadowMaskInZone_ := 255;
     worldBoundingBox_ := Some (49, 51)%Q;
     batches_ := [{| sb_geometry_ := 11; sb_material_ := Some 12%N;
                     sb_geometryType_ := GEOM_STATIC |}];
     updateGeometryType_ := UPDATE_NONE; globalIlluminationType_ := GI_None;
     asLight_ := mkLight LIGHT_POINT [] 1 noFocus |}.

(** The same geometry 5 away from the camera. *)
Definition nearGeometry : Drawable :=
  {| drawableIndex_ := 0; drawable_ID := 100; drawableFlags_ := DRAWABLE_GEOMETRY;
     drawDistance_ := 10; shadowDistance_ := 0; distance_ := 5;
     castShadows_ := true; lightMaskInZone_ := 255; shadowMaskInZone_ := 255;
     worldBoundingBox_ := Some (4, 6)%Q;
     batches_ := [{| sb_geometry_ := 11; sb_material_ := Some 12%N;
                     sb_geometryType_ := GEOM_STATIC |}];
     updateGeometryType_ := UPDATE_NONE; globalIlluminationType_ := GI_None;
     asLight_ := mkLight LIGHT_POINT [] 1 noFocus |}.

(** A light drawable with the given drawable index and component ID. *)
Definition lightDrawable (index : nat) (id : N) : Drawable :=
  {| drawableIndex_ := index; drawable_ID := id; drawableFlags_ := DRAWABLE_LIGHT;
     drawDistance_ := 0; shadowDistance_ := 0; distance_ := 5;
     castShadows_ := false; lightMaskInZone_ := 255; shadowMaskInZone_ := 255;
     worldBoundingBox_ := Some (4, 6)%Q; batches_ := [];
     updateGeometryType_ := UPDATE_NONE; globalIlluminationType_ := GI_None;
     asLight_ :=
       {| light_ID := id; lightType_ := LIGHT_POINT; lightImportance_ := LI_AUTO;
          intensityDivisor_ := 1; lightMask_ := 255; lightMaskEffective_ := 255;
          effectiveColorIsBlack_ := false; cascadeSplits_ := [10; 100; 400; 1000]%Q;
          numShadowSplits_ := 1; shadowFocus_ := noFocus;
          light_range_ := 10; light_fov_ := 30; light_aspectRatio_ := 1;
          shadowNearFarRatio_ := 1 # 500; light_drawDistance_ := 0; light_distance_ := 0;
          light_pipelineStateHash_ := 0 |} |}.

(** Two runs over the same three drawables (two lights with component IDs
    7 and 3, one geometry) that hand them to the two worker threads in
    different ways. *)
Definition firstRun : list (nat * Drawable) :=
  [(0%nat, lightDrawable 1 7); (1%nat, lightDrawable 2 3); (0%nat, nearGeometry)].

Definition secondRun : list (nat * Drawable) :=
  [(1%nat, lightDrawable 2 3); (1%nat, nearGeometry); (0%nat, lightDrawable 1 7)].

End Scenes.

(** * Further scenes *)

Module MoreScenes.
Import LightProcessor ScenePass DrawableProcessor LightProcessorOrder ShadowCasters
  OctreeQueries Scenes.
#[local] Existing Instance Line.externals.
#[local] Existing Instance Line.sceneExternals.
#[local] Existing Instance LineShadows.shadowCasterExternals.
#[local] Existing Instance LineShadows.octreeExternals.

(** A split with a perspective camera of zoom 1 and a region of 512 by 512
    texels. *)
Definition allocatedSplit : SceneLightShadowSplit :=
  {| shadowCamera_ := Some Camera_new; zRange_ := MkRange 1 10;
     split_shadowMap_ := allocatedShadowMap;
     shadowCasters_ := [maskedCaster]; shadowCasterBatches_ := [] |}.

(** A spot light with one active split that holds a camera and a shadow
    caster. *)
Definition spotWithCamera : LightProcessor :=
  {| light_ := bitZeroLight; hasShadow_ := true; numSplits_ := 1;
     splits_ := allocatedSplit :: replicate 5 emptySplit;
     litGeometries_ := []; tempShadowCasters_ := [maskedCaster];
     shadowMap_ := ShadowMap_new; shadowMapSplitSize_ := 0; shadowMapSize_ := IntVector2_ZERO |}.

(** A point light with draw distance 20 that is 30 away from the camera. *)
Definition fadingLight : Light :=
  {| light_ID := 5; lightType_ := LIGHT_POINT; lightImportance_ := LI_AUTO;
     intensityDivisor_ := 1; lightMask_ := 255; lightMaskEffective_ := 255;
     effectiveColorIsBlack_ := false; cascadeSplits_ := [10; 100; 400; 1000]%Q;
     numShadowSplits_ := 1; shadowFocus_ := noFocus;
     light_range_ := 10; light_fov_ := 30; light_aspectRatio_ := 1;
     shadowNearFarRatio_ := 1 # 500; light_drawDistance_ := 20; light_distance_ := 30;
     light_pipelineStateHash_ := 0 |}.

(** The drawable processor after the first run. *)
Definition afterFirstRun : DrawableProcessor :=
  default frameStart (ProcessVisibleDrawables firstRun frameStart).

(** A light processor of the light with the given component ID whose
    shadow map has the given size. *)
Definition processorOf (id : N) (size : IntVector2) : LightProcessor :=
  {| light_ := asLight_ (lightDrawable 0 id); hasShadow_ := true; numSplits_ := 1;
     splits_ := replicate MAX_SPLITS emptySplit;
     litGeometries_ := []; tempShadowCasters_ := [];
     shadowMap_ := ShadowMap_new; shadowMapSplitSize_ := 512; shadowMapSize_ := size |}.

(** A shadow camera that looks along the line from 0 to 100. *)
Definition lineCamera : Camera :=
  {| orthographic_ := true; zoom_ := 1; nearClip_ := 0; farClip_ := 100;
     fov_ := 0; aspectRatio_ := 1; orthoSize_ := 10 |}.

(** The start of a frame with a scene depth range from 1 to 100 and an
    empty queue of drawable updates. *)
Definition queueStart : QueueState :=
  (set_visibleLights [] [] ∅ (MkRange 1 100) frameStart, [[]; []]).

(** The state after the near geometry has been taken as a shadow caster. *)
Definition casterQueued : QueueState :=
  (default ([], queueStart)
     (PreprocessShadowCasters 0 [nearGeometry] (MkRange 1 10)
        (mkLight LIGHT_DIRECTIONAL [10; 100; 400; 1000]%Q 4 noFocus) lineCamera
        queueStart)).2.

(** A spot light query without shadow casters over the interval from 0 to
    10, on render flags that show the first drawable as visible. *)
Definition spotQuery : LitGeometriesQuery :=
  {| volume_ := (0, 10)%Q; query_drawableFlags_ := DRAWABLE_GEOMETRY;
     query_viewMask_ := 255; query_lightMask_ := 255;
     query_geometryFlags_ := [1; 0; 0]%N |}.

End MoreScenes.

(** * Scenes for the rest of the frame *)

Module FrameScenes.
Import LightProcessor PipelineStateHash.
#[local] Existing Instance Line.externals.

(** The enumerators of [LightType] in the order of their declaration. *)
Definition lightTypeValue (t : LightType) : N :=
  match t with LIGHT_DIRECTIONAL => 0 | LIGHT_SPOT => 1 | LIGHT_POINT => 2 end.

(** A light without shape texture and normal offset, with specular
    highlights. *)
Definition plainShading : LightShading :=
  {| shapeTexture_ := None; specularIntensity_ := 1;
     shadowBias_ := {| constantBias_ := 0; slopeScaledBias_ := 0; normalOffset_ := 0 |} |}.

End FrameScenes.

(** * Theorems *)

(** ** Quantization in single precision *)

Section QuantizationFacts.
Import Single Quantization WholeSteps.

Lemma float32_eqb_eq (a b : float32) : eqb a b = true → a = b.
Proof.
  destruct a as [s1|s1| |s1 m1 e1], b as [s2|s2| |s2 m2 e2]; simpl; try discriminate.
  - intros Hs. apply Bool.eqb_prop in Hs. congruence.
  - intros Hs. apply Bool.eqb_prop in Hs. congruence.
  - reflexivity.
  - intros Heq. apply andb_true_iff in Heq as [Heq He].
    apply andb_true_iff in Heq as [Hs Hm].
    apply Bool.eqb_prop in Hs. apply Pos.eqb_eq in Hm. apply Z.eqb_eq in He. congruence.
Qed.

Lemma allUpTo_spec (n : nat) (f : Z → bool) :
  allUpTo n f = true → ∀ k, (0 ≤ k ≤ Z.of_nat n)%Z → f k = true.
Proof.
  induction n as [|n IH]; intros Hall k Hk; cbn [allUpTo] in Hall;
    apply andb_true_iff in Hall as [Hn Hrest].
  - assert (k = Z.of_nat 0) as -> by lia. exact Hn.
  - destruct (decide (k = Z.of_nat (S n))) as [->|Hne]; [exact Hn|].
    apply IH; [exact Hrest|lia].
Qed.

(** For a step that is a power of two, every size of up to 512 whole steps
    is rounded up to the same number of steps again: [k * k], the product
    with the step, the quotient by it and the square root are all exact.
    Checked by evaluating the 513 sizes of each step. *)
Lemma stepFixed_all : forallb (λ q, allUpTo 512 (stepFixed q)) stepSizes = true.
Proof. vm_compute. reflexivity. Qed.

Lemma StepCount_of_QuantizeStep parameters k :
  quantize_ parameters ∈ stepSizes →
  (0 ≤ k ≤ maxSteps)%Z →
  ceilf (sqrtf (fdiv (QuantizeStep parameters k) (quantize_ parameters))) = of_Z k.
Proof.
  intros Hq Hk. apply float32_eqb_eq.
  pose proof (proj1 (forallb_forall _ _) stepFixed_all (quantize_ parameters)) as Hall.
  apply (allUpTo_spec 512 _ (Hall (proj1 (list_elem_of_In _ _) Hq))).
  unfold maxSteps in Hk. lia.
Qed.

Lemma Max_idem (a : float32) : Max a a = a.
Proof. unfold Max. destruct (fgt a a); reflexivity. Qed.

Lemma Max_either (a b : float32) : Max a b = a ∨ Max a b = b.
Proof. unfold Max. destruct (fgt a b); auto. Qed.

(** A component of whole steps is a fixed point. *)
Lemma QuantizeComponent_whole parameters v :
  quantize_ parameters ∈ stepSizes →
  wholeSteps parameters v →
  QuantizeComponent parameters (QuantizeComponent parameters v)
  = QuantizeComponent parameters v.
Proof.
  intros Hq (k & [Hk Hcount] & Hproduced).
  rewrite Hproduced at 1. unfold QuantizeComponent.
  rewrite (StepCount_of_QuantizeStep parameters k Hq Hk), Hcount. reflexivity.
Qed.


(** A second quantization may enlarge a component that the minimum view
    size had raised; a third one changes nothing any more. *)
Lemma QuantizeComponent_settles parameters v :
  quantize_ parameters ∈ stepSizes →
  (∃ k, roundedTo parameters v k) →
  (∃ k, roundedTo parameters (minView_ parameters) k) →
  QuantizeComponent parameters (QuantizeComponent parameters (QuantizeComponent parameters v))
  = QuantizeComponent parameters (QuantizeComponent parameters v).
Proof.
  intros Hq [k Hk] [m Hm].
  assert (Hfix : ∀ u j, roundedTo parameters u j →
            QuantizeComponent parameters u = minView_ parameters ∨
            QuantizeComponent parameters (QuantizeComponent parameters u)
            = QuantizeComponent parameters u).
  { intros u j Hj.
    destruct (Max_either (QuantizeStep parameters j) (minView_ parameters)) as [Hstep|Hmin].
    - right. apply QuantizeComponent_whole; [exact Hq|]. exists j. split; [exact Hj|].
      rewrite <- Hstep. unfold QuantizeComponent, QuantizeStep.
      destruct Hj as [_ ->]. reflexivity.
    - left. unfold QuantizeComponent. destruct Hj as [_ ->]. exact Hmin. }
  destruct (Hfix v k Hk) as [Hraised|Hfixed].
  - rewrite Hraised. destruct (Hfix _ m Hm) as [Hraised'|Hfixed'].
    + rewrite Hraised'. exact Hraised'.
    + exact Hfixed'.
  - rewrite Hfixed. exact Hfixed.
Qed.

(** With a quantization step that is a power of two between 1/8 and 8,
    quantizing a view size a third time changes nothing any more, bit for
    bit, when the quantized components and the minimum view size are each
    rounded up to a whole number of at most 512 steps. *)
Theorem QuantizeViewSize_stable parameters (viewSize : float32 * float32) :
  quantize_ parameters ∈ stepSizes →
  Forall (λ v, ∃ k, roundedTo parameters v k) (quantizedComponents parameters viewSize) →
  (∃ k, roundedTo parameters (minView_ parameters) k) →
  QuantizeViewSize parameters
    (QuantizeViewSize parameters (QuantizeViewSize parameters viewSize))
  = QuantizeViewSize parameters (QuantizeViewSize parameters viewSize).
Proof.
  intros Hq Hrounded Hmin. unfold QuantizeViewSize, quantizedComponents in *.
  destruct (nonUniform_ parameters).
  - apply Forall_cons in Hrounded as [Hx Hy]. apply Forall_cons in Hy as [Hy _]. simpl.
    rewrite !QuantizeComponent_settles by assumption. reflexivity.
  - destruct (focus_ parameters); [|reflexivity].
    apply Forall_cons in Hrounded as [Hx _]. simpl.
    rewrite !Max_idem, QuantizeComponent_settles by assumption. reflexivity.
Qed.

Lemma float32_fle_refl (a : float32) : isNaN a = false → fle a a = true.
Proof.
  destruct a as [s|s| |s m e]; simpl; try discriminate; intros _;
    unfold fle, SpecFloat.SFleb; simpl.
  - reflexivity.
  - destruct s; reflexivity.
  - rewrite Z.compare_refl, Pos.compare_cont_refl. destruct s; reflexivity.
Qed.

Lemma float32_fle_Max_r (a b : float32) : isNaN b = false → fle b (Max a b) = true.
Proof.
  intros Hb. unfold Max, fgt, flt. destruct (SpecFloat.SFltb b a) eqn:Hlt.
  - unfold fle, SpecFloat.SFleb. unfold SpecFloat.SFltb in Hlt.
    destruct (SpecFloat.SFcompare b a) as [[]|]; try discriminate. reflexivity.
  - apply float32_fle_refl. exact Hb.
Qed.

(** Whenever the view size is quantized, each component of the result is
    at least the minimum view size, whatever the view size is: a size that
    is negative or not a number has no step count, and the comparison in
    [Max] then yields the minimum view size itself. *)
Theorem QuantizeViewSize_minView parameters (viewSize : float32 * float32) :
  isNaN (minView_ parameters) = false →
  nonUniform_ parameters || focus_ parameters = true →
  fle (minView_ parameters) (QuantizeViewSize parameters viewSize).1 = true ∧
  fle (minView_ parameters) (QuantizeViewSize parameters viewSize).2 = true.
Proof.
  intros Hmin Hmode. unfold QuantizeViewSize.
  destruct (nonUniform_ parameters); simpl.
  - split; apply float32_fle_Max_r; exact Hmin.
  - simpl in Hmode. rewrite Hmode. simpl. split; apply float32_fle_Max_r; exact Hmin.
Qed.

End QuantizationFacts.

Section QuantizationScenes.
Import Single Quantization WholeSteps.


Example halfStep_five :
  QuantizeViewSize halfStepFocus (of_Z 5, of_Z 5) = (of_Z 8, of_Z 8).
Proof. vm_compute. reflexivity. Qed.


(** Why the step has to be a power of two: with a step of 0.7 (the float
    nearest to it) a view size of 570 is rounded up to 29 steps, and the
    size of 29 steps, divided by the step again, lies just above 841, so
    that re-quantizing rounds it up to 30 steps. *)
Example oddStep_grows :
  QuantizeComponent oddStepFocus (of_Z 570) = QuantizeStep oddStepFocus 29 ∧
  QuantizeComponent oddStepFocus (QuantizeStep oddStepFocus 29) = QuantizeStep oddStepFocus 30 ∧
  QuantizeStep oddStepFocus 30 ≠ QuantizeStep oddStepFocus 29.
Proof. vm_compute. repeat split; [reflexivity..|discriminate]. Qed.

(** The view size 1, which the first quantization raises to 3 and the
    second to 4.5, stays at 4.5 from then on. *)
Lemma QuantizeViewSize_stable_witness :
  QuantizeViewSize halfStepFocus
    (QuantizeViewSize halfStepFocus (QuantizeViewSize halfStepFocus (of_Z 1, of_Z 1)))
  = QuantizeViewSize halfStepFocus (QuantizeViewSize halfStepFocus (of_Z 1, of_Z 1)).
Proof.
  apply (QuantizeViewSize_stable halfStepFocus (of_Z 1, of_Z 1)).
  - apply list_elem_of_In. vm_compute. tauto.
  - repeat constructor; exists 2%Z; (split; [unfold maxSteps; lia|]);
      vm_compute; reflexivity.
  - exists 3%Z. split; [unfold maxSteps; lia|]. vm_compute. reflexivity.
Defined.

(** With a step of 0.7 the size keeps growing: 2274 becomes 57 steps, then
    58, then 59. *)
Example oddStep_does_not_settle :
  QuantizeComponent oddStepFocus (of_Z 2274) = QuantizeStep oddStepFocus 57 ∧
  QuantizeComponent oddStepFocus (QuantizeStep oddStepFocus 57) = QuantizeStep oddStepFocus 58 ∧
  QuantizeComponent oddStepFocus (QuantizeStep oddStepFocus 58) = QuantizeStep oddStepFocus 59.
Proof. vm_compute. repeat split; reflexivity. Qed.

Lemma QuantizeViewSize_minView_witness :
  fle (minView_ halfStepFocus) (QuantizeViewSize halfStepFocus (of_Z 1, of_Z (-4))).1 = true ∧
  fle (minView_ halfStepFocus) (QuantizeViewSize halfStepFocus (of_Z 1, of_Z (-4))).2 = true.
Proof.
  apply (QuantizeViewSize_minView halfStepFocus (of_Z 1, of_Z (-4))).
  - reflexivity.
  - reflexivity.
Defined.

(** A negative size has no square root: its component is the minimum view
    size. *)
Example negative_size_quantized :
  sqrtf (fdiv (of_Z (-4)) (quantize_ halfStepFocus)) = SpecFloat.S754_nan ∧
  QuantizeViewSize halfStepFocus (of_Z 1, of_Z (-4)) = (of_Z 3, of_Z 3).
Proof. vm_compute. split; reflexivity. Qed.

(** The quantized size may be smaller than the size it was computed from:
    8 + 2^-20, divided by the step 0.5, is 16 + 2^-19, whose square root
    rounds to 4, and 4 steps are 8. *)
Example quantized_below_input :
  QuantizeComponent halfStepFocus (ldexp (2 ^ 23 + 1) (-20)) = of_Z 8 ∧
  flt (of_Z 8) (ldexp (2 ^ 23 + 1) (-20)) = true.
Proof. vm_compute. split; reflexivity. Qed.

End QuantizationScenes.

Section LightProcessorFacts.
Context `{Externals}.
Import LightProcessor Spec.

Lemma numSplits_set_splits n ss (lp : LightProcessor) :
  numSplits_ (set_splits n ss lp) = n.
Proof. reflexivity. Qed.

Lemma MergeLitGeometries_total (zs : list FloatRange) r (ds : list Drawable) box :
  Forall (λ d, drawableIndex_ d < length zs)%nat ds →
  is_Some (MergeLitGeometries zs r ds box).
Proof.
  intros Hds. revert box. induction Hds as [|d ds Hd _ IH]; intros box; simpl.
  - eauto.
  - apply lookup_lt_is_Some_2 in Hd as [z ->]. simpl. apply IH.
Qed.

Lemma SplitFrustumVolume_total parameters ctx zRange (ds : list Drawable) :
  Forall (λ d, drawableIndex_ d < length (dp_geometryZRanges_ ctx))%nat ds →
  is_Some (SplitFrustumVolume parameters ctx zRange ds).
Proof.
  intros Hds. unfold SplitFrustumVolume.
  destruct (focus_ parameters); [|eauto].
  destruct (MergeLitGeometries_total (dp_geometryZRanges_ ctx)
    (FloatRange_and (dp_sceneZRange_ ctx) zRange) ds BoundingBox_new Hds) as [box ->].
  simpl. destruct (BoundingBox_Defined box); [|eauto].
  destruct (Polyhedron_Empty _); eauto.
Qed.

Lemma SetupDirLightShadowCamera_total light ctx (ds : list Drawable) split :
  Forall (λ d, drawableIndex_ d < length (dp_geometryZRanges_ ctx))%nat ds →
  is_Some (shadowCamera_ split) →
  is_Some (SetupDirLightShadowCamera light ctx ds split).
Proof.
  intros Hds [c Hc]. unfold SetupDirLightShadowCamera. rewrite Hc. simpl.
  destruct (SplitFrustumVolume_total (shadowFocus_ light) ctx (zRange_ split) ds Hds) as [v ->].
  simpl. destruct (FitShadowBox _ v) as [[[[? ?] ?] ?] ?]. eauto.
Qed.

(** The directional loop, started at entry [i] with the near bound of that
    entry, runs to completion and stops at the first inactive entry. *)
Lemma SetupDirSplits_spec ctx remaining : ∀ i nearSplit (lp : LightProcessor),
  cascadeNearBound ctx (light_ lp) i = Some nearSplit →
  (i + remaining ≤ length (cascadeSplits_ (light_ lp)))%nat →
  (i + remaining ≤ length (splits_ lp))%nat →
  Forall (λ d, drawableIndex_ d < length (dp_geometryZRanges_ ctx))%nat (litGeometries_ lp) →
  ∃ lp' k,
    SetupDirSplits ctx remaining i nearSplit lp = Some lp' ∧
    light_ lp' = light_ lp ∧
    numSplits_ lp' = (numSplits_ lp + k)%nat ∧
    (k ≤ remaining)%nat ∧
    (∀ j, (j < k)%nat → cascadeEntryActive ctx (light_ lp) (i + j) = true) ∧
    ((k < remaining)%nat → cascadeEntryActive ctx (light_ lp) (i + k) = false).
Proof.
  induction remaining as [|remaining IH]; intros i nearSplit lp Hnear Htab Hspl Hlit; simpl.
  { exists lp, 0%nat. repeat split; auto with lia. }
  assert (Hact : ∀ s, cascadeSplits_ (light_ lp) !! i = Some s →
    cascadeEntryActive ctx (light_ lp) i
    = fle nearSplit (cull_farClip_ ctx) && flt nearSplit (Min (cull_farClip_ ctx) s)).
  { intros s Hs. unfold cascadeEntryActive, cascadeFarBound. rewrite Hnear, Hs. reflexivity. }
  destruct (lookup_lt_is_Some_2 (cascadeSplits_ (light_ lp)) i ltac:(lia)) as [s Hs].
  specialize (Hact s Hs).
  destruct (fgt nearSplit (cull_farClip_ ctx)) eqn:Hgt.
  { exists lp, 0%nat. repeat split; auto with lia.
    intros _. rewrite Nat.add_0_r, Hact.
    unfold fgt, flt in Hgt. unfold fle.
    apply negb_true_iff in Hgt. rewrite Hgt. reflexivity. }
  rewrite Hs. simpl.
  destruct (fle (Min (cull_farClip_ ctx) s) nearSplit) eqn:Hle.
  { exists lp, 0%nat. repeat split; auto with lia.
    intros _. rewrite Nat.add_0_r, Hact.
    unfold flt. unfold fle in Hle. rewrite Hle. apply andb_false_r. }
  destruct (lookup_lt_is_Some_2 (splits_ lp) i ltac:(lia)) as [split Hsplit].
  rewrite Hsplit. simpl.
  destruct (SetupDirLightShadowCamera_total (light_ lp) ctx (litGeometries_ lp)
    (set_zRange (MkRange nearSplit (Min (cull_farClip_ ctx) s)) (GetOrCreateShadowCamera split))
    Hlit ltac:(simpl; eauto)) as [split' Hsplit'].
  rewrite Hsplit'. simpl.
  set (lp1 := set_splits _ _ lp).
  destruct (IH (S i) (Min (cull_farClip_ ctx) s) lp1) as (lp' & k & Hrun & Hl & Hn & Hk & Hall & Hstop).
  - simpl. unfold cascadeFarBound. rewrite Hs. reflexivity.
  - simpl. lia.
  - simpl. rewrite length_insert. lia.
  - exact Hlit.
  - exists lp', (S k). simpl in *. repeat split; auto with lia.
    + intros j Hj. destruct j as [|j].
      * rewrite Nat.add_0_r, Hact.
        unfold fgt, flt in Hgt. unfold fle, flt. unfold fle in Hle.
        apply negb_false_iff in Hgt. rewrite Hgt, Hle. reflexivity.
      * replace (i + S j)%nat with (S (i + j)) by lia. apply Hall. lia.
    + intros Hlt. replace (i + S k)%nat with (S (i + k)) by lia. apply Hstop. lia.
Qed.

Lemma SetupPointSplits_spec remaining : ∀ i (lp : LightProcessor),
  (i + remaining ≤ length (splits_ lp))%nat →
  ∃ lp', SetupPointSplits remaining i lp = Some lp' ∧
         numSplits_ lp' = numSplits_ lp ∧ light_ lp' = light_ lp.
Proof.
  induction remaining as [|remaining IH]; intros i lp Hlen; simpl.
  { eauto. }
  destruct (lookup_lt_is_Some_2 (splits_ lp) i ltac:(lia)) as [split ->]. simpl.
  match goal with |- context [SetupPointSplits _ _ ?lp1] =>
    destruct (IH (S i) lp1) as (lp' & Hrun & Hn & Hl) end.
  { simpl. rewrite length_insert. lia. }
  exists lp'. auto.
Qed.

(** C1 (amended).  [SetupShadowCameras] returns, and afterwards the number
    of active splits is 1 for a spot light, 6 for a point light, and for a
    directional light the length of the leading run of active cascade
    entries among the requested ones: every entry before it has a near
    bound not beyond the far clip and a clamped far bound beyond the near
    bound, and the entry at it, when it is still among the requested ones,
    has not.  The count never exceeds the requested split count, nor the
    maximum of the light type. *)
Theorem SetupShadowCameras_numSplits ctx (lp : LightProcessor) :
  length (splits_ lp) = MAX_SPLITS →
  length (cascadeSplits_ (light_ lp)) = MAX_CASCADE_SPLITS →
  (numShadowSplits_ (light_ lp) ≤ MAX_CASCADE_SPLITS)%nat →
  Forall (λ d, drawableIndex_ d < length (dp_geometryZRanges_ ctx))%nat (litGeometries_ lp) →
  ∃ lp',
    SetupShadowCameras ctx lp = Some lp' ∧
    match lightType_ (light_ lp) with
    | LIGHT_SPOT => numSplits_ lp' = 1%nat
    | LIGHT_POINT => numSplits_ lp' = 6%nat
    | LIGHT_DIRECTIONAL =>
        (numSplits_ lp' ≤ numShadowSplits_ (light_ lp))%nat ∧
        (∀ i, (i < numSplits_ lp')%nat → cascadeEntryActive ctx (light_ lp) i = true) ∧
        ((numSplits_ lp' < numShadowSplits_ (light_ lp))%nat →
         cascadeEntryActive ctx (light_ lp) (numSplits_ lp') = false)
    end ∧
    (numSplits_ lp' ≤ maxSplitsOfType (lightType_ (light_ lp)))%nat.
Proof.
  intros Hsplits Htable Hreq Hlit. unfold SetupShadowCameras.
  destruct (lightType_ (light_ lp)) eqn:Htype.
  - destruct (SetupDirSplits_spec ctx (numShadowSplits_ (light_ lp)) 0 (cull_nearClip_ ctx)
      (set_numSplits 0 lp)) as (lp' & k & Hrun & Hl & Hn & Hk & Hall & Hstop); simpl.
    + reflexivity.
    + rewrite Htable. exact Hreq.
    + rewrite Hsplits. unfold MAX_SPLITS, MAX_CASCADE_SPLITS in *. lia.
    + exact Hlit.
    + simpl in *. subst k. exists lp'. repeat split; auto with lia.
  - unfold MAX_SPLITS in Hsplits.
    destruct (lookup_lt_is_Some_2 (splits_ lp) 0 ltac:(lia)) as [split ->]. simpl.
    eexists. repeat split; simpl; lia.
  - destruct (SetupPointSplits_spec MAX_CUBEMAP_FACES 0 lp) as (lp' & -> & Hn & Hl).
    { rewrite Hsplits. unfold MAX_SPLITS, MAX_CUBEMAP_FACES. lia. }
    cbn [mbind option_bind]. eexists. repeat split; simpl; unfold MAX_CUBEMAP_FACES; lia.
Qed.

(** *** Focusing *)

(** C7.  The frustum volume that [SetupDirLightShadowCamera] fits the
    shadow box to: with focusing enabled, whenever clipping the split
    frustum volume by the merged box of the lit geometries yields an empty
    polyhedron, the volume is the polyhedron of the unclipped split frustum
    again; and as a polyhedron defined from a frustum is not empty, the
    volume is never empty. *)
Theorem SplitFrustumVolume_restored parameters ctx zRange (litGeometries : list Drawable) :
  Forall (λ d, drawableIndex_ d < length (dp_geometryZRanges_ ctx))%nat litGeometries →
  ∃ frustumVolume,
    SplitFrustumVolume parameters ctx zRange litGeometries = Some frustumVolume ∧
    (focus_ parameters = true →
     let splitZRange := FloatRange_and (dp_sceneZRange_ ctx) zRange in
     let splitFrustum := GetSplitFrustum (first splitZRange) (second splitZRange) in
     ∀ litGeometriesBox,
       MergeLitGeometries (dp_geometryZRanges_ ctx) splitZRange litGeometries BoundingBox_new
         = Some litGeometriesBox →
       BoundingBox_Defined litGeometriesBox = true →
       Polyhedron_Empty (Polyhedron_Clip (Polyhedron_Define splitFrustum) litGeometriesBox) = true →
       frustumVolume = Polyhedron_Define splitFrustum) ∧
    ((∀ frustum, Polyhedron_Empty (Polyhedron_Define frustum) = false) →
     Polyhedron_Empty frustumVolume = false).
Proof.
  intros Hlit. unfold SplitFrustumVolume.
  destruct (focus_ parameters) eqn:Hfocus.
  - destruct (MergeLitGeometries_total (dp_geometryZRanges_ ctx)
      (FloatRange_and (dp_sceneZRange_ ctx) zRange) litGeometries BoundingBox_new Hlit)
      as [box Hbox].
    rewrite Hbox. simpl.
    destruct (BoundingBox_Defined box) eqn:Hdefined.
    + destruct (Polyhedron_Empty (Polyhedron_Clip _ box)) eqn:Hempty.
      * eexists. split; [reflexivity|]. split; [|intros Hdef; apply Hdef].
        intros _ box' Hbox' _ _. reflexivity.
      * eexists. split; [reflexivity|]. split; [|intros _; exact Hempty].
        intros _ box' Hbox' _ Hempty'. congruence.
    + eexists. split; [reflexivity|]. split; [|intros Hdef; apply Hdef].
      intros _ box' Hbox' Hdefined'. congruence.
  - eexists. split; [reflexivity|]. split; [|intros Hdef; apply Hdef].
    intros Hf. discriminate.
Qed.

(** *** Shadow map hand-over *)

Lemma any_of_hasShadowCaster_false (splits : list SceneLightShadowSplit) :
  Forall (λ split, shadowCasters_ split = []) splits →
  any_of hasShadowCaster splits = false.
Proof.
  induction 1 as [|split splits Hsplit _ IH]; simpl; [reflexivity|].
  unfold hasShadowCaster at 1. rewrite (bool_decide_eq_true_2 _ Hsplit). exact IH.
Qed.

End LightProcessorFacts.

(** ** Pipeline state cache *)

Section BatchStateCacheFacts.
Import BatchStateCache.

Lemma upToDate_fresh hashes key pipelineState :
  upToDate hashes key
    {| geometryHash_ := geometryHashOf hashes (geometry_ key);
       materialHash_ := materialHashOf hashes (material_ key);
       passHash_ := passHashOf hashes (pass_ key);
       pipelineState_ := pipelineState; invalidated_ := false |} = true.
Proof. unfold upToDate. simpl. rewrite !N.eqb_refl. reflexivity. Qed.

(** C5.  The state that [GetOrCreatePipelineState] returns for a key is the
    state that [GetPipelineState] returns for the same lookup key on the
    cache it leaves behind, the objects of the key reporting the same
    hashes in both calls. *)
Theorem GetPipelineState_after_GetOrCreatePipelineState hashes key ctx callback
    (cache_ : gmap BatchStateLookupKey CachedBatchState) :
  GetPipelineState hashes (lookupKey_ key)
    (GetOrCreatePipelineState hashes key ctx callback cache_).2
  = (GetOrCreatePipelineState hashes key ctx callback cache_).1.
Proof.
  unfold GetOrCreatePipelineState.
  destruct (GetPipelineState hashes (lookupKey_ key) cache_) as [pipelineState|] eqn:Hlookup.
  - exact Hlookup.
  - simpl. unfold GetPipelineState. rewrite lookup_insert_eq. simpl.
    rewrite upToDate_fresh. reflexivity.
Qed.

(** Other keys are not affected by a resolution. *)
Lemma GetPipelineState_other hashes key ctx callback other
    (cache_ : gmap BatchStateLookupKey CachedBatchState) :
  other ≠ lookupKey_ key →
  GetPipelineState hashes other (GetOrCreatePipelineState hashes key ctx callback cache_).2
  = GetPipelineState hashes other cache_.
Proof.
  intros Hne. unfold GetOrCreatePipelineState.
  destruct (GetPipelineState hashes (lookupKey_ key) cache_); [reflexivity|].
  simpl. unfold GetPipelineState. rewrite lookup_insert_ne by congruence. reflexivity.
Qed.

Lemma GetPipelineState_Invalidate hashes key
    (cache_ : gmap BatchStateLookupKey CachedBatchState) :
  GetPipelineState hashes key (Invalidate cache_) = None.
Proof.
  unfold GetPipelineState, Invalidate. rewrite lookup_fmap.
  destruct (cache_ !! key); reflexivity.
Qed.

End BatchStateCacheFacts.

(** ** Shadow batches *)

Section ScenePassFacts.
Context `{SceneExternals}.
Import LightProcessor ScenePass.

(** The mask test rejects a caster only for a light whose mask is zero, and
    then only when bit 0 of the caster's shadow mask is set. *)
Lemma ShadowMaskCheck_spec (drawable : Drawable) lightMask :
  ShadowMaskCheck drawable lightMask = true
  ↔ lightMask = 0%N ∧ N.odd (shadowMaskInZone_ drawable) = true.
Proof.
  unfold ShadowMaskCheck. destruct (N.eqb_spec lightMask 0) as [->|Hne].
  - replace 1%N with (N.ones 1) by reflexivity.
    rewrite N.land_ones, N.pow_1_r, <- N.bit0_mod, N.bit0_odd.
    destruct (N.odd (shadowMaskInZone_ drawable)); simpl; intuition congruence.
  - rewrite N.land_0_r. simpl. intuition congruence.
Qed.

(** A light with a non-zero mask never has a caster rejected by the mask
    test, whatever the caster's shadow mask. *)
Lemma ShadowMaskCheck_nonzero_lightMask (drawable : Drawable) lightMask :
  lightMask ≠ 0%N → ShadowMaskCheck drawable lightMask = false.
Proof.
  intros Hne. destruct (ShadowMaskCheck drawable lightMask) eqn:Hcheck; [|reflexivity].
  apply ShadowMaskCheck_spec in Hcheck as [? _]. contradiction.
Qed.

(** A caster beyond its maximum shadow distance adds no batch. *)
Lemma CollectCasterBatches_too_far pass threadIndex materialQuality sceneLight splitIndex
    lightMask (drawable : Drawable) rest acc :
  ShadowDistanceCheck drawable = true →
  CollectCasterBatches pass threadIndex materialQuality sceneLight splitIndex lightMask
    (drawable :: rest) acc
  = CollectCasterBatches pass threadIndex materialQuality sceneLight splitIndex lightMask
      rest acc.
Proof. intros Hfar. simpl. rewrite Hfar. destruct (ShadowMaskCheck _ _); reflexivity. Qed.

End ScenePassFacts.

(** ** The rest of the frame *)

Section FrameFacts.
Context `{SceneExternals}.
Import LightProcessor PipelineStateHash ScenePass Frame.

(** Bit 2 of the flags is the shadow flag, whatever the light type and the
    other attributes are. *)
Lemma PipelineStateFlags_shadow_bit typeValue shading (lp : LightProcessor) :
  N.testbit (PipelineStateFlags typeValue shading lp) 2 = hasShadow_ lp.
Proof.
  unfold PipelineStateFlags. rewrite !N.lor_spec, N.land_spec.
  rewrite (N.shiftl_spec_high' _ 2 2) by lia.
  rewrite !N.shiftl_spec_low by lia.
  change (N.testbit 3 2) with false. change (N.testbit 0 2) with false.
  rewrite andb_false_r, !orb_false_r. simpl.
  destruct (hasShadow_ lp); reflexivity.
Qed.

(** The hash reads the light and the shadow flag only. *)
Lemma RecalculatePipelineStateHash_reads typeValue combine shading (lp lp' : LightProcessor) :
  light_ lp' = light_ lp → hasShadow_ lp' = hasShadow_ lp →
  RecalculatePipelineStateHash typeValue combine shading lp'
  = RecalculatePipelineStateHash typeValue combine shading lp.
Proof.
  intros Hlight Hshadow. unfold RecalculatePipelineStateHash, PipelineStateFlags.
  rewrite Hlight, Hshadow. reflexivity.
Qed.

(** What a call of the rest of the frame leaves as it is. *)
Lemma run_keeps call (state state' : State) :
  run call state = Some state' →
  light_ state'.1 = light_ state.1 ∧
  (hasShadow_ state.1 = false →
   hasShadow_ state'.1 = false ∧
   shadowMapSplitSize_ state'.1 = shadowMapSplitSize_ state.1 ∧
   shadowMapSize_ state'.1 = shadowMapSize_ state.1).
Proof.
  destruct state as [lp pass], call as [|shadowMap|threadIndex materialQuality splitIndex];
    simpl; intros Hrun.
  - unfold FinalizeShadowMap in Hrun. destruct (hasShadow_ lp) eqn:Hshadow; simpl in Hrun.
    + split; [|discriminate].
      destruct (decide _); [|discriminate].
      destruct (negb _); simplify_eq/=; reflexivity.
    + simplify_eq/=. auto.
  - unfold SetShadowMap in Hrun. destruct (texture_ shadowMap).
    + destruct (InitializeSplitShadowMaps _ _ _ _ _ _); simplify_eq/=. auto.
    + simplify_eq/=. auto.
  - unfold CollectShadowBatches in Hrun.
    destruct (splits_ lp !! splitIndex); [|discriminate]. simpl in Hrun.
    destruct (CollectCasterBatches _ _ _ _ _ _ _ _) as [[shadowBatches dirty]|];
      simplify_eq/=. auto.
Qed.

Lemma Continues_keeps (state state' : State) :
  Continues state state' →
  light_ state'.1 = light_ state.1 ∧
  (hasShadow_ state.1 = false →
   hasShadow_ state'.1 = false ∧
   shadowMapSplitSize_ state'.1 = shadowMapSplitSize_ state.1 ∧
   shadowMapSize_ state'.1 = shadowMapSize_ state.1).
Proof.
  induction 1 as [state|call state state' state'' _ Hrun _ IH]; [auto|].
  destruct (run_keeps _ _ _ Hrun) as [Hlight Hkeeps], IH as [Hlight' Hkeeps'].
  split; [congruence|]. intros Hshadow.
  destruct (Hkeeps Hshadow) as (Hshadow' & Hsplit & Hsize).
  destruct (Hkeeps' Hshadow') as (? & ? & ?). repeat split; congruence.
Qed.

(** C10.  When shadow is requested and none of the active splits holds a
    shadow caster, [FinalizeShadowMap] returns with [hasShadow_] cleared;
    the split size and the shadow map size are not computed (they keep
    their values), and the shadow map and the splits are left as they
    were.  The light is then unshadowed for the rest of the frame: whatever
    calls of [FinalizeShadowMap], [SetShadowMap] and [CollectShadowBatches]
    follow, [hasShadow_] stays cleared, no shadow map size is computed, and
    for every reading of the light's attributes the pipeline state hash has
    its shadow bit clear and is the hash that the light would have had if
    the frame had begun without shadow. *)
Theorem FinalizeShadowMap_without_casters (lp : LightProcessor) :
  hasShadow_ lp = true →
  (numSplits_ lp ≤ length (splits_ lp))%nat →
  Forall (λ split, shadowCasters_ split = []) (take (numSplits_ lp) (splits_ lp)) →
  ∃ lp',
    FinalizeShadowMap lp = Some lp' ∧
    hasShadow_ lp' = false ∧
    shadowMapSplitSize_ lp' = shadowMapSplitSize_ lp ∧
    shadowMapSize_ lp' = shadowMapSize_ lp ∧
    shadowMap_ lp' = shadowMap_ lp ∧
    numSplits_ lp' = numSplits_ lp ∧
    splits_ lp' = splits_ lp ∧
    (∀ pass state,
       Continues (lp', pass) state →
       hasShadow_ state.1 = false ∧
       shadowMapSplitSize_ state.1 = shadowMapSplitSize_ lp ∧
       shadowMapSize_ state.1 = shadowMapSize_ lp ∧
       ∀ typeValue combine shading,
         N.testbit (PipelineStateFlags typeValue shading state.1) 2 = false ∧
         RecalculatePipelineStateHash typeValue combine shading state.1
         = RecalculatePipelineStateHash typeValue combine shading (BeginFrame false lp)).
Proof.
  intros Hshadow Hlen Hcasters. unfold FinalizeShadowMap.
  rewrite Hshadow. simpl. rewrite decide_True by exact Hlen.
  rewrite any_of_hasShadowCaster_false by exact Hcasters. simpl.
  eexists. split; [reflexivity|]. do 6 (split; [reflexivity|]).
  intros pass state Hrest.
  destruct (Continues_keeps _ _ Hrest) as [Hlight Hkeeps].
  destruct (Hkeeps eq_refl) as (Hshadow' & Hsplit & Hsize). simpl in *.
  do 3 (split; [assumption|]). intros typeValue combine shading. split.
  - rewrite PipelineStateFlags_shadow_bit. exact Hshadow'.
  - apply RecalculatePipelineStateHash_reads; assumption.
Qed.




End FrameFacts.

Section LightProcessorScenes.
Import LightProcessor Spec Scenes.
#[local] Existing Instance Line.externals.

(** The four-cascade scene has four active splits. *)
Lemma SetupShadowCameras_numSplits_witness :
  ∃ lp',
    SetupShadowCameras (mkContext 1 1000) fourCascades = Some lp' ∧
    ((numSplits_ lp' ≤ 4)%nat ∧
     (∀ i, (i < numSplits_ lp')%nat →
        cascadeEntryActive (mkContext 1 1000) (light_ fourCascades) i = true) ∧
     ((numSplits_ lp' < 4)%nat →
        cascadeEntryActive (mkContext 1 1000) (light_ fourCascades) (numSplits_ lp') = false)) ∧
    (numSplits_ lp' ≤ 4)%nat.
Proof.
  apply (SetupShadowCameras_numSplits (mkContext 1 1000) fourCascades).
  - reflexivity.
  - reflexivity.
  - simpl. unfold MAX_CASCADE_SPLITS. lia.
  - constructor.
Defined.

(** The scenario of the specification: splits [1,10], [10,100], [100,400]
    and [400,1000]. *)
Example fourCascades_zRanges :
  (λ lp', (numSplits_ lp', zRange_ <$> take 4 (splits_ lp')))
    <$> SetupShadowCameras (mkContext 1 1000) fourCascades
  = Some (4%nat, [MkRange 1 10; MkRange 10 100; MkRange 100 400; MkRange 400 1000]).
Proof. vm_compute. reflexivity. Qed.

(** C1 (as stated, refuted).  With the first cascade ending in front of the
    near plane the loop stops at once and no split is active, although the
    three cascade entries after it, reaching to 10, 20 and 40, each have a
    near bound within the far clip and a far bound beyond their near bound,
    whether the near bound of an entry is taken from the entry before it or
    from the last active one. *)
Lemma SetupShadowCameras_count_counterexample :
  numSplits_ <$> SetupShadowCameras (mkContext 1 100) cascadeBeforeNearClip = Some 0%nat ∧
  numActiveCascadeEntries (mkContext 1 100) (light_ cascadeBeforeNearClip) = 3%nat ∧
  numActiveCascadeEntriesRunning (mkContext 1 100) (light_ cascadeBeforeNearClip) = 3%nat ∧
  numSplits_ <$> SetupShadowCameras (mkContext 1 100) cascadeBeforeNearClip
  ≠ Some (numActiveCascadeEntries (mkContext 1 100) (light_ cascadeBeforeNearClip)).
Proof. vm_compute. repeat split; [reflexivity..|discriminate]. Qed.

(** The shadow camera is quantized twice in the pipeline: the split [1, 2]
    gets an orthographic size of 3 in [SetupShadowCameras], and 4.5 once
    [SetShadowMap] has re-quantized it. *)
Example narrowCascade_requantized :
  (λ lp1, (orthoSize_ <$> (splits_ lp1 !! 0%nat ≫= shadowCamera_),
           (λ lp2, orthoSize_ <$> (splits_ lp2 !! 0%nat ≫= shadowCamera_))
             <$> SetShadowMap allocatedShadowMap lp1))
    <$> SetupShadowCameras (mkContext 1 1000) narrowCascade
  = Some (Some 3%Q, Some (Some (9 # 2)%Q)).
Proof. vm_compute. reflexivity. Qed.

(** The lit geometry's box misses the split frustum, the clipped volume is
    empty, and the volume is the split frustum [1, 10] again. *)
Lemma SplitFrustumVolume_restored_witness :
  ∃ frustumVolume,
    SplitFrustumVolume defaultFocus farBoxContext (MkRange 1 10) farBoxGeometries
      = Some frustumVolume ∧
    (focus_ defaultFocus = true →
     let splitZRange := FloatRange_and (dp_sceneZRange_ farBoxContext) (MkRange 1 10) in
     let splitFrustum := GetSplitFrustum (first splitZRange) (second splitZRange) in
     ∀ litGeometriesBox,
       MergeLitGeometries (dp_geometryZRanges_ farBoxContext) splitZRange farBoxGeometries
         BoundingBox_new = Some litGeometriesBox →
       BoundingBox_Defined litGeometriesBox = true →
       Polyhedron_Empty (Polyhedron_Clip (Polyhedron_Define splitFrustum) litGeometriesBox) = true →
       frustumVolume = Polyhedron_Define splitFrustum) ∧
    ((∀ frustum, Polyhedron_Empty (Polyhedron_Define frustum) = false) →
     Polyhedron_Empty frustumVolume = false).
Proof.
  apply (SplitFrustumVolume_restored defaultFocus farBoxContext (MkRange 1 10) farBoxGeometries).
  repeat constructor.
Defined.

Example farBox_clip_is_empty :
  Polyhedron_Empty (Polyhedron_Clip (Polyhedron_Define (1, 10)%Q) (Some (200, 300)%Q)) = true ∧
  SplitFrustumVolume defaultFocus farBoxContext (MkRange 1 10) farBoxGeometries
  = Some (Some (1, 10)%Q).
Proof. vm_compute. split; reflexivity. Qed.

End LightProcessorScenes.

Section ScenePassScenes.
Import LightProcessor ScenePass Scenes.
#[local] Existing Instance Line.externals.
#[local] Existing Instance Line.sceneExternals.

(** C3 (the code departs from it).  The caster's shadow mask 2 and the
    light mask 1 share no bit, and still [CollectShadowBatches] adds the
    caster's batch to the split. *)
Lemma CollectShadowBatches_admits_masked_caster :
  N.land (shadowMaskInZone_ maskedCaster) (lightMask_ (light_ maskedCasterLight)) = 0%N ∧
  (λ r, (λ split, batch_drawableIndex_ <$> shadowCasterBatches_ split) <$> splits_ r.1 !! 0%nat)
    <$> CollectShadowBatches 0 0 maskedCasterLight 0 shadowPass
  = Some (Some [0%nat]).
Proof. vm_compute. split; reflexivity. Qed.

End ScenePassScenes.

(** ** The rest of the frame, on scenes *)

Section FrameFactsScenes.
Import LightProcessor PipelineStateHash ScenePass Frame Scenes MoreScenes FrameScenes.
#[local] Existing Instance Line.externals.
#[local] Existing Instance Line.sceneExternals.

(** A point light whose six splits found no shadow caster loses its
    shadow in [FinalizeShadowMap]. *)
Lemma FinalizeShadowMap_without_casters_witness :
  ∃ lp',
    FinalizeShadowMap pointLightNoCasters = Some lp' ∧
    hasShadow_ lp' = false ∧
    shadowMapSplitSize_ lp' = shadowMapSplitSize_ pointLightNoCasters ∧
    shadowMapSize_ lp' = shadowMapSize_ pointLightNoCasters ∧
    shadowMap_ lp' = shadowMap_ pointLightNoCasters ∧
    numSplits_ lp' = numSplits_ pointLightNoCasters ∧
    splits_ lp' = splits_ pointLightNoCasters ∧
    (∀ pass state,
       Continues (lp', pass) state →
       hasShadow_ state.1 = false ∧
       shadowMapSplitSize_ state.1 = shadowMapSplitSize_ pointLightNoCasters ∧
       shadowMapSize_ state.1 = shadowMapSize_ pointLightNoCasters ∧
       ∀ typeValue combine shading,
         N.testbit (PipelineStateFlags typeValue shading state.1) 2 = false ∧
         RecalculatePipelineStateHash typeValue combine shading state.1
         = RecalculatePipelineStateHash typeValue combine shading
             (BeginFrame false pointLightNoCasters)).
Proof.
  apply (FinalizeShadowMap_without_casters pointLightNoCasters).
  - reflexivity.
  - simpl. unfold MAX_SPLITS. lia.
  - repeat constructor.
Defined.

(** The flags of the point light before and after: 22 (point light,
    shadow, specular) and 18. *)
Example pointLightNoCasters_flags :
  PipelineStateFlags lightTypeValue plainShading pointLightNoCasters = 22%N ∧
  PipelineStateFlags lightTypeValue plainShading
    <$> FinalizeShadowMap pointLightNoCasters = Some 18%N.
Proof. vm_compute. split; reflexivity. Qed.



(** The rest of the frame does collect shadow batches while a split is
    active: for the spot light with its allocation still ahead, a call of
    [CollectShadowBatches] for split 0 adds a batch of its shadow caster. *)
Example active_split_collects :
  ∃ state,
    Continues (spotWithCamera, shadowPass) state ∧
    length <$> (shadowCasterBatches_ <$> splits_ state.1) = [1; 0; 0; 0; 0; 0]%nat.
Proof.
  destruct (CollectShadowBatches 0 2 spotWithCamera 0 shadowPass) as [state|] eqn:Hcollect;
    [|vm_compute in Hcollect; discriminate].
  exists state. split.
  - apply (Continues_call (CollectShadowBatches_call 0 2 0) _ state);
      [simpl; lia|exact Hcollect|apply Continues_here].
  - vm_compute in Hcollect. simplify_eq. reflexivity.
Qed.

End FrameFactsScenes.

(** ** Visible drawables and forward lighting *)

Section DrawableProcessorFacts.
Context `{SceneExternals}.
Import DrawableProcessor Spec.

Lemma fgt_true (a b : Q) : (b < a)%Q → fgt a b = true.
Proof.
  intros Hlt. unfold fgt, flt. apply negb_true_iff.
  destruct (Qle_bool a b) eqn:Hle; [|reflexivity].
  apply Qle_bool_iff in Hle. exfalso. exact (Qlt_not_le _ _ Hlt Hle).
Qed.

(** C4.  A drawable whose draw distance is positive and whose distance from
    the camera exceeds it is only marked as updated: [ProcessVisibleDrawable]
    adds it neither to the visible geometries nor to the visible lights,
    leaves the geometry render flags as they are (zero, when they were
    zero), and leaves the batches of every pass, the geometry update
    queues, the depth ranges and the light accumulators untouched. *)
Theorem ProcessVisibleDrawable_beyond_drawDistance threadIndex (drawable : Drawable)
    (dp : DrawableProcessor) :
  (drawableIndex_ drawable < length (isDrawableUpdated_ dp))%nat →
  (0 < drawDistance_ drawable)%Q →
  (drawDistance_ drawable < distance_ drawable)%Q →
  ∃ dp',
    ProcessVisibleDrawable threadIndex drawable dp = Some dp' ∧
    visibleGeometries_ dp' = visibleGeometries_ dp ∧
    visibleLightsTemp_ dp' = visibleLightsTemp_ dp ∧
    geometryFlags_ dp' = geometryFlags_ dp ∧
    (geometryFlags_ dp !! drawableIndex_ drawable = Some 0%N →
     geometryFlags_ dp' !! drawableIndex_ drawable = Some 0%N) ∧
    passes_ dp' = passes_ dp ∧
    threadedGeometryUpdates_ dp' = threadedGeometryUpdates_ dp ∧
    nonThreadedGeometryUpdates_ dp' = nonThreadedGeometryUpdates_ dp ∧
    geometryZRanges_ dp' = geometryZRanges_ dp ∧
    sceneZRangeTemp_ dp' = sceneZRangeTemp_ dp ∧
    geometryLighting_ dp' = geometryLighting_ dp.
Proof.
  intros Hindex Hpositive Hfar. unfold ProcessVisibleDrawable.
  destruct (lookup_lt_is_Some_2 _ _ Hindex) as [updated ->]. simpl.
  rewrite (fgt_true _ _ Hpositive), (fgt_true _ _ Hfar). simpl.
  eexists. repeat split; auto.
Qed.

(** C8.  With a light index that is not below the number of visible lights
    [ProcessForwardLighting] returns after logging one error: the light
    accumulators, and everything else but the log, are as before. *)
Theorem ProcessForwardLighting_invalid_index lightIndex (litGeometries : list Drawable)
    (dp : DrawableProcessor) :
  (length (visibleLights_ dp) ≤ lightIndex)%nat →
  ∃ dp',
    ProcessForwardLighting lightIndex litGeometries dp = Some dp' ∧
    geometryLighting_ dp' = geometryLighting_ dp ∧
    log_ dp' = log_ dp ++ [{| log_level_ := LOG_ERROR;
                              log_format_ := "Invalid light index {}";
                              log_argument_ := lightIndex |}] ∧
    dp' = set_log_ (log_ dp') dp.
Proof.
  intros Hindex. unfold ProcessForwardLighting.
  rewrite decide_True by exact Hindex.
  eexists. repeat split; reflexivity.
Qed.

(** *** The start of a frame *)

Lemma Elements_replicate_nil {A} n : Elements (replicate n (@nil A)) = [].
Proof. unfold Elements. induction n as [|n IH]; simpl; [reflexivity|exact IH]. Qed.

(** [OnUpdateBegin] sizes the containers, leaves no visible light behind
    and zeroes the render flags. *)
Lemma OnUpdateBegin_FrameSized frameInfo (dp : DrawableProcessor) :
  Forall (passSized (frame_numThreads_ frameInfo)) (passes_ dp) →
  FrameSized (frame_numThreads_ frameInfo) (frame_numDrawables_ frameInfo)
    (OnUpdateBegin frameInfo dp) ∧
  Elements (visibleLightsTemp_ (OnUpdateBegin frameInfo dp)) = [] ∧
  ∀ i, (i < frame_numDrawables_ frameInfo)%nat →
       geometryFlags_ (OnUpdateBegin frameInfo dp) !! i = Some 0%N.
Proof.
  intros Hpasses. unfold FrameSized, OnUpdateBegin. simpl.
  rewrite !length_replicate, !length_resize.
  repeat split; try assumption.
  - apply Elements_replicate_nil.
  - intros i Hi. apply lookup_replicate_2. exact Hi.
Qed.

(** *** Per-thread containers *)

Lemma PushBack_total {A} threadIndex (value : A) (c : list (list A)) :
  (threadIndex < length c)%nat →
  ∃ c', PushBack threadIndex value c = Some c' ∧ length c' = length c ∧
        Elements c' ≡ₚ value :: Elements c.
Proof.
  intros Hlt. unfold PushBack.
  destruct (lookup_lt_is_Some_2 _ _ Hlt) as [v Hv]. rewrite Hv. simpl.
  eexists. split; [reflexivity|]. split; [apply length_insert|].
  clear Hlt. revert threadIndex Hv. unfold Elements.
  induction c as [|v0 c IH]; intros [|threadIndex] Hv; simpl in *; try discriminate.
  - injection Hv as ->. rewrite <- app_assoc. simpl.
    symmetry. apply Permutation_middle.
  - rewrite (IH _ Hv). symmetry. apply Permutation_middle.
Qed.

(** *** Batches of the passes *)

Lemma AddBatch_total numThreads threadIndex (drawable : Drawable) i technique pass :
  (threadIndex < numThreads)%nat → passSized numThreads pass →
  ∃ result pass', AddBatch threadIndex drawable i technique pass = Some (result, pass') ∧
                  passSized numThreads pass'.
Proof.
  intros Hlt Hsized. unfold AddBatch, passSized in *.
  destruct (Technique_GetPass technique (unlitBasePassIndex_ pass)) as [unlit|]; [|eauto].
  match goal with |- context [PushBack threadIndex ?b ?c] =>
    destruct (PushBack_total threadIndex b c) as (batches & -> & Hlen & _) end.
  { rewrite Hsized. exact Hlt. }
  simpl. eexists _, _. split; [reflexivity|]. simpl. congruence.
Qed.

Lemma AddBatchToPasses_total numThreads threadIndex (drawable : Drawable) i technique passes :
  (threadIndex < numThreads)%nat → Forall (passSized numThreads) passes →
  ∀ flags, ∃ passes' flags',
    AddBatchToPasses threadIndex drawable i technique passes flags = Some (passes', flags') ∧
    Forall (passSized numThreads) passes'.
Proof.
  intros Hlt. induction 1 as [|pass passes Hpass _ IH]; intros flags; simpl.
  { eauto. }
  destruct (AddBatch_total numThreads threadIndex drawable i technique pass Hlt Hpass)
    as (result & pass' & -> & Hpass').
  simpl.
  match goal with |- context [AddBatchToPasses _ _ _ _ _ ?f] =>
    destruct (IH f) as (passes' & flags' & -> & Hpasses') end.
  simpl. eauto.
Qed.

Lemma CollectBatches_total numThreads defaultMaterial materialQuality threadIndex
    (drawable : Drawable) sourceBatches :
  (threadIndex < numThreads)%nat →
  ∀ i passes flags, Forall (passSized numThreads) passes →
  ∃ passes' flags',
    CollectBatches defaultMaterial materialQuality threadIndex drawable i sourceBatches
      passes flags = Some (passes', flags') ∧
    Forall (passSized numThreads) passes'.
Proof.
  intros Hlt. induction sourceBatches as [|sourceBatch rest IH]; intros i passes flags Hpasses;
    simpl.
  { eauto. }
  destruct (FindTechnique _ drawable materialQuality) as [technique|]; [|apply IH; exact Hpasses].
  destruct (AddBatchToPasses_total numThreads threadIndex drawable i technique passes Hlt
              Hpasses flags) as (passes' & flags' & -> & Hpasses').
  simpl. apply IH. exact Hpasses'.
Qed.

(** *** One drawable *)

Ltac step_lookup :=
  match goal with
  | |- context [mbind _ (?l !! ?i)] =>
      let Hs := fresh "Hlookup" in
      destruct (lookup_lt_is_Some_2 l i ltac:(simpl; rewrite ?length_insert; lia)) as [? Hs];
      rewrite Hs; simpl
  end.

Ltac step_push :=
  match goal with
  | |- context [PushBack ?t ?x ?c] =>
      let Hlen := fresh "Hlen" in
      destruct (PushBack_total t x c ltac:(simpl; rewrite ?length_insert; lia))
        as (? & -> & Hlen & _); simpl
  end.

Ltac frame_sized :=
  unfold FrameSized; simpl; rewrite ?length_insert; repeat split; auto; try congruence.

Lemma ProcessVisibleGeometry_total numThreads numDrawables threadIndex (drawable : Drawable)
    (dp : DrawableProcessor) :
  FrameSized numThreads numDrawables dp →
  (threadIndex < numThreads)%nat →
  (drawableIndex_ drawable < numDrawables)%nat →
  ∃ dp', ProcessVisibleGeometry threadIndex drawable dp = Some dp' ∧
         FrameSized numThreads numDrawables dp' ∧
         visibleLightsTemp_ dp' = visibleLightsTemp_ dp.
Proof.
  intros (Hu & Hf & Hz & Hl & Hzt & Hvg & Htg & Hng & Hvl & Hp) Hthread Hindex.
  unfold ProcessVisibleGeometry. step_lookup.
  destruct (CollectBatches_total numThreads (defaultMaterial_ dp) (materialQuality_ dp)
              threadIndex drawable (batches_ drawable) Hthread 0 (passes_ dp) (false, false) Hp)
    as (passes' & [isForwardLit needAmbient] & Hcollect & Hp').
  destruct (FloatRange_IsValid _); simpl.
  - step_lookup. rewrite Hcollect. simpl.
    destruct needAmbient; simpl.
    + step_lookup. step_push. step_lookup.
      unfold QueueDrawableGeometryUpdate.
      destruct (updateGeometryType_ drawable); simpl; step_push;
        (eexists; split; [reflexivity|]; split; [frame_sized|reflexivity]).
    + step_push. step_lookup.
      unfold QueueDrawableGeometryUpdate.
      destruct (updateGeometryType_ drawable); simpl; step_push;
        (eexists; split; [reflexivity|]; split; [frame_sized|reflexivity]).
  - rewrite Hcollect. simpl.
    destruct needAmbient; simpl.
    + step_lookup. step_push. step_lookup.
      unfold QueueDrawableGeometryUpdate.
      destruct (updateGeometryType_ drawable); simpl; step_push;
        (eexists; split; [reflexivity|]; split; [frame_sized|reflexivity]).
    + step_push. step_lookup.
      unfold QueueDrawableGeometryUpdate.
      destruct (updateGeometryType_ drawable); simpl; step_push;
        (eexists; split; [reflexivity|]; split; [frame_sized|reflexivity]).
Qed.

Lemma visibleLightsOf_cons (drawable : Drawable) drawables :
  visibleLightsOf (drawable :: drawables)
  = (if isVisibleLight drawable then [asLight_ drawable] else []) ++ visibleLightsOf drawables.
Proof.
  unfold visibleLightsOf. rewrite filter_cons.
  destruct (decide (isVisibleLight drawable = true)) as [->|Hno]; [reflexivity|].
  destruct (isVisibleLight drawable); [congruence|reflexivity].
Qed.

Lemma ProcessVisibleDrawable_total numThreads numDrawables threadIndex (drawable : Drawable)
    (dp : DrawableProcessor) :
  FrameSized numThreads numDrawables dp →
  (threadIndex < numThreads)%nat →
  (drawableIndex_ drawable < numDrawables)%nat →
  ∃ dp', ProcessVisibleDrawable threadIndex drawable dp = Some dp' ∧
         FrameSized numThreads numDrawables dp' ∧
         Elements (visibleLightsTemp_ dp')
         ≡ₚ (if isVisibleLight drawable then [asLight_ drawable] else [])
            ++ Elements (visibleLightsTemp_ dp).
Proof.
  intros Hsized Hthread Hindex.
  pose proof Hsized as (Hu & Hf & Hz & Hl & Hzt & Hvg & Htg & Hng & Hvl & Hp).
  unfold ProcessVisibleDrawable, isVisibleLight. step_lookup.
  destruct (fgt (drawDistance_ drawable) 0 && fgt (distance_ drawable) (drawDistance_ drawable));
    simpl.
  { eexists. split; [reflexivity|]. split; [frame_sized|reflexivity]. }
  destruct (testFlag (drawableFlags_ drawable) DRAWABLE_GEOMETRY); simpl.
  { match goal with |- context [ProcessVisibleGeometry _ _ ?dp0] =>
      destruct (ProcessVisibleGeometry_total numThreads numDrawables threadIndex drawable dp0)
        as (dp' & -> & Hsized' & Hlights) end; [frame_sized|exact Hthread|exact Hindex|].
    exists dp'. split; [reflexivity|]. split; [exact Hsized'|]. rewrite Hlights. reflexivity. }
  destruct (testFlag (drawableFlags_ drawable) DRAWABLE_LIGHT); simpl.
  2:{ eexists. split; [reflexivity|]. split; [frame_sized|reflexivity]. }
  destruct (negb (effectiveColorIsBlack_ (asLight_ drawable))); simpl.
  2:{ eexists. split; [reflexivity|]. split; [frame_sized|reflexivity]. }
  destruct (negb (lightMaskEffective_ (asLight_ drawable) =? 0)%N); simpl.
  2:{ eexists. split; [reflexivity|]. split; [frame_sized|reflexivity]. }
  destruct (PushBack_total threadIndex (asLight_ drawable) (visibleLightsTemp_ dp)
              ltac:(lia)) as (lights & -> & Hlen & Hperm).
  simpl. eexists. split; [reflexivity|]. split; [frame_sized|exact Hperm].
Qed.

(** *** A whole run *)

Lemma ForEachParallel_total numThreads numDrawables (schedule : list (nat * Drawable)) :
  ∀ dp : DrawableProcessor,
  FrameSized numThreads numDrawables dp →
  ScheduleInRange numThreads numDrawables schedule →
  ∃ dp', ForEachParallel schedule dp = Some dp' ∧
         FrameSized numThreads numDrawables dp' ∧
         Elements (visibleLightsTemp_ dp')
         ≡ₚ visibleLightsOf schedule.*2 ++ Elements (visibleLightsTemp_ dp).
Proof.
  induction schedule as [|[threadIndex drawable] rest IH]; intros dp Hsized Hrange; simpl.
  { exists dp. auto. }
  apply Forall_cons in Hrange as [[Hthread Hindex] Hrest]. simpl in Hthread, Hindex.
  destruct (ProcessVisibleDrawable_total numThreads numDrawables threadIndex drawable dp
              Hsized Hthread Hindex) as (dp1 & -> & Hsized1 & Hlights1).
  simpl. destruct (IH dp1 Hsized1 Hrest) as (dp' & -> & Hsized' & Hlights').
  exists dp'. split; [reflexivity|]. split; [exact Hsized'|].
  rewrite Hlights', Hlights1, visibleLightsOf_cons, !app_assoc.
  apply Permutation_app; [apply Permutation_app_comm|reflexivity].
Qed.

(** *** Sorting by component ID *)

Lemma sorted_insert_Permutation (light : Light) lights :
  sorted_insert compareID light lights ≡ₚ light :: lights.
Proof.
  induction lights as [|y lights IH]; simpl; [reflexivity|].
  destruct (compareID light y); [reflexivity|].
  rewrite IH. apply perm_swap.
Qed.

Lemma ea_sort_Permutation (lights : list Light) : ea_sort compareID lights ≡ₚ lights.
Proof.
  induction lights as [|light lights IH]; simpl; [reflexivity|].
  rewrite sorted_insert_Permutation, IH. reflexivity.
Qed.

Lemma sorted_insert_HdRel (x light : Light) lights :
  ascendingID x light → HdRel ascendingID x lights →
  HdRel ascendingID x (sorted_insert compareID light lights).
Proof.
  intros Hx Hhd. destruct lights as [|y lights]; simpl.
  - constructor. exact Hx.
  - destruct (compareID light y); constructor; [exact Hx|].
    inversion Hhd. assumption.
Qed.

Lemma sorted_insert_Sorted (light : Light) lights :
  Sorted ascendingID lights → Sorted ascendingID (sorted_insert compareID light lights).
Proof.
  induction 1 as [|y lights Hsorted IH Hhd]; simpl.
  - repeat constructor.
  - unfold compareID. destruct (N.ltb_spec (light_ID light) (light_ID y)) as [Hlt|Hge].
    + constructor; [constructor; assumption|]. constructor. unfold ascendingID. lia.
    + constructor; [exact IH|]. apply sorted_insert_HdRel; assumption.
Qed.

Lemma ea_sort_Sorted (lights : list Light) : Sorted ascendingID (ea_sort compareID lights).
Proof.
  induction lights as [|light lights IH]; simpl; [constructor|].
  apply sorted_insert_Sorted. exact IH.
Qed.

#[local] Instance ascendingID_Transitive : Transitive ascendingID.
Proof. intros a b c. unfold ascendingID. lia. Qed.

(** Lights with pairwise distinct IDs are told apart by their ID. *)
Lemma NoDup_ID_inj (lights : list Light) (a b : Light) :
  NoDup (light_ID <$> lights) → a ∈ lights → b ∈ lights → light_ID a = light_ID b → a = b.
Proof.
  induction lights as [|c lights IH]; simpl; intros Hnodup Ha Hb Hid.
  { inversion Ha. }
  apply NoDup_cons in Hnodup as [Hnotin Hnodup].
  apply elem_of_cons in Ha as [->|Ha]; apply elem_of_cons in Hb as [->|Hb]; auto.
  - exfalso. apply Hnotin. rewrite Hid. apply list_elem_of_fmap_2. exact Hb.
  - exfalso. apply Hnotin. rewrite <- Hid. apply list_elem_of_fmap_2. exact Ha.
Qed.

Lemma CollectLightProcessors_IDs (lights : list Light) cache :
  (CollectLightProcessors lights cache).1 = light_ID <$> lights.
Proof.
  revert cache. induction lights as [|light lights IH]; intros cache; simpl; [reflexivity|].
  unfold GetLightProcessor.
  destruct (cache !! light_ID light).
  - specialize (IH cache). destruct (CollectLightProcessors lights cache). simpl in *.
    f_equal. exact IH.
  - match goal with |- context [CollectLightProcessors lights ?c] =>
      specialize (IH c); destruct (CollectLightProcessors lights c) end.
    simpl in *. f_equal. exact IH.
Qed.

Lemma ProcessVisibleDrawables_total numThreads numDrawables
    (schedule : list (nat * Drawable)) (dp : DrawableProcessor) :
  FrameSized numThreads numDrawables dp →
  Elements (visibleLightsTemp_ dp) = [] →
  ScheduleInRange numThreads numDrawables schedule →
  ∃ dp',
    ProcessVisibleDrawables schedule dp = Some dp' ∧
    visibleLights_ dp' ≡ₚ visibleLightsOf schedule.*2 ∧
    Sorted ascendingID (visibleLights_ dp') ∧
    lightProcessors_ dp' = light_ID <$> visibleLights_ dp'.
Proof.
  intros Hsized Hempty Hrange. unfold ProcessVisibleDrawables.
  destruct (ForEachParallel_total numThreads numDrawables schedule dp Hsized Hrange)
    as (dp1 & -> & _ & Hlights).
  simpl. rewrite Hempty, app_nil_r in Hlights.
  pose proof (CollectLightProcessors_IDs
    (ea_sort compareID (Elements (visibleLightsTemp_ dp1))) (lightProcessorCache_ dp1)) as Hids.
  destruct (CollectLightProcessors _ _) as [processors cache]. simpl in Hids.
  eexists. split; [reflexivity|]. simpl. repeat split.
  - rewrite ea_sort_Permutation. exact Hlights.
  - apply ea_sort_Sorted.
  - exact Hids.
Qed.

(** C9.  [ProcessVisibleDrawables] returns with a visible-light list that
    holds exactly the visible lights among the drawables it was given, each
    once when their component IDs are pairwise distinct, in ascending order
    of component ID; the light-processor list follows the light list.  Two
    runs over the same drawables, whichever thread took which drawable and
    in whichever order, end with the same visible-light list and the same
    light-processor list. *)
Theorem ProcessVisibleDrawables_visibleLights numThreads numDrawables
    (schedule1 schedule2 : list (nat * Drawable)) (dp : DrawableProcessor) :
  FrameSized numThreads numDrawables dp →
  Elements (visibleLightsTemp_ dp) = [] →
  ScheduleInRange numThreads numDrawables schedule1 →
  ScheduleInRange numThreads numDrawables schedule2 →
  schedule2.*2 ≡ₚ schedule1.*2 →
  NoDup (light_ID <$> visibleLightsOf schedule1.*2) →
  ∃ dp1 dp2,
    ProcessVisibleDrawables schedule1 dp = Some dp1 ∧
    ProcessVisibleDrawables schedule2 dp = Some dp2 ∧
    visibleLights_ dp1 ≡ₚ visibleLightsOf schedule1.*2 ∧
    NoDup (visibleLights_ dp1) ∧
    Sorted ascendingID (visibleLights_ dp1) ∧
    visibleLights_ dp2 = visibleLights_ dp1 ∧
    lightProcessors_ dp1 = light_ID <$> visibleLights_ dp1 ∧
    lightProcessors_ dp2 = lightProcessors_ dp1.
Proof.
  intros Hsized Hempty Hrange1 Hrange2 Hsame Hnodup.
  destruct (ProcessVisibleDrawables_total numThreads numDrawables schedule1 dp
              Hsized Hempty Hrange1) as (dp1 & Hrun1 & Hperm1 & Hsorted1 & Hproc1).
  destruct (ProcessVisibleDrawables_total numThreads numDrawables schedule2 dp
              Hsized Hempty Hrange2) as (dp2 & Hrun2 & Hperm2 & Hsorted2 & Hproc2).
  assert (Hperm21 : visibleLights_ dp2 ≡ₚ visibleLights_ dp1).
  { rewrite Hperm1, Hperm2. unfold visibleLightsOf. rewrite Hsame. reflexivity. }
  assert (Heq : visibleLights_ dp2 = visibleLights_ dp1).
  { apply (Sorted_unique_strong ascendingID); [|assumption..].
    intros a b Ha Hb Hab Hba.
    apply (NoDup_ID_inj (visibleLightsOf schedule1.*2)); [exact Hnodup| | |].
    - rewrite <- Hperm1, <- Hperm21. exact Ha.
    - rewrite <- Hperm1. exact Hb.
    - unfold ascendingID in *. lia. }
  exists dp1, dp2. repeat split; try assumption.
  - rewrite Hperm1. apply (NoDup_fmap_1 light_ID). exact Hnodup.
  - rewrite Hproc2, Hproc1, Heq. reflexivity.
Qed.

End DrawableProcessorFacts.

Section DrawableProcessorScenes.
Import DrawableProcessor Scenes.
#[local] Existing Instance Line.externals.
#[local] Existing Instance Line.sceneExternals.

Lemma ProcessVisibleDrawable_beyond_drawDistance_witness :
  ∃ dp',
    ProcessVisibleDrawable 0 farGeometry frameStart = Some dp' ∧
    visibleGeometries_ dp' = visibleGeometries_ frameStart ∧
    visibleLightsTemp_ dp' = visibleLightsTemp_ frameStart ∧
    geometryFlags_ dp' = geometryFlags_ frameStart ∧
    (geometryFlags_ frameStart !! 0%nat = Some 0%N → geometryFlags_ dp' !! 0%nat = Some 0%N) ∧
    passes_ dp' = passes_ frameStart ∧
    threadedGeometryUpdates_ dp' = threadedGeometryUpdates_ frameStart ∧
    nonThreadedGeometryUpdates_ dp' = nonThreadedGeometryUpdates_ frameStart ∧
    geometryZRanges_ dp' = geometryZRanges_ frameStart ∧
    sceneZRangeTemp_ dp' = sceneZRangeTemp_ frameStart ∧
    geometryLighting_ dp' = geometryLighting_ frameStart.
Proof.
  apply (ProcessVisibleDrawable_beyond_drawDistance 0 farGeometry frameStart).
  - simpl. lia.
  - reflexivity.
  - reflexivity.
Defined.

(** The same geometry within its draw distance becomes visible, lit and
    forward lit, with one batch in the pass. *)
Example nearGeometry_is_visible :
  (λ dp', (drawableIndex_ <$> Elements (visibleGeometries_ dp'), geometryFlags_ dp',
           length <$> (Elements <$> (geometryBatches_ <$> passes_ dp'))))
    <$> ProcessVisibleDrawable 0 nearGeometry frameStart
  = Some ([0%nat], [7%N; 0%N; 0%N], [1%nat]).
Proof. vm_compute. reflexivity. Qed.

Lemma ProcessForwardLighting_invalid_index_witness :
  ∃ dp',
    ProcessForwardLighting 0 [nearGeometry] frameStart = Some dp' ∧
    geometryLighting_ dp' = geometryLighting_ frameStart ∧
    log_ dp' = log_ frameStart ++ [{| log_level_ := LOG_ERROR;
                                      log_format_ := "Invalid light index {}";
                                      log_argument_ := 0 |}] ∧
    dp' = set_log_ (log_ dp') frameStart.
Proof.
  apply (ProcessForwardLighting_invalid_index 0 [nearGeometry] frameStart).
  simpl. lia.
Defined.

Lemma ProcessVisibleDrawables_visibleLights_witness :
  ∃ dp1 dp2,
    ProcessVisibleDrawables firstRun frameStart = Some dp1 ∧
    ProcessVisibleDrawables secondRun frameStart = Some dp2 ∧
    visibleLights_ dp1 ≡ₚ Spec.visibleLightsOf firstRun.*2 ∧
    NoDup (visibleLights_ dp1) ∧
    Sorted Spec.ascendingID (visibleLights_ dp1) ∧
    visibleLights_ dp2 = visibleLights_ dp1 ∧
    lightProcessors_ dp1 = light_ID <$> visibleLights_ dp1 ∧
    lightProcessors_ dp2 = lightProcessors_ dp1.
Proof.
  apply (ProcessVisibleDrawables_visibleLights 2 3 firstRun secondRun frameStart).
  - repeat split; try reflexivity. repeat constructor.
  - reflexivity.
  - repeat constructor; simpl; lia.
  - repeat constructor; simpl; lia.
  - simpl. apply (Permutation_app_comm [lightDrawable 2 3; nearGeometry] [lightDrawable 1 7]).
  - apply (bool_decide_unpack _). vm_compute. exact I.
Defined.

(** Both runs list the light with ID 3 before the light with ID 7. *)
Example firstRun_secondRun_lights :
  (λ dp', (light_ID <$> visibleLights_ dp', lightProcessors_ dp'))
    <$> ProcessVisibleDrawables firstRun frameStart = Some ([3%N; 7%N], [3%N; 7%N]) ∧
  (λ dp', (light_ID <$> visibleLights_ dp', lightProcessors_ dp'))
    <$> ProcessVisibleDrawables secondRun frameStart = Some ([3%N; 7%N], [3%N; 7%N]).
Proof. vm_compute. split; reflexivity. Qed.

End DrawableProcessorScenes.

(** * Further properties of the light processor *)

Section FloatFacts.

Lemma flt_lt (a b : Q) : flt a b = true ↔ (a < b)%Q.
Proof.
  unfold flt. rewrite negb_true_iff. split.
  - intros Hb. apply Qnot_le_lt. intros Hle. apply Qle_bool_iff in Hle. congruence.
  - intros Hlt. destruct (Qle_bool b a) eqn:Hb; [|reflexivity].
    apply Qle_bool_iff in Hb. exfalso. exact (Qlt_not_le _ _ Hlt Hb).
Qed.

Lemma flt_nlt (a b : Q) : flt a b = false ↔ (b <= a)%Q.
Proof. unfold flt. rewrite negb_false_iff. apply Qle_bool_iff. Qed.

Lemma fle_le (a b : Q) : fle a b = true ↔ (a <= b)%Q.
Proof. apply Qle_bool_iff. Qed.

Lemma fle_nle (a b : Q) : fle a b = false ↔ (b < a)%Q.
Proof.
  unfold fle. split.
  - intros Hb. apply Qnot_le_lt. intros Hle. apply Qle_bool_iff in Hle. congruence.
  - intros Hlt. destruct (Qle_bool a b) eqn:Hb; [|reflexivity].
    apply Qle_bool_iff in Hb. exfalso. exact (Qlt_not_le _ _ Hlt Hb).
Qed.

Lemma Min_le_l (a b : Q) : (Min a b <= a)%Q.
Proof.
  unfold Min. destruct (flt a b) eqn:Hlt; [apply Qle_refl|].
  apply flt_nlt in Hlt. exact Hlt.
Qed.

Lemma Max_ge_l (a b : Q) : (a <= Max a b)%Q.
Proof.
  unfold Max, fgt. destruct (flt b a) eqn:Hlt; [apply Qle_refl|].
  apply flt_nlt in Hlt. exact Hlt.
Qed.

End FloatFacts.

Section LightProcessorMore.
Context `{Externals}.
Import LightProcessor Spec.

(** *** Shadow map size *)

Lemma any_of_hasShadowCaster_true (splits : list SceneLightShadowSplit) :
  Exists (λ split, shadowCasters_ split ≠ []) splits →
  any_of hasShadowCaster splits = true.
Proof.
  induction 1 as [split splits Hsplit|split splits _ IH]; simpl.
  - unfold hasShadowCaster at 1. rewrite (bool_decide_eq_false_2 _ Hsplit). reflexivity.
  - rewrite IH. apply orb_true_r.
Qed.

(** With a shadow caster in some active split, [FinalizeShadowMap] keeps
    the shadow and sizes the shadow map as a grid of equal splits, 256
    texels wide for a point light and 512 otherwise.  For the split counts
    that [SetupShadowCameras] produces (up to four cascades, or six cube
    faces) the grid has room for every active split; five splits would get
    a grid of two by two. *)
Theorem FinalizeShadowMap_with_caster (lp : LightProcessor) :
  hasShadow_ lp = true →
  (numSplits_ lp ≤ length (splits_ lp))%nat →
  (numSplits_ lp ≤ MAX_CASCADE_SPLITS)%nat ∨ numSplits_ lp = MAX_CUBEMAP_FACES →
  Exists (λ split, shadowCasters_ split ≠ []) (take (numSplits_ lp) (splits_ lp)) →
  ∃ lp',
    FinalizeShadowMap lp = Some lp' ∧
    hasShadow_ lp' = true ∧
    numSplits_ lp' = numSplits_ lp ∧
    splits_ lp' = splits_ lp ∧
    shadowMapSplitSize_ lp'
    = (if decide (lightType_ (light_ lp) = LIGHT_POINT) then 256 else 512)%Z ∧
    shadowMapSize_ lp'
    = (shadowMapSplitSize_ lp' * (GetSplitsGridSize lp).1,
       shadowMapSplitSize_ lp' * (GetSplitsGridSize lp).2)%Z ∧
    (Z.of_nat (numSplits_ lp) * (shadowMapSplitSize_ lp' * shadowMapSplitSize_ lp')
     ≤ (shadowMapSize_ lp').1 * (shadowMapSize_ lp').2)%Z.
Proof.
  intros Hshadow Hlen Hmax Hcaster. unfold FinalizeShadowMap.
  rewrite Hshadow. simpl. rewrite decide_True by exact Hlen.
  rewrite any_of_hasShadowCaster_true by exact Hcaster. simpl.
  eexists. split; [reflexivity|]. simpl.
  assert (Hgrid : (Z.of_nat (numSplits_ lp)
                   ≤ (GetSplitsGridSize lp).1 * (GetSplitsGridSize lp).2)%Z).
  { unfold GetSplitsGridSize, MAX_CASCADE_SPLITS, MAX_CUBEMAP_FACES in *.
    repeat case_decide; simpl; lia. }
  repeat split.
  - exact Hshadow.
  - repeat case_decide; congruence.
  - case_decide; nia.
Qed.

(** Finalizing the shadow map twice is the same as finalizing it once. *)
Theorem FinalizeShadowMap_idempotent (lp : LightProcessor) :
  FinalizeShadowMap lp ≫= FinalizeShadowMap = FinalizeShadowMap lp.
Proof.
  unfold FinalizeShadowMap at 2 3.
  destruct (hasShadow_ lp) eqn:Hshadow; simpl.
  2:{ unfold FinalizeShadowMap. rewrite Hshadow. reflexivity. }
  case_decide as Hlen; [|reflexivity].
  destruct (any_of hasShadowCaster (take (numSplits_ lp) (splits_ lp))) eqn:Hany; simpl.
  - unfold FinalizeShadowMap. simpl. rewrite Hshadow. simpl.
    rewrite decide_True by exact Hlen. rewrite Hany. simpl. reflexivity.
  - unfold FinalizeShadowMap. simpl. reflexivity.
Qed.

(** *** Shadow camera of one split *)

Lemma SetupDirLightShadowCamera_inv light ctx (ds : list Drawable) split split' :
  SetupDirLightShadowCamera light ctx ds split = Some split' →
  zRange_ split' = zRange_ split ∧
  shadowCasters_ split' = shadowCasters_ split ∧
  shadowCasterBatches_ split' = shadowCasterBatches_ split ∧
  ∃ c c', shadowCamera_ split = Some c ∧ shadowCamera_ split' = Some c' ∧
          orthographic_ c' = true ∧ zoom_ c' = zoom_ c ∧ nearClip_ c' = 0%Q.
Proof.
  unfold SetupDirLightShadowCamera. intros Hrun.
  destruct (shadowCamera_ split) as [c|] eqn:Hc; [|discriminate]. simpl in Hrun.
  destruct (SplitFrustumVolume _ _ _ _) as [v|]; [|discriminate]. simpl in Hrun.
  destruct (FitShadowBox _ v) as [[[[minX minY] maxX] maxY] maxZ].
  injection Hrun as <-. simpl. repeat split. eauto 10.
Qed.

(** What the directional loop leaves behind when it returns: it activates
    [k] splits from index [i] on and touches no other split. *)
Lemma SetupDirSplits_inv ctx remaining : ∀ i nearSplit (lp lp' : LightProcessor),
  SetupDirSplits ctx remaining i nearSplit lp = Some lp' →
  ∃ k,
    numSplits_ lp' = (numSplits_ lp + k)%nat ∧
    length (splits_ lp') = length (splits_ lp) ∧
    (∀ j, (j < i ∨ i + k ≤ j)%nat → splits_ lp' !! j = splits_ lp !! j) ∧
    (∀ j, (i ≤ j < i + k)%nat → ∃ split old c,
        splits_ lp' !! j = Some split ∧ splits_ lp !! j = Some old ∧
        shadowCasters_ split = shadowCasters_ old ∧
        shadowCamera_ split = Some c ∧
        orthographic_ c = true ∧ zoom_ c = 1%Q ∧ nearClip_ c = 0%Q ∧
        (first (zRange_ split) < second (zRange_ split))%Q ∧
        (second (zRange_ split) <= cull_farClip_ ctx)%Q) ∧
    ((0 < k)%nat →
     ∃ split, splits_ lp' !! i = Some split ∧ first (zRange_ split) = nearSplit) ∧
    (∀ j s s', (i ≤ j)%nat → (S j < i + k)%nat →
       splits_ lp' !! j = Some s → splits_ lp' !! S j = Some s' →
       first (zRange_ s') = second (zRange_ s)).
Proof.
  induction remaining as [|remaining IH]; intros i nearSplit lp lp' Hrun; simpl in Hrun.
  { injection Hrun as <-. exists 0%nat. repeat split; auto with lia; intros; lia. }
  destruct (fgt nearSplit (cull_farClip_ ctx)) eqn:Hgt.
  { injection Hrun as <-. exists 0%nat. repeat split; auto with lia; intros; lia. }
  destruct (cascadeSplits_ (light_ lp) !! i) as [s|] eqn:Hs; [|discriminate].
  simpl in Hrun.
  destruct (fle (Min (cull_farClip_ ctx) s) nearSplit) eqn:Hle.
  { injection Hrun as <-. exists 0%nat. repeat split; auto with lia; intros; lia. }
  destruct (splits_ lp !! i) as [split|] eqn:Hsplit; [|discriminate]. simpl in Hrun.
  destruct (SetupDirLightShadowCamera _ _ _ _) as [split'|] eqn:Hcam; [|discriminate].
  simpl in Hrun.
  apply SetupDirLightShadowCamera_inv in Hcam
    as (Hz & Hcasters & _ & c & c' & Hc & Hc' & Hortho & Hzoom & Hnear).
  simpl in Hz, Hcasters, Hc. injection Hc as <-. simpl in Hzoom.
  apply IH in Hrun as (k & Hn & Hlen & Hout & Hin & Hfirst & Hchain).
  simpl in Hn, Hlen, Hout, Hin. rewrite length_insert in Hlen.
  assert (Hi : (i < length (splits_ lp))%nat) by (eapply lookup_lt_Some; exact Hsplit).
  assert (Hat : splits_ lp' !! i = Some split').
  { rewrite Hout by lia. apply list_lookup_insert_eq. exact Hi. }
  exists (S k). repeat split.
  - lia.
  - exact Hlen.
  - intros j Hj. rewrite Hout by lia. apply list_lookup_insert_ne. lia.
  - intros j Hj. destruct (decide (j = i)) as [->|Hne].
    + exists split', split, c'. rewrite Hz. simpl. repeat split; auto.
      * apply fle_nle. exact Hle.
      * apply Min_le_l.
    + destruct (Hin j ltac:(lia)) as (sj & old & cj & Hsj & Hold & Hrest).
      rewrite list_lookup_insert_ne in Hold by lia.
      exists sj, old, cj. auto.
  - intros _. exists split'. rewrite Hz. auto.
  - intros j sj sj' Hij Hjk Hsj Hsj'. destruct (decide (j = i)) as [->|Hne].
    + rewrite Hat in Hsj. injection Hsj as <-.
      destruct (Hfirst ltac:(lia)) as (s1 & Hs1 & Hfirst1).
      rewrite Hs1 in Hsj'. injection Hsj' as <-. rewrite Hfirst1, Hz. reflexivity.
    + apply (Hchain j sj sj'); auto with lia.
Qed.

(** The cube face loop sets up [remaining] perspective cameras from index
    [i] on and touches no other split. *)
Lemma SetupPointSplits_inv remaining : ∀ i (lp lp' : LightProcessor),
  SetupPointSplits remaining i lp = Some lp' →
  numSplits_ lp' = numSplits_ lp ∧
  length (splits_ lp') = length (splits_ lp) ∧
  (∀ j, (j < i ∨ i + remaining ≤ j)%nat → splits_ lp' !! j = splits_ lp !! j) ∧
  (∀ j, (i ≤ j < i + remaining)%nat → ∃ split old c,
      splits_ lp' !! j = Some split ∧ splits_ lp !! j = Some old ∧
      shadowCasters_ split = shadowCasters_ old ∧
      shadowCamera_ split = Some c ∧
      orthographic_ c = false ∧ zoom_ c = 1%Q ∧
      nearClip_ c = (shadowNearFarRatio_ (light_ lp) * light_range_ (light_ lp))%Q ∧
      farClip_ c = light_range_ (light_ lp) ∧
      fov_ c = 90%Q ∧ aspectRatio_ c = 1%Q).
Proof.
  induction remaining as [|remaining IH]; intros i lp lp' Hrun; simpl in Hrun.
  { injection Hrun as <-. repeat split; auto; intros; lia. }
  destruct (splits_ lp !! i) as [split|] eqn:Hsplit; [|discriminate]. simpl in Hrun.
  apply IH in Hrun as (Hn & Hlen & Hout & Hin).
  simpl in Hn, Hlen, Hout, Hin. rewrite length_insert in Hlen.
  assert (Hi : (i < length (splits_ lp))%nat) by (eapply lookup_lt_Some; exact Hsplit).
  repeat split; auto.
  - intros j Hj. rewrite Hout by lia. apply list_lookup_insert_ne. lia.
  - intros j Hj. destruct (decide (j = i)) as [->|Hne].
    + rewrite Hout by lia. rewrite list_lookup_insert_eq by exact Hi.
      eexists _, split, _. repeat split; reflexivity || exact Hsplit.
    + destruct (Hin j ltac:(lia)) as (sj & old & cj & Hsj & Hold & Hrest).
      rewrite list_lookup_insert_ne in Hold by lia.
      exists sj, old, cj. auto.
Qed.

(** What [SetupShadowCameras] leaves behind when it returns: every active
    split holds a camera of the light's kind, and the splits beyond the
    active ones are as they were. *)
Lemma SetupShadowCameras_splits ctx (lp lp' : LightProcessor) :
  SetupShadowCameras ctx lp = Some lp' →
  length (splits_ lp') = length (splits_ lp) ∧
  (∀ j, (numSplits_ lp' ≤ j)%nat → splits_ lp' !! j = splits_ lp !! j) ∧
  (∀ j, (j < numSplits_ lp')%nat → ∃ split old c,
      splits_ lp' !! j = Some split ∧ splits_ lp !! j = Some old ∧
      shadowCasters_ split = shadowCasters_ old ∧
      shadowCamera_ split = Some c ∧ zoom_ c = 1%Q ∧
      match lightType_ (light_ lp) with
      | LIGHT_DIRECTIONAL => orthographic_ c = true ∧ nearClip_ c = 0%Q
      | LIGHT_SPOT =>
          orthographic_ c = false ∧
          nearClip_ c = (shadowNearFarRatio_ (light_ lp) * light_range_ (light_ lp))%Q ∧
          farClip_ c = light_range_ (light_ lp) ∧
          fov_ c = light_fov_ (light_ lp) ∧ aspectRatio_ c = light_aspectRatio_ (light_ lp)
      | LIGHT_POINT =>
          orthographic_ c = false ∧
          nearClip_ c = (shadowNearFarRatio_ (light_ lp) * light_range_ (light_ lp))%Q ∧
          farClip_ c = light_range_ (light_ lp) ∧
          fov_ c = 90%Q ∧ aspectRatio_ c = 1%Q
      end).
Proof.
  unfold SetupShadowCameras. intros Hrun.
  destruct (lightType_ (light_ lp)) eqn:Htype.
  - apply SetupDirSplits_inv in Hrun as (k & Hn & Hlen & Hout & Hin & _ & _).
    simpl in Hn, Hlen, Hout, Hin. rewrite Hn. split; [exact Hlen|split].
    + intros j Hj. apply Hout. lia.
    + intros j Hj. destruct (Hin j ltac:(lia))
        as (split & old & c & ? & ? & ? & ? & ? & ? & ? & ? & ?).
      exists split, old, c. auto 10.
  - destruct (splits_ lp !! 0%nat) as [split|] eqn:Hsplit; [|discriminate].
    simpl in Hrun. injection Hrun as <-. simpl.
    assert (Hi : (0 < length (splits_ lp))%nat) by (eapply lookup_lt_Some; exact Hsplit).
    rewrite length_insert. split; [reflexivity|split].
    + intros j Hj. apply list_lookup_insert_ne. lia.
    + intros j Hj. replace j with 0%nat by lia.
      rewrite list_lookup_insert_eq by exact Hi.
      eexists _, split, _. repeat split; reflexivity || exact Hsplit.
  - destruct (SetupPointSplits MAX_CUBEMAP_FACES 0 lp) as [lp1|] eqn:Hloop; [|discriminate].
    cbn [mbind option_bind] in Hrun. injection Hrun as <-. simpl.
    apply SetupPointSplits_inv in Hloop as (Hn & Hlen & Hout & Hin).
    split; [exact Hlen|split].
    + intros j Hj. apply Hout. lia.
    + intros j Hj. destruct (Hin j ltac:(lia))
        as (split & old & c & ? & ? & ? & ? & ? & ? & ? & ? & ? & ?).
      exists split, old, c. auto 10.
Qed.

(** For a directional light the depth ranges of the active splits tile the
    view depth from the near clip on: the first range starts at the camera
    near clip, each further range starts where the one before it ends, and
    every range is non-empty and ends at or before the far clip. *)
Theorem SetupShadowCameras_cascades_tile ctx (lp : LightProcessor) :
  lightType_ (light_ lp) = LIGHT_DIRECTIONAL →
  length (splits_ lp) = MAX_SPLITS →
  length (cascadeSplits_ (light_ lp)) = MAX_CASCADE_SPLITS →
  (numShadowSplits_ (light_ lp) ≤ MAX_CASCADE_SPLITS)%nat →
  Forall (λ d, drawableIndex_ d < length (dp_geometryZRanges_ ctx))%nat (litGeometries_ lp) →
  ∃ lp',
    SetupShadowCameras ctx lp = Some lp' ∧
    (∀ i, (i < numSplits_ lp')%nat → ∃ split,
        splits_ lp' !! i = Some split ∧
        (first (zRange_ split) < second (zRange_ split))%Q ∧
        (second (zRange_ split) <= cull_farClip_ ctx)%Q) ∧
    ((0 < numSplits_ lp')%nat → ∃ split,
        splits_ lp' !! 0%nat = Some split ∧ first (zRange_ split) = cull_nearClip_ ctx) ∧
    (∀ i s s', (S i < numSplits_ lp')%nat →
       splits_ lp' !! i = Some s → splits_ lp' !! S i = Some s' →
       first (zRange_ s') = second (zRange_ s)).
Proof.
  intros Htype Hsplits Htable Hreq Hlit. unfold SetupShadowCameras. rewrite Htype.
  destruct (SetupDirSplits_spec ctx (numShadowSplits_ (light_ lp)) 0 (cull_nearClip_ ctx)
    (set_numSplits 0 lp)) as (lp' & k0 & Hrun & _); simpl.
  - reflexivity.
  - rewrite Htable. exact Hreq.
  - rewrite Hsplits. unfold MAX_SPLITS, MAX_CASCADE_SPLITS in *. lia.
  - exact Hlit.
  - exists lp'. split; [exact Hrun|].
    apply SetupDirSplits_inv in Hrun as (k & Hn & _ & _ & Hin & Hfirst & Hchain).
    simpl in Hn. rewrite Hn. split; [|split].
    + intros i Hi. destruct (Hin i ltac:(lia))
        as (split & old & c & ? & ? & ? & ? & ? & ? & ? & ? & ?).
      exists split. auto.
    + exact Hfirst.
    + intros i s s' Hi. apply Hchain; lia.
Qed.

(** After [SetupShadowCameras] every active split holds a camera with zoom
    1: orthographic with near clip 0 for a directional light, perspective
    otherwise, then with the clip planes taken from the light's range and
    with the light's field of view for a spot light and 90 degrees at
    aspect ratio 1 for a cube face.  The splits beyond the active ones and
    the shadow caster lists are as they were. *)
Theorem SetupShadowCameras_cameras ctx (lp : LightProcessor) :
  length (splits_ lp) = MAX_SPLITS →
  length (cascadeSplits_ (light_ lp)) = MAX_CASCADE_SPLITS →
  (numShadowSplits_ (light_ lp) ≤ MAX_CASCADE_SPLITS)%nat →
  Forall (λ d, drawableIndex_ d < length (dp_geometryZRanges_ ctx))%nat (litGeometries_ lp) →
  ∃ lp',
    SetupShadowCameras ctx lp = Some lp' ∧
    length (splits_ lp') = MAX_SPLITS ∧
    (∀ j, (numSplits_ lp' ≤ j)%nat → splits_ lp' !! j = splits_ lp !! j) ∧
    (∀ j, (j < numSplits_ lp')%nat → ∃ split old c,
        splits_ lp' !! j = Some split ∧ splits_ lp !! j = Some old ∧
        shadowCasters_ split = shadowCasters_ old ∧
        shadowCamera_ split = Some c ∧ zoom_ c = 1%Q ∧
        match lightType_ (light_ lp) with
        | LIGHT_DIRECTIONAL => orthographic_ c = true ∧ nearClip_ c = 0%Q
        | LIGHT_SPOT =>
            orthographic_ c = false ∧
            nearClip_ c = (shadowNearFarRatio_ (light_ lp) * light_range_ (light_ lp))%Q ∧
            farClip_ c = light_range_ (light_ lp) ∧
            fov_ c = light_fov_ (light_ lp) ∧
            aspectRatio_ c = light_aspectRatio_ (light_ lp)
        | LIGHT_POINT =>
            orthographic_ c = false ∧
            nearClip_ c = (shadowNearFarRatio_ (light_ lp) * light_range_ (light_ lp))%Q ∧
            farClip_ c = light_range_ (light_ lp) ∧
            fov_ c = 90%Q ∧ aspectRatio_ c = 1%Q
        end).
Proof.
  intros Hsplits Htable Hreq Hlit.
  assert (Hsome : is_Some (SetupShadowCameras ctx lp)).
  { unfold SetupShadowCameras. destruct (lightType_ (light_ lp)).
    - destruct (SetupDirSplits_spec ctx (numShadowSplits_ (light_ lp)) 0 (cull_nearClip_ ctx)
        (set_numSplits 0 lp)) as (lp' & k0 & Hrun & _); simpl; eauto.
      + rewrite Htable. exact Hreq.
      + rewrite Hsplits. unfold MAX_SPLITS, MAX_CASCADE_SPLITS in *. lia.
    - unfold MAX_SPLITS in Hsplits.
      destruct (lookup_lt_is_Some_2 (splits_ lp) 0 ltac:(lia)) as [split ->]. simpl. eauto.
    - destruct (SetupPointSplits_spec MAX_CUBEMAP_FACES 0 lp) as (lp' & -> & _).
      { rewrite Hsplits. unfold MAX_SPLITS, MAX_CUBEMAP_FACES. lia. }
      cbn [mbind option_bind]. eauto. }
  destruct Hsome as [lp' Hrun]. exists lp'. split; [exact Hrun|].
  apply SetupShadowCameras_splits in Hrun as (Hlen & Hout & Hin).
  rewrite Hlen, Hsplits. auto.
Qed.

(** *** Handing over the shadow map *)

(** [FinalizeShadowCamera] on a split with a camera and a shadow map region
    of positive width returns; it changes the camera of the split and
    nothing else.  A zoom below 1 is kept, a zoom of at least 1 shrinks
    strictly, and for a light that is not directional the projection is
    otherwise kept as it was. *)
Theorem FinalizeShadowCamera_zoom light split camera :
  shadowCamera_ split = Some camera →
  (0 < IntRect_Width (region_ (split_shadowMap_ split)))%Z →
  ∃ split' camera',
    FinalizeShadowCamera light split = Some split' ∧
    shadowCamera_ split' = Some camera' ∧
    zRange_ split' = zRange_ split ∧
    split_shadowMap_ split' = split_shadowMap_ split ∧
    shadowCasters_ split' = shadowCasters_ split ∧
    shadowCasterBatches_ split' = shadowCasterBatches_ split ∧
    orthographic_ camera' = orthographic_ camera ∧
    nearClip_ camera' = nearClip_ camera ∧
    farClip_ camera' = farClip_ camera ∧
    fov_ camera' = fov_ camera ∧
    (lightType_ light ≠ LIGHT_DIRECTIONAL →
     aspectRatio_ camera' = aspectRatio_ camera ∧ orthoSize_ camera' = orthoSize_ camera) ∧
    ((zoom_ camera < 1)%Q → zoom_ camera' = zoom_ camera) ∧
    ((1 <= zoom_ camera)%Q → (zoom_ camera' < zoom_ camera)%Q).
Proof.
  intros Hcamera Hwidth. unfold FinalizeShadowCamera. rewrite Hcamera. simpl.
  set (w := inject_Z (IntRect_Width (region_ (split_shadowMap_ split)))).
  assert (Hw : (0 < w)%Q) by (unfold w; rewrite <- (Zlt_Qlt 0); exact Hwidth).
  set (camera1 := if decide (lightType_ light = LIGHT_DIRECTIONAL) then _ else camera).
  assert (H1 : orthographic_ camera1 = orthographic_ camera ∧
               nearClip_ camera1 = nearClip_ camera ∧ farClip_ camera1 = farClip_ camera ∧
               fov_ camera1 = fov_ camera ∧ zoom_ camera1 = zoom_ camera ∧
               (lightType_ light ≠ LIGHT_DIRECTIONAL → camera1 = camera)).
  { unfold camera1. case_decide; simpl; auto 10. repeat split; auto. contradiction. }
  destruct H1 as (Ho & Hn & Hf & Hfov & Hz & Hsame). clearbody camera1.
  eexists _, _. split; [reflexivity|]. split; [reflexivity|]. simpl.
  repeat split; auto.
  - destruct (fge _ 1); simpl; auto.
  - destruct (fge _ 1); simpl; auto.
  - destruct (fge _ 1); simpl; auto.
  - destruct (fge _ 1); simpl; auto.
  - destruct (fge _ 1); simpl; rewrite (Hsame H0); reflexivity.
  - destruct (fge _ 1); simpl; rewrite (Hsame H0); reflexivity.
  - intros Hlt. rewrite Hz. unfold fge.
    rewrite (proj2 (fle_nle 1 (zoom_ camera)) Hlt). exact Hz.
  - intros Hge. rewrite Hz. unfold fge.
    rewrite (proj2 (fle_le 1 (zoom_ camera)) Hge). simpl.
    assert (Hscale : ∀ b : Q, (0 < b)%Q → (zoom_ camera * ((w - b) / w) < zoom_ camera)%Q).
    { intros b Hb.
      assert (Hs : ((w - b) / w < 1)%Q) by (apply Qlt_shift_div_r; [exact Hw|lra]).
      nra. }
    case_decide; apply Hscale; reflexivity.
Qed.

(** The loop of [SetShadowMap], started at [splitIndex] on splits that have
    cameras, returns; it hands each of the [remaining] splits its region of
    the shadow map and finalizes its camera, and touches no other split. *)
Lemma InitializeSplitShadowMaps_spec shadowMap grid light remaining :
  ∀ splitIndex splits,
  (splitIndex + remaining ≤ length splits)%nat →
  (∀ j split, (splitIndex ≤ j < splitIndex + remaining)%nat →
     splits !! j = Some split → is_Some (shadowCamera_ split)) →
  ∃ splits',
    InitializeSplitShadowMaps shadowMap grid remaining splitIndex light splits = Some splits' ∧
    length splits' = length splits ∧
    (∀ j, (j < splitIndex ∨ splitIndex + remaining ≤ j)%nat → splits' !! j = splits !! j) ∧
    (∀ j, (splitIndex ≤ j < splitIndex + remaining)%nat → ∃ split split',
        splits !! j = Some split ∧ splits' !! j = Some split' ∧
        FinalizeShadowCamera light
          (set_split_shadowMap (ShadowMap_GetSplit shadowMap j grid) split) = Some split').
Proof.
  induction remaining as [|remaining IH]; intros i splits Hlen Hcameras; simpl.
  { exists splits. repeat split; auto; intros; lia. }
  destruct (lookup_lt_is_Some_2 splits i ltac:(lia)) as [split Hsplit].
  rewrite Hsplit. simpl.
  destruct (Hcameras i split ltac:(lia) Hsplit) as [camera Hcamera].
  assert (Hfinal : is_Some (FinalizeShadowCamera light
            (set_split_shadowMap (ShadowMap_GetSplit shadowMap i grid) split))).
  { unfold FinalizeShadowCamera. simpl. rewrite Hcamera. simpl. eauto. }
  destruct Hfinal as [split' Hsplit']. rewrite Hsplit'. simpl.
  destruct (IH (S i) (<[i := split']> splits)) as (splits' & Hrun & Hlen' & Hout & Hin).
  { rewrite length_insert. lia. }
  { intros j sj Hj Hsj. rewrite list_lookup_insert_ne in Hsj by lia.
    apply (Hcameras j sj); [lia|exact Hsj]. }
  rewrite length_insert in Hlen'.
  exists splits'. split; [exact Hrun|]. split; [exact Hlen'|]. split.
  - intros j Hj. rewrite Hout by lia. apply list_lookup_insert_ne. lia.
  - intros j Hj. destruct (decide (j = i)) as [->|Hne].
    + exists split, split'. rewrite Hout by lia.
      rewrite list_lookup_insert_eq by lia. auto.
    + destruct (Hin j ltac:(lia)) as (sj & sj' & Hsj & Hsj' & Hfin).
      rewrite list_lookup_insert_ne in Hsj by lia. eauto.
Qed.

Lemma FinalizeShadowCamera_inv light split split' :
  FinalizeShadowCamera light split = Some split' →
  zRange_ split' = zRange_ split ∧
  split_shadowMap_ split' = split_shadowMap_ split ∧
  shadowCasters_ split' = shadowCasters_ split ∧
  shadowCasterBatches_ split' = shadowCasterBatches_ split ∧
  is_Some (shadowCamera_ split').
Proof.
  unfold FinalizeShadowCamera. intros Hrun.
  destruct (shadowCamera_ split) as [c|]; [|discriminate]. simpl in Hrun.
  injection Hrun as <-. simpl. eauto 10.
Qed.

(** With an allocated shadow map, [SetShadowMap] on a light whose active
    splits have cameras returns and keeps the number of active splits; the
    light holds the shadow map, every active split holds the region that
    [ShadowMap::GetSplit] cuts out for its index in the grid of the active
    split count, and the depth ranges, the shadow casters and the splits
    beyond the active ones are as they were. *)
Theorem SetShadowMap_allocated (shadowMap : ShadowMap) (lp : LightProcessor) :
  is_Some (texture_ shadowMap) →
  (numSplits_ lp ≤ length (splits_ lp))%nat →
  (∀ j split, (j < numSplits_ lp)%nat →
     splits_ lp !! j = Some split → is_Some (shadowCamera_ split)) →
  ∃ lp',
    SetShadowMap shadowMap lp = Some lp' ∧
    numSplits_ lp' = numSplits_ lp ∧
    hasShadow_ lp' = hasShadow_ lp ∧
    shadowMap_ lp' = shadowMap ∧
    shadowMapSize_ lp' = shadowMapSize_ lp ∧
    length (splits_ lp') = length (splits_ lp) ∧
    (∀ j, (numSplits_ lp ≤ j)%nat → splits_ lp' !! j = splits_ lp !! j) ∧
    (∀ j, (j < numSplits_ lp)%nat → ∃ split split',
        splits_ lp !! j = Some split ∧ splits_ lp' !! j = Some split' ∧
        split_shadowMap_ split' = ShadowMap_GetSplit shadowMap j (GetSplitsGridSize lp) ∧
        zRange_ split' = zRange_ split ∧
        shadowCasters_ split' = shadowCasters_ split ∧
        shadowCasterBatches_ split' = shadowCasterBatches_ split ∧
        is_Some (shadowCamera_ split')).
Proof.
  intros [texture Htexture] Hlen Hcameras. unfold SetShadowMap. rewrite Htexture.
  destruct (InitializeSplitShadowMaps_spec shadowMap (GetSplitsGridSize lp) (light_ lp)
    (numSplits_ lp) 0 (splits_ lp)) as (splits' & Hrun & Hlen' & Hout & Hin).
  { simpl. exact Hlen. }
  { intros j split Hj. apply Hcameras. lia. }
  rewrite Hrun. simpl. eexists. split; [reflexivity|]. simpl.
  repeat (split; [first [reflexivity|exact Hlen']|]). split.
  - intros j Hj. apply Hout. lia.
  - intros j Hj. destruct (Hin j ltac:(lia)) as (split & split' & Hs & Hs' & Hfin).
    apply FinalizeShadowCamera_inv in Hfin as (Hz & Hmap & Hcasters & Hbatches & Hcam).
    exists split, split'. simpl in *. auto 10.
Qed.

Lemma SetShadowMap_returns (shadowMap : ShadowMap) (lp : LightProcessor) :
  is_Some (texture_ shadowMap) →
  (numSplits_ lp ≤ length (splits_ lp))%nat →
  (∀ j split, (j < numSplits_ lp)%nat →
     splits_ lp !! j = Some split → is_Some (shadowCamera_ split)) →
  ∃ lp', SetShadowMap shadowMap lp = Some lp' ∧ numSplits_ lp' = numSplits_ lp.
Proof.
  intros [texture Htexture] Hlen Hcameras. unfold SetShadowMap. rewrite Htexture.
  destruct (InitializeSplitShadowMaps_spec shadowMap (GetSplitsGridSize lp) (light_ lp)
    (numSplits_ lp) 0 (splits_ lp)) as (splits' & Hrun & _).
  { simpl. exact Hlen. }
  { intros j split Hj. apply Hcameras. lia. }
  rewrite Hrun. simpl. eauto.
Qed.

(** The shadow set-up of a light runs through.  Once [SetupShadowCameras]
    has returned, whatever a later step does to the splits as long as it
    keeps the active count and the cameras, [FinalizeShadowMap] and
    [SetShadowMap] return: no split is read beyond the array and no camera
    is missing.  The light ends with the active splits it had, or with none
    when the shadow map could not be allocated. *)
Theorem SetShadowMap_after_SetupShadowCameras ctx shadowMap (lp lp1 lp2 : LightProcessor) :
  SetupShadowCameras ctx lp = Some lp1 →
  numSplits_ lp2 = numSplits_ lp1 →
  shadowCamera_ <$> splits_ lp2 = shadowCamera_ <$> splits_ lp1 →
  ∃ lp3 lp4,
    FinalizeShadowMap lp2 = Some lp3 ∧
    SetShadowMap shadowMap lp3 = Some lp4 ∧
    numSplits_ lp4 = match texture_ shadowMap with
                     | Some _ => numSplits_ lp1
                     | None => 0%nat
                     end.
Proof.
  intros Hsetup Hn Hcams.
  assert (Hlen2 : length (splits_ lp2) = length (splits_ lp1)).
  { rewrite <- (length_fmap shadowCamera_ (splits_ lp2)), Hcams. apply length_fmap. }
  apply SetupShadowCameras_splits in Hsetup as (_ & _ & Hin).
  assert (Hbound : (numSplits_ lp2 ≤ length (splits_ lp2))%nat).
  { rewrite Hn, Hlen2. destruct (numSplits_ lp1) as [|n] eqn:Hk; [lia|].
    destruct (Hin n ltac:(lia)) as (split & _ & _ & Hsplit & _).
    apply lookup_lt_Some in Hsplit. lia. }
  assert (Hcameras : ∀ j split, (j < numSplits_ lp2)%nat →
            splits_ lp2 !! j = Some split → is_Some (shadowCamera_ split)).
  { intros j split Hj Hsplit.
    destruct (Hin j ltac:(lia)) as (split1 & _ & c & Hsplit1 & _ & _ & Hc & _).
    assert (Hj2 : (shadowCamera_ <$> splits_ lp2) !! j = Some (shadowCamera_ split))
      by (rewrite list_lookup_fmap, Hsplit; reflexivity).
    rewrite Hcams, list_lookup_fmap, Hsplit1 in Hj2. simpl in Hj2.
    injection Hj2 as Heq. rewrite <- Heq, Hc. eauto. }
  assert (Hfin : ∃ lp3, FinalizeShadowMap lp2 = Some lp3 ∧
            numSplits_ lp3 = numSplits_ lp2 ∧ splits_ lp3 = splits_ lp2).
  { unfold FinalizeShadowMap. destruct (hasShadow_ lp2); simpl; [|eauto].
    rewrite decide_True by exact Hbound.
    destruct (any_of _ _); simpl; eauto. }
  destruct Hfin as (lp3 & Hfin & Hn3 & Hs3). exists lp3.
  destruct (texture_ shadowMap) as [texture|] eqn:Htexture.
  - destruct (SetShadowMap_returns shadowMap lp3) as (lp4 & Hset & Hn4).
    + rewrite Htexture. eauto.
    + rewrite Hn3, Hs3. exact Hbound.
    + rewrite Hn3, Hs3. exact Hcameras.
    + exists lp4. rewrite Hn4, Hn3, Hn. auto.
  - unfold SetShadowMap. rewrite Htexture. eexists. repeat split; eauto.
Qed.

End LightProcessorMore.

(** ** Light fade *)

Section LightFadeFacts.
Import LightFade.

Lemma ea_min_le_r (a b : Q) : (ea_min a b <= b)%Q.
Proof.
  unfold ea_min. destruct (flt b a) eqn:Hlt; [apply Qle_refl|].
  apply flt_nlt in Hlt. exact Hlt.
Qed.

(** The fade factor of a light never exceeds 1. *)
Theorem GetLightFade_le_1 fadeDistance light : (GetLightFade fadeDistance light <= 1)%Q.
Proof.
  unfold GetLightFade. destruct (_ && _); [apply ea_min_le_r|apply Qle_refl].
Qed.

(** A light that is no further away than its fade distance is not faded. *)
Theorem GetLightFade_near fadeDistance light :
  (light_distance_ light <= fadeDistance)%Q →
  (GetLightFade fadeDistance light == 1)%Q.
Proof.
  intros Hnear. unfold GetLightFade.
  destruct (negb _ && fgt (light_drawDistance_ light) 0 && fgt fadeDistance 0
            && flt fadeDistance (light_drawDistance_ light)) eqn:Hfade; [|reflexivity].
  apply andb_true_iff in Hfade as [_ Hlt]. apply flt_lt in Hlt.
  set (t := ((light_distance_ light - fadeDistance)
             / (light_drawDistance_ light - fadeDistance))%Q).
  assert (Ht : (t <= 0)%Q) by (apply Qle_shift_div_r; lra).
  unfold ea_min. destruct (flt 1 (1 - t)) eqn:Hmin; [reflexivity|].
  apply flt_nlt in Hmin. lra.
Qed.

(** The fade factor is not clamped from below: for a spot or point light
    with a fade distance in front of its draw distance, the factor is zero
    or negative at and beyond the draw distance, it is not negative within
    the draw distance, and it is at most -1 once the light is as far
    beyond the draw distance as the draw distance is beyond the fade
    distance. *)
Theorem GetLightFade_sign fadeDistance light :
  lightType_ light ≠ LIGHT_DIRECTIONAL →
  (0 < fadeDistance)%Q →
  (fadeDistance < light_drawDistance_ light)%Q →
  ((light_drawDistance_ light <= light_distance_ light)%Q →
   (GetLightFade fadeDistance light <= 0)%Q) ∧
  ((light_distance_ light <= light_drawDistance_ light)%Q →
   (0 <= GetLightFade fadeDistance light)%Q) ∧
  ((light_drawDistance_ light + (light_drawDistance_ light - fadeDistance)
    <= light_distance_ light)%Q →
   (GetLightFade fadeDistance light <= -1)%Q).
Proof.
  intros Htype Hstart Hend.
  set (d := (light_drawDistance_ light - fadeDistance)%Q).
  set (t := ((light_distance_ light - fadeDistance) / d)%Q).
  assert (Hfade : GetLightFade fadeDistance light = ea_min (1 - t) 1).
  { unfold GetLightFade. rewrite (bool_decide_eq_false_2 _ Htype). unfold fgt.
    rewrite (proj2 (flt_lt 0 (light_drawDistance_ light))) by lra.
    rewrite (proj2 (flt_lt 0 fadeDistance) Hstart).
    rewrite (proj2 (flt_lt fadeDistance (light_drawDistance_ light)) Hend).
    reflexivity. }
  rewrite Hfade. clear Hfade.
  assert (Hd : (0 < d)%Q) by (unfold d; lra).
  assert (Hmin : (ea_min (1 - t) 1 <= 1 - t)%Q ∧
                 ((0 <= 1 - t)%Q → (0 <= ea_min (1 - t) 1)%Q)).
  { unfold ea_min. destruct (flt 1 (1 - t)) eqn:Hlt.
    - apply flt_lt in Hlt. split; intros; lra.
    - split; [apply Qle_refl|intros Hpos; exact Hpos]. }
  destruct Hmin as [Hupper Hlower].
  split; [|split].
  - intros Hfar.
    assert (Ht : (1 <= t)%Q) by (apply Qle_shift_div_l; [exact Hd|unfold d; lra]).
    lra.
  - intros Hwithin.
    assert (Ht : (t <= 1)%Q) by (apply Qle_shift_div_r; [exact Hd|unfold d; lra]).
    apply Hlower. lra.
  - intros Hfar.
    assert (Ht : (2 <= t)%Q) by (apply Qle_shift_div_l; [exact Hd|unfold d in *; lra]).
    lra.
Qed.

End LightFadeFacts.

(** * Further properties of the drawable processor *)

Section LightPenaltyFacts.
Context `{SceneExternals}.
Import DrawableProcessor.

Lemma inverse_below_1 (p : Q) : (1 < p)%Q → (0 < 1 / p)%Q ∧ (1 / p < 1)%Q.
Proof.
  intros Hp. split.
  - apply Qlt_shift_div_l; lra.
  - apply Qlt_shift_div_r; lra.
Qed.

Lemma GetDrawableLightPenalty_auto p type :
  (0 < p)%Q →
  (0 <= GetDrawableLightPenalty p LI_AUTO type)%Q ∧
  (GetDrawableLightPenalty p LI_AUTO type <= 2)%Q.
Proof.
  intros Hp. simpl. destruct (fle p 1) eqn:Hle.
  - apply fle_le in Hle. split; lra.
  - apply fle_nle in Hle. destruct (inverse_below_1 p Hle). split; lra.
Qed.

Lemma GetDrawableLightPenalty_not_important p type :
  (0 < p)%Q →
  (3 <= GetDrawableLightPenalty p LI_NOT_IMPORTANT type)%Q ∧
  (GetDrawableLightPenalty p LI_NOT_IMPORTANT type <= 5)%Q.
Proof.
  intros Hp. simpl. destruct (fle p 1) eqn:Hle.
  - apply fle_le in Hle. split; lra.
  - apply fle_nle in Hle. destruct (inverse_below_1 p Hle). split; lra.
Qed.

Lemma GetDrawableLightPenalty_important p type :
  (-2 <= GetDrawableLightPenalty p LI_IMPORTANT type)%Q ∧
  (GetDrawableLightPenalty p LI_IMPORTANT type <= -1)%Q.
Proof. simpl. case_decide; split; lra. Qed.

(** The penalties keep the importance classes apart, in the bands that the
    comment of the function lists: whatever the (positive) intensity
    penalties and the light types, the penalty of an important light lies
    within -2 .. -1, that of an automatic light within 0 .. 2 and that of a
    not important light within 3 .. 5 (the ends included), so that an
    important light gets a lower penalty than an automatic one, and an
    automatic light a lower penalty than a not important one. *)
Theorem GetDrawableLightPenalty_classes p1 p2 p3 type1 type2 type3 :
  (0 < p2)%Q → (0 < p3)%Q →
  ((-2 <= GetDrawableLightPenalty p1 LI_IMPORTANT type1)%Q ∧
   (GetDrawableLightPenalty p1 LI_IMPORTANT type1 <= -1)%Q) ∧
  ((0 <= GetDrawableLightPenalty p2 LI_AUTO type2)%Q ∧
   (GetDrawableLightPenalty p2 LI_AUTO type2 <= 2)%Q) ∧
  ((3 <= GetDrawableLightPenalty p3 LI_NOT_IMPORTANT type3)%Q ∧
   (GetDrawableLightPenalty p3 LI_NOT_IMPORTANT type3 <= 5)%Q) ∧
  (GetDrawableLightPenalty p1 LI_IMPORTANT type1
   < GetDrawableLightPenalty p2 LI_AUTO type2)%Q ∧
  (GetDrawableLightPenalty p2 LI_AUTO type2
   < GetDrawableLightPenalty p3 LI_NOT_IMPORTANT type3)%Q.
Proof.
  intros Hp2 Hp3.
  pose proof (GetDrawableLightPenalty_important p1 type1) as Himportant.
  pose proof (GetDrawableLightPenalty_auto p2 type2 Hp2) as Hauto.
  pose proof (GetDrawableLightPenalty_not_important p3 type3 Hp3) as Hnot.
  split; [exact Himportant|]. split; [exact Hauto|]. split; [exact Hnot|].
  destruct Himportant as [_ Hi], Hauto as [Ha1 Ha2], Hnot as [Hn _].
  split; lra.
Qed.

(** Within one importance class a larger intensity penalty never gives a
    smaller penalty. *)
Theorem GetDrawableLightPenalty_monotone p q importance type :
  (0 < p)%Q → (p <= q)%Q →
  (GetDrawableLightPenalty p importance type
   <= GetDrawableLightPenalty q importance type)%Q.
Proof.
  intros Hp Hpq.
  assert (Hinv : (1 < p)%Q → (1 / q <= 1 / p)%Q).
  { intros H1. apply Qle_shift_div_l; [lra|].
    assert (Hqi : (1 / q * q == 1)%Q) by (field; lra).
    assert (Hpos : (0 < 1 / q)%Q) by (apply inverse_below_1; lra).
    set (r := (1 / q)%Q) in *.
    assert (Hmul : (r * p <= r * q)%Q) by (apply Qmult_le_l; assumption).
    lra. }
  destruct importance; simpl.
  - destruct (fle p 1) eqn:Hp1, (fle q 1) eqn:Hq1;
      first [apply fle_le in Hp1|apply fle_nle in Hp1];
      first [apply fle_le in Hq1|apply fle_nle in Hq1].
    + exact Hpq.
    + destruct (inverse_below_1 q Hq1). lra.
    + lra.
    + specialize (Hinv Hp1). lra.
  - apply Qle_refl.
  - destruct (fle p 1) eqn:Hp1, (fle q 1) eqn:Hq1;
      first [apply fle_le in Hp1|apply fle_nle in Hp1];
      first [apply fle_le in Hq1|apply fle_nle in Hq1].
    + lra.
    + destruct (inverse_below_1 q Hq1). lra.
    + lra.
    + specialize (Hinv Hp1). lra.
Qed.

End LightPenaltyFacts.

(** ** Visible geometries *)

Section VisibleGeometryFacts.
Context `{SceneExternals}.
Import DrawableProcessor Spec Notions.

(** A batch that was lit in some pass needs ambient light: the flag
    [isForwardLit] is never set without [needAmbient]. *)
Lemma AddBatchToPasses_flags threadIndex (drawable : Drawable) i technique passes :
  ∀ flags passes' flags',
  AddBatchToPasses threadIndex drawable i technique passes flags = Some (passes', flags') →
  (flags.1 = true → flags.2 = true) → flags'.1 = true → flags'.2 = true.
Proof.
  induction passes as [|pass passes IH]; intros flags passes' flags' Hrun Hflags; simpl in Hrun.
  { injection Hrun as <- <-. exact Hflags. }
  destruct (AddBatch threadIndex drawable i technique pass) as [[result pass']|];
    [|discriminate]. simpl in Hrun.
  destruct (AddBatchToPasses _ _ _ _ passes _) as [[rest' flags'']|] eqn:Hrest;
    [|discriminate]. simpl in Hrun. injection Hrun as <- <-.
  apply (IH _ _ _ Hrest). simpl.
  destruct (litAdded_ result); simpl; [reflexivity|].
  intros Hlit. rewrite (Hflags Hlit). destruct (added_ result && needAmbient_ pass); reflexivity.
Qed.

Lemma CollectBatches_flags defaultMaterial materialQuality threadIndex (drawable : Drawable)
    sourceBatches :
  ∀ i passes flags passes' flags',
  CollectBatches defaultMaterial materialQuality threadIndex drawable i sourceBatches
    passes flags = Some (passes', flags') →
  (flags.1 = true → flags.2 = true) → flags'.1 = true → flags'.2 = true.
Proof.
  induction sourceBatches as [|sourceBatch rest IH];
    intros i passes flags passes' flags' Hrun Hflags; simpl in Hrun.
  { injection Hrun as <- <-. exact Hflags. }
  destruct (FindTechnique _ drawable materialQuality) as [technique|];
    [|exact (IH _ _ _ _ _ Hrun Hflags)].
  destruct (AddBatchToPasses _ _ _ _ passes _) as [[passes1 flags1]|] eqn:Hpasses;
    [|discriminate]. simpl in Hrun.
  apply (IH _ _ _ _ _ Hrun). exact (AddBatchToPasses_flags _ _ _ _ _ _ _ _ Hpasses Hflags).
Qed.

(** What the geometry branch does to the per-frame containers. *)
Lemma ProcessVisibleGeometry_effect threadIndex (drawable : Drawable)
    (dp dp' : DrawableProcessor) :
  ProcessVisibleGeometry threadIndex drawable dp = Some dp' →
  isDrawableUpdated_ dp' = isDrawableUpdated_ dp ∧
  log_ dp' = log_ dp ∧
  visibleLightsTemp_ dp' = visibleLightsTemp_ dp ∧
  (drawableIndex_ drawable < length (geometryFlags_ dp))%nat ∧
  (∃ flag, flag ∈ visibleFlags ∧
     geometryFlags_ dp' = <[drawableIndex_ drawable := flag]> (geometryFlags_ dp)) ∧
  PushBack threadIndex drawable (visibleGeometries_ dp) = Some (visibleGeometries_ dp') ∧
  (if updatesInMainThread drawable
   then PushBack threadIndex drawable (nonThreadedGeometryUpdates_ dp)
        = Some (nonThreadedGeometryUpdates_ dp') ∧
        threadedGeometryUpdates_ dp' = threadedGeometryUpdates_ dp
   else PushBack threadIndex drawable (threadedGeometryUpdates_ dp)
        = Some (threadedGeometryUpdates_ dp') ∧
        nonThreadedGeometryUpdates_ dp' = nonThreadedGeometryUpdates_ dp).
Proof.
  intros Hrun. unfold ProcessVisibleGeometry in Hrun.
  destruct (geometryZRanges_ dp !! drawableIndex_ drawable); [|discriminate]. simpl in Hrun.
  match type of Hrun with mbind _ ?m = _ => destruct m as [dp1|] eqn:Hdp1 end; [|discriminate].
  simpl in Hrun.
  assert (Hsame : passes_ dp1 = passes_ dp ∧ isDrawableUpdated_ dp1 = isDrawableUpdated_ dp ∧
            log_ dp1 = log_ dp ∧ visibleLightsTemp_ dp1 = visibleLightsTemp_ dp ∧
            geometryFlags_ dp1 = geometryFlags_ dp ∧
            visibleGeometries_ dp1 = visibleGeometries_ dp ∧
            nonThreadedGeometryUpdates_ dp1 = nonThreadedGeometryUpdates_ dp ∧
            threadedGeometryUpdates_ dp1 = threadedGeometryUpdates_ dp).
  { destruct (FloatRange_IsValid _); simpl in Hdp1.
    - destruct (sceneZRangeTemp_ dp !! threadIndex); [|discriminate].
      injection Hdp1 as <-. simpl. auto 10.
    - injection Hdp1 as <-. simpl. auto 10. }
  destruct Hsame as (Hp & Hu & Hl & Hvl & Hf & Hvg & Hn & Ht). clear Hdp1.
  destruct (CollectBatches _ _ _ _ _ _ _ _) as [[passes [isForwardLit needAmbient]]|] eqn:Hcollect;
    [|discriminate]. simpl in Hrun.
  pose proof (CollectBatches_flags _ _ _ _ _ _ _ _ _ _ Hcollect (λ Hlit, Hlit)) as Hlit.
  cbn [fst snd] in Hlit. clear Hcollect.
  match type of Hrun with mbind _ ?m = _ => destruct m as [dp3|] eqn:Hdp3 end; [|discriminate].
  simpl in Hrun.
  assert (Hsame : isDrawableUpdated_ dp3 = isDrawableUpdated_ dp ∧
            log_ dp3 = log_ dp ∧ visibleLightsTemp_ dp3 = visibleLightsTemp_ dp ∧
            geometryFlags_ dp3 = geometryFlags_ dp ∧
            visibleGeometries_ dp3 = visibleGeometries_ dp ∧
            nonThreadedGeometryUpdates_ dp3 = nonThreadedGeometryUpdates_ dp ∧
            threadedGeometryUpdates_ dp3 = threadedGeometryUpdates_ dp).
  { destruct needAmbient; simpl in Hdp3.
    - destruct (geometryLighting_ dp1 !! drawableIndex_ drawable); [|discriminate].
      injection Hdp3 as <-. simpl. auto 10.
    - injection Hdp3 as <-. simpl. auto 10. }
  clear Hu Hl Hvl Hf Hvg Hn Ht Hdp3. destruct Hsame as (Hu & Hl & Hvl & Hf & Hvg & Hn & Ht).
  destruct (PushBack threadIndex drawable (visibleGeometries_ dp3)) as [visible|] eqn:Hpush;
    [|discriminate]. simpl in Hrun.
  destruct (geometryFlags_ dp3 !! drawableIndex_ drawable) eqn:Hindex; [|discriminate].
  simpl in Hrun. rewrite Hvg in Hpush.
  apply lookup_lt_Some in Hindex. rewrite Hf in Hindex.
  assert (Hflag : N.lor (N.lor GeometryRenderFlag_Visible
                           (if needAmbient then GeometryRenderFlag_Lit else 0))
                    (if isForwardLit then GeometryRenderFlag_ForwardLit else 0)
                  ∈ visibleFlags).
  { unfold visibleFlags. destruct isForwardLit.
    - rewrite Hlit by reflexivity. set_solver.
    - destruct needAmbient; set_solver. }
  unfold QueueDrawableGeometryUpdate, updatesInMainThread in *.
  destruct (updateGeometryType_ drawable); simpl in Hrun;
    match type of Hrun with mbind _ ?m = _ => destruct m as [queue|] eqn:Hqueue end;
    try discriminate; simpl in Hrun; injection Hrun as <-; simpl in *;
    rewrite ?Hn, ?Ht in Hqueue; rewrite Hf; eauto 10.
Qed.

Lemma PushBack_Elements {A} threadIndex (value : A) (c c' : list (list A)) :
  PushBack threadIndex value c = Some c' →
  length c' = length c ∧ Elements c' ≡ₚ value :: Elements c.
Proof.
  intros Hpush.
  assert (Hlt : (threadIndex < length c)%nat).
  { unfold PushBack in Hpush. destruct (c !! threadIndex) eqn:Hv; [|discriminate].
    eapply lookup_lt_Some. exact Hv. }
  destruct (PushBack_total threadIndex value c Hlt) as (c'' & Hpush' & Hlen & Hperm).
  rewrite Hpush in Hpush'. injection Hpush' as <-. auto.
Qed.

(** What one call of [ProcessVisibleDrawable] does when it returns. *)
Lemma ProcessVisibleDrawable_step threadIndex (drawable : Drawable)
    (dp dp' : DrawableProcessor) :
  ProcessVisibleDrawable threadIndex drawable dp = Some dp' →
  (drawableIndex_ drawable < length (isDrawableUpdated_ dp))%nat ∧
  isDrawableUpdated_ dp' = <[drawableIndex_ drawable := true]> (isDrawableUpdated_ dp) ∧
  log_ dp' = log_ dp ∧
  if isVisibleGeometry drawable then
    (drawableIndex_ drawable < length (geometryFlags_ dp))%nat ∧
    (∃ flag, flag ∈ visibleFlags ∧
       geometryFlags_ dp' = <[drawableIndex_ drawable := flag]> (geometryFlags_ dp)) ∧
    PushBack threadIndex drawable (visibleGeometries_ dp) = Some (visibleGeometries_ dp') ∧
    (if updatesInMainThread drawable
     then PushBack threadIndex drawable (nonThreadedGeometryUpdates_ dp)
          = Some (nonThreadedGeometryUpdates_ dp') ∧
          threadedGeometryUpdates_ dp' = threadedGeometryUpdates_ dp
     else PushBack threadIndex drawable (threadedGeometryUpdates_ dp)
          = Some (threadedGeometryUpdates_ dp') ∧
          nonThreadedGeometryUpdates_ dp' = nonThreadedGeometryUpdates_ dp)
  else
    geometryFlags_ dp' = geometryFlags_ dp ∧
    visibleGeometries_ dp' = visibleGeometries_ dp ∧
    threadedGeometryUpdates_ dp' = threadedGeometryUpdates_ dp ∧
    nonThreadedGeometryUpdates_ dp' = nonThreadedGeometryUpdates_ dp ∧
    passes_ dp' = passes_ dp ∧
    geometryLighting_ dp' = geometryLighting_ dp ∧
    geometryZRanges_ dp' = geometryZRanges_ dp.
Proof.
  intros Hrun. unfold ProcessVisibleDrawable in Hrun. unfold isVisibleGeometry.
  destruct (isDrawableUpdated_ dp !! drawableIndex_ drawable) eqn:Hindex; [|discriminate].
  apply lookup_lt_Some in Hindex. simpl in Hrun. split; [exact Hindex|].
  destruct (fgt (drawDistance_ drawable) 0 && fgt (distance_ drawable) (drawDistance_ drawable)).
  { injection Hrun as <-. simpl. auto 10. }
  destruct (testFlag (drawableFlags_ drawable) DRAWABLE_GEOMETRY); simpl.
  { apply ProcessVisibleGeometry_effect in Hrun as (Hu & Hl & _ & Hrest).
    simpl in Hu, Hl, Hrest. auto. }
  destruct (testFlag (drawableFlags_ drawable) DRAWABLE_LIGHT);
    [|injection Hrun as <-; simpl; auto 10].
  destruct (negb _ && negb _); [|injection Hrun as <-; simpl; auto 10].
  destruct (PushBack _ _ _); [|discriminate]. injection Hrun as <-. simpl. auto 10.
Qed.

(** The tail of [ProcessVisibleDrawables] only fills the visible lights,
    the light processors and the scene depth range. *)
Lemma ProcessVisibleDrawables_inv (schedule : list (nat * Drawable))
    (dp dp' : DrawableProcessor) :
  ProcessVisibleDrawables schedule dp = Some dp' →
  ∃ dp1, ForEachParallel schedule dp = Some dp1 ∧
         isDrawableUpdated_ dp' = isDrawableUpdated_ dp1 ∧
         geometryFlags_ dp' = geometryFlags_ dp1 ∧
         visibleGeometries_ dp' = visibleGeometries_ dp1 ∧
         threadedGeometryUpdates_ dp' = threadedGeometryUpdates_ dp1 ∧
         nonThreadedGeometryUpdates_ dp' = nonThreadedGeometryUpdates_ dp1 ∧
         log_ dp' = log_ dp1.
Proof.
  unfold ProcessVisibleDrawables. intros Hrun.
  destruct (ForEachParallel schedule dp) as [dp1|]; [|discriminate]. simpl in Hrun.
  destruct (CollectLightProcessors _ _) as [processors cache].
  injection Hrun as <-. exists dp1. simpl. auto 10.
Qed.

Lemma ProcessVisibleDrawables_returns numThreads numDrawables
    (schedule : list (nat * Drawable)) (dp : DrawableProcessor) :
  FrameSized numThreads numDrawables dp →
  ScheduleInRange numThreads numDrawables schedule →
  is_Some (ProcessVisibleDrawables schedule dp).
Proof.
  intros Hsized Hrange. unfold ProcessVisibleDrawables.
  destruct (ForEachParallel_total numThreads numDrawables schedule dp Hsized Hrange)
    as (dp1 & -> & _). simpl.
  destruct (CollectLightProcessors _ _) as [processors cache]. eauto.
Qed.

Lemma visibleGeometriesOf_cons (drawable : Drawable) drawables :
  visibleGeometriesOf (drawable :: drawables)
  = (if isVisibleGeometry drawable then [drawable] else []) ++ visibleGeometriesOf drawables.
Proof.
  unfold visibleGeometriesOf. rewrite filter_cons.
  destruct (decide (isVisibleGeometry drawable = true)) as [->|Hno]; [reflexivity|].
  destruct (isVisibleGeometry drawable); [congruence|reflexivity].
Qed.

(** The visible geometries and the two geometry update queues after the
    calls of a run. *)
Lemma ForEachParallel_geometries (schedule : list (nat * Drawable)) :
  ∀ dp dp' : DrawableProcessor,
  ForEachParallel schedule dp = Some dp' →
  Elements (visibleGeometries_ dp')
  ≡ₚ visibleGeometriesOf schedule.*2 ++ Elements (visibleGeometries_ dp) ∧
  Elements (nonThreadedGeometryUpdates_ dp')
  ≡ₚ filter (λ d, updatesInMainThread d = true) (visibleGeometriesOf schedule.*2)
     ++ Elements (nonThreadedGeometryUpdates_ dp) ∧
  Elements (threadedGeometryUpdates_ dp')
  ≡ₚ filter (λ d, updatesInMainThread d ≠ true) (visibleGeometriesOf schedule.*2)
     ++ Elements (threadedGeometryUpdates_ dp).
Proof.
  induction schedule as [|[threadIndex drawable] rest IH]; intros dp dp' Hrun; simpl in Hrun.
  { injection Hrun as <-. simpl. auto. }
  destruct (ProcessVisibleDrawable threadIndex drawable dp) as [dp1|] eqn:Hstep; [|discriminate].
  simpl in Hrun. apply IH in Hrun as (Hvisible & Hmain & Hworker).
  apply ProcessVisibleDrawable_step in Hstep as (_ & _ & _ & Hstep).
  rewrite Hvisible, Hmain, Hworker. simpl. rewrite visibleGeometriesOf_cons.
  destruct (isVisibleGeometry drawable); simpl.
  - destruct Hstep as (_ & _ & Hpush & Hqueue).
    apply PushBack_Elements in Hpush as [_ Hpush]. rewrite Hpush, !filter_cons.
    destruct (updatesInMainThread drawable); destruct Hqueue as [Hqueue Hother];
      apply PushBack_Elements in Hqueue as [_ Hqueue]; rewrite Hqueue, Hother.
    + rewrite decide_True by reflexivity. rewrite decide_False by auto.
      split; [|split]; try reflexivity.
      * symmetry. apply Permutation_middle.
      * symmetry. apply Permutation_middle.
    + rewrite decide_False by discriminate. rewrite decide_True by discriminate.
      split; [|split]; try reflexivity.
      * symmetry. apply Permutation_middle.
      * symmetry. apply Permutation_middle.
  - destruct Hstep as (_ & -> & -> & -> & _). auto.
Qed.

(** After [ProcessVisibleDrawables] the visible geometries are, up to the
    order in which the threads stored them, the drawables of the run that
    are geometries within their draw distance, each as often as it was
    handed in, after those that were visible before. *)
Theorem ProcessVisibleDrawables_visibleGeometries numThreads numDrawables
    (schedule : list (nat * Drawable)) (dp : DrawableProcessor) :
  FrameSized numThreads numDrawables dp →
  ScheduleInRange numThreads numDrawables schedule →
  ∃ dp',
    ProcessVisibleDrawables schedule dp = Some dp' ∧
    Elements (visibleGeometries_ dp')
    ≡ₚ visibleGeometriesOf schedule.*2 ++ Elements (visibleGeometries_ dp).
Proof.
  intros Hsized Hrange.
  destruct (ProcessVisibleDrawables_returns _ _ schedule dp Hsized Hrange) as [dp' Hrun].
  exists dp'. split; [exact Hrun|].
  apply ProcessVisibleDrawables_inv in Hrun as (dp1 & Hrun & _ & _ & -> & _).
  apply ForEachParallel_geometries in Hrun as (Hvisible & _). exact Hvisible.
Qed.

(** Every visible geometry of a run is queued for a geometry update exactly
    once: in the main-thread queue when its update type asks for the main
    thread, in the worker-thread queue otherwise.  Together the two queues
    grow by the visible geometries of the run. *)
Theorem ProcessVisibleDrawables_update_queues numThreads numDrawables
    (schedule : list (nat * Drawable)) (dp : DrawableProcessor) :
  FrameSized numThreads numDrawables dp →
  ScheduleInRange numThreads numDrawables schedule →
  ∃ dp',
    ProcessVisibleDrawables schedule dp = Some dp' ∧
    Elements (nonThreadedGeometryUpdates_ dp')
    ≡ₚ filter (λ d, updatesInMainThread d = true) (visibleGeometriesOf schedule.*2)
       ++ Elements (nonThreadedGeometryUpdates_ dp) ∧
    Elements (threadedGeometryUpdates_ dp')
    ≡ₚ filter (λ d, updatesInMainThread d ≠ true) (visibleGeometriesOf schedule.*2)
       ++ Elements (threadedGeometryUpdates_ dp) ∧
    (length (Elements (nonThreadedGeometryUpdates_ dp'))
     + length (Elements (threadedGeometryUpdates_ dp')))%nat
    = (length (visibleGeometriesOf schedule.*2)
       + (length (Elements (nonThreadedGeometryUpdates_ dp))
          + length (Elements (threadedGeometryUpdates_ dp))))%nat.
Proof.
  intros Hsized Hrange.
  destruct (ProcessVisibleDrawables_returns _ _ schedule dp Hsized Hrange) as [dp' Hrun].
  exists dp'. split; [exact Hrun|].
  apply ProcessVisibleDrawables_inv in Hrun as (dp1 & Hrun & _ & _ & _ & -> & -> & _).
  apply ForEachParallel_geometries in Hrun as (_ & Hmain & Hworker).
  split; [exact Hmain|]. split; [exact Hworker|].
  rewrite Hmain, Hworker, !length_app.
  pose proof (filter_app_complement (λ d, updatesInMainThread d = true)
                (visibleGeometriesOf schedule.*2)) as Hsplit.
  apply Permutation_length in Hsplit. rewrite length_app in Hsplit.
  change (λ x : Drawable, ¬ updatesInMainThread x = true)
    with (λ d : Drawable, updatesInMainThread d ≠ true) in Hsplit.
  lia.
Qed.

(** The update marks and the render flags along the calls of a run: a mark
    once set stays set, a flag once visible stays visible. *)
Lemma ForEachParallel_marks (schedule : list (nat * Drawable)) :
  ∀ dp dp' : DrawableProcessor,
  ForEachParallel schedule dp = Some dp' →
  (∀ i, isDrawableUpdated_ dp !! i = Some true → isDrawableUpdated_ dp' !! i = Some true) ∧
  (∀ i flag, geometryFlags_ dp !! i = Some flag → flag ∈ visibleFlags →
     ∃ flag', flag' ∈ visibleFlags ∧ geometryFlags_ dp' !! i = Some flag') ∧
  (∀ d, d ∈ schedule.*2 → isDrawableUpdated_ dp' !! drawableIndex_ d = Some true) ∧
  (∀ d, d ∈ visibleGeometriesOf schedule.*2 →
     ∃ flag, flag ∈ visibleFlags ∧ geometryFlags_ dp' !! drawableIndex_ d = Some flag) ∧
  (∀ i, (∀ d, d ∈ schedule.*2 → drawableIndex_ d ≠ i) →
     isDrawableUpdated_ dp' !! i = isDrawableUpdated_ dp !! i ∧
     geometryFlags_ dp' !! i = geometryFlags_ dp !! i) ∧
  log_ dp' = log_ dp.
Proof.
  induction schedule as [|[threadIndex drawable] rest IH]; intros dp dp' Hrun; simpl in Hrun.
  { injection Hrun as <-. simpl. repeat split; eauto; intros d Hd; inversion Hd. }
  destruct (ProcessVisibleDrawable threadIndex drawable dp) as [dp1|] eqn:Hstep; [|discriminate].
  simpl in Hrun.
  apply IH in Hrun as (Hmarks & Hflags & Hall & Hvisible & Hother & Hlog).
  apply ProcessVisibleDrawable_step in Hstep as (Hindex & Hu & Hl & Hstep).
  assert (Hmarks1 : ∀ i, isDrawableUpdated_ dp !! i = Some true →
            isDrawableUpdated_ dp1 !! i = Some true).
  { intros i Hi. rewrite Hu. destruct (decide (i = drawableIndex_ drawable)) as [->|Hne].
    - apply list_lookup_insert_eq. exact Hindex.
    - rewrite list_lookup_insert_ne by auto. exact Hi. }
  assert (Hflags1 : ∀ i flag, geometryFlags_ dp !! i = Some flag → flag ∈ visibleFlags →
            ∃ flag', flag' ∈ visibleFlags ∧ geometryFlags_ dp1 !! i = Some flag').
  { intros i flag Hi Hflag. destruct (isVisibleGeometry drawable).
    - destruct Hstep as (Hbound & (flag0 & Hflag0 & ->) & _).
      destruct (decide (i = drawableIndex_ drawable)) as [->|Hne].
      + exists flag0. split; [exact Hflag0|]. apply list_lookup_insert_eq. exact Hbound.
      + exists flag. rewrite list_lookup_insert_ne by auto. auto.
    - destruct Hstep as (-> & _). eauto. }
  split; [auto|]. split.
  { intros i flag Hi Hflag.
    destruct (Hflags1 i flag Hi Hflag) as (flag1 & Hflag1 & Hi1). eauto. }
  split.
  { intros d Hd. simpl in Hd. apply elem_of_cons in Hd as [->|Hd]; [|auto].
    apply Hmarks. rewrite Hu. apply list_lookup_insert_eq. exact Hindex. }
  split.
  { intros d Hd. simpl in Hd. rewrite visibleGeometriesOf_cons in Hd.
    apply elem_of_app in Hd as [Hd|Hd]; [|auto].
    destruct (isVisibleGeometry drawable); [|inversion Hd].
    apply list_elem_of_singleton in Hd as ->.
    destruct Hstep as (Hbound & (flag0 & Hflag0 & Hf) & _).
    apply (Hflags (drawableIndex_ drawable) flag0); [|exact Hflag0].
    rewrite Hf. apply list_lookup_insert_eq. exact Hbound. }
  split; [|congruence].
  intros i Hi.
  assert (Hne : drawableIndex_ drawable ≠ i) by (apply Hi; simpl; apply elem_of_cons; auto).
  destruct (Hother i) as [Hu' Hf'].
  { intros d Hd. apply Hi. simpl. apply elem_of_cons. auto. }
  rewrite Hu', Hf', Hu. rewrite list_lookup_insert_ne by exact Hne. split; [reflexivity|].
  destruct (isVisibleGeometry drawable).
  - destruct Hstep as (_ & (flag0 & _ & ->) & _). apply list_lookup_insert_ne. exact Hne.
  - destruct Hstep as (-> & _). reflexivity.
Qed.

(** After [ProcessVisibleDrawables] every drawable of the run is marked as
    updated and every visible geometry of the run carries a render flag
    that says visible, and says forward lit only together with lit; this
    holds also when several drawables of the run share an index.  The
    marks and flags of the indices that no drawable of the run has are as
    before, and nothing is logged. *)
Theorem ProcessVisibleDrawables_flags numThreads numDrawables
    (schedule : list (nat * Drawable)) (dp : DrawableProcessor) :
  FrameSized numThreads numDrawables dp →
  ScheduleInRange numThreads numDrawables schedule →
  ∃ dp',
    ProcessVisibleDrawables schedule dp = Some dp' ∧
    (∀ d, d ∈ schedule.*2 → isDrawableUpdated_ dp' !! drawableIndex_ d = Some true) ∧
    (∀ d, d ∈ visibleGeometriesOf schedule.*2 →
       ∃ flag, flag ∈ visibleFlags ∧ geometryFlags_ dp' !! drawableIndex_ d = Some flag) ∧
    (∀ i, (∀ d, d ∈ schedule.*2 → drawableIndex_ d ≠ i) →
       isDrawableUpdated_ dp' !! i = isDrawableUpdated_ dp !! i ∧
       geometryFlags_ dp' !! i = geometryFlags_ dp !! i) ∧
    log_ dp' = log_ dp.
Proof.
  intros Hsized Hrange.
  destruct (ProcessVisibleDrawables_returns _ _ schedule dp Hsized Hrange) as [dp' Hrun].
  exists dp'. split; [exact Hrun|].
  apply ProcessVisibleDrawables_inv in Hrun as (dp1 & Hrun & -> & -> & _ & _ & _ & ->).
  apply ForEachParallel_marks in Hrun as (_ & _ & Hall & Hvisible & Hother & Hlog). auto.
Qed.

(** *** Forward lighting with a valid light index *)

Lemma AccumulateForwardLight_spec light lightIndex maxVertexLights maxPixelLights
    (litGeometries : list Drawable) :
  ∀ lighting,
  Forall (λ g, drawableIndex_ g < length lighting)%nat litGeometries →
  ∃ lighting',
    AccumulateForwardLight light lightIndex maxVertexLights maxPixelLights litGeometries lighting
    = Some lighting' ∧
    length lighting' = length lighting ∧
    (∀ i, (∀ g, g ∈ litGeometries → drawableIndex_ g ≠ i) → lighting' !! i = lighting !! i) ∧
    (NoDup (drawableIndex_ <$> litGeometries) →
     ∀ g, g ∈ litGeometries → ∃ accumulator,
       lighting !! drawableIndex_ g = Some accumulator ∧
       lighting' !! drawableIndex_ g
       = Some (LightAccumulator_AccumulateLight lightIndex (lightImportance_ light)
                 maxVertexLights maxPixelLights
                 (GetDrawableLightPenalty
                    (ea_max (GetDistanceTo light g) M_LARGE_EPSILON
                     * (1 / intensityDivisor_ light))%Q
                    (lightImportance_ light) (lightType_ light))
                 accumulator)).
Proof.
  induction litGeometries as [|geometry rest IH]; intros lighting Hrange; simpl.
  { exists lighting. repeat split; auto. intros _ g Hg. inversion Hg. }
  apply Forall_cons in Hrange as [Hindex Hrange].
  destruct (lookup_lt_is_Some_2 _ _ Hindex) as [accumulator Haccumulator].
  rewrite Haccumulator. simpl.
  match goal with |- context [AccumulateForwardLight _ _ _ _ _ ?l] =>
    destruct (IH l) as (lighting' & Hrun & Hlen & Hother & Hone) end.
  { rewrite length_insert. exact Hrange. }
  rewrite length_insert in Hlen.
  exists lighting'. split; [exact Hrun|]. split; [exact Hlen|]. split.
  - intros i Hi. rewrite Hother.
    + apply list_lookup_insert_ne. apply Hi. apply elem_of_cons. auto.
    + intros g Hg. apply Hi. apply elem_of_cons. auto.
  - intros Hnodup g Hg. simpl in Hnodup. apply NoDup_cons in Hnodup as [Hfresh Hnodup].
    apply elem_of_cons in Hg as [->|Hg].
    + exists accumulator. split; [exact Haccumulator|]. rewrite Hother.
      * apply list_lookup_insert_eq. exact Hindex.
      * intros g Hg Heq. apply Hfresh. rewrite <- Heq. apply list_elem_of_fmap_2. exact Hg.
    + destruct (Hone Hnodup g Hg) as (acc & Hacc & Hacc').
      exists acc. split; [|exact Hacc'].
      rewrite list_lookup_insert_ne in Hacc; [exact Hacc|].
      intros Heq. apply Hfresh. rewrite Heq. apply list_elem_of_fmap_2. exact Hg.
Qed.

(** With a valid light index [ProcessForwardLighting] logs nothing and
    changes nothing but the light accumulators.  The accumulators of the
    drawables that are not among the lit geometries are as before; when
    the lit geometries have pairwise distinct drawable indices, the
    accumulator of each of them has taken the light once, with the penalty
    computed from its distance to the light, clamped from below, and the
    light's intensity divisor, importance and type. *)
Theorem ProcessForwardLighting_accumulates lightIndex (litGeometries : list Drawable)
    (dp : DrawableProcessor) light :
  visibleLights_ dp !! lightIndex = Some light →
  Forall (λ g, drawableIndex_ g < length (geometryLighting_ dp))%nat litGeometries →
  NoDup (drawableIndex_ <$> litGeometries) →
  ∃ dp',
    ProcessForwardLighting lightIndex litGeometries dp = Some dp' ∧
    dp' = set_geometryLighting_ (geometryLighting_ dp') dp ∧
    log_ dp' = log_ dp ∧
    length (geometryLighting_ dp') = length (geometryLighting_ dp) ∧
    (∀ i, (∀ g, g ∈ litGeometries → drawableIndex_ g ≠ i) →
       geometryLighting_ dp' !! i = geometryLighting_ dp !! i) ∧
    (∀ g, g ∈ litGeometries → ∃ accumulator,
       geometryLighting_ dp !! drawableIndex_ g = Some accumulator ∧
       geometryLighting_ dp' !! drawableIndex_ g
       = Some (LightAccumulator_AccumulateLight lightIndex (lightImportance_ light)
                 (maxVertexLights_ dp) (maxPixelLights_ dp)
                 (GetDrawableLightPenalty
                    (ea_max (GetDistanceTo light g) M_LARGE_EPSILON
                     * (1 / intensityDivisor_ light))%Q
                    (lightImportance_ light) (lightType_ light))
                 accumulator)).
Proof.
  intros Hlight Hrange Hnodup. unfold ProcessForwardLighting.
  rewrite decide_False by (apply lookup_lt_Some in Hlight; lia).
  rewrite Hlight. simpl.
  destruct (AccumulateForwardLight_spec light lightIndex (maxVertexLights_ dp)
              (maxPixelLights_ dp) litGeometries (geometryLighting_ dp) Hrange)
    as (lighting' & -> & Hlen & Hother & Hone).
  simpl. eexists. split; [reflexivity|]. simpl. auto 10.
Qed.

End VisibleGeometryFacts.

(** ** Light processors by shadow map size *)

Section SortFacts.
Import DrawableProcessor.
Context {A : Type} (compare : A → A → bool).

Lemma sorted_insert_perm (x : A) l : sorted_insert compare x l ≡ₚ x :: l.
Proof.
  induction l as [|y l IH]; simpl; [reflexivity|].
  destruct (compare x y); [reflexivity|].
  rewrite IH. apply perm_swap.
Qed.

Lemma ea_sort_perm (l : list A) : ea_sort compare l ≡ₚ l.
Proof.
  induction l as [|x l IH]; simpl; [reflexivity|].
  rewrite sorted_insert_perm, IH. reflexivity.
Qed.

(** With an asymmetric comparison, in the sorted list no element compares
    less than the element before it. *)
Lemma ea_sort_adjacent (l : list A) :
  (∀ a b, compare a b = true → compare b a = false) →
  Sorted (λ a b, compare b a = false) (ea_sort compare l).
Proof.
  intros Hasym.
  assert (Hinsert : ∀ x l, Sorted (λ a b, compare b a = false) l →
            Sorted (λ a b, compare b a = false) (sorted_insert compare x l)).
  { intros x l0. induction 1 as [|y l' Hsorted IH Hhd]; simpl.
    - repeat constructor.
    - destruct (compare x y) eqn:Hxy.
      + constructor; [constructor; assumption|]. constructor. apply Hasym. exact Hxy.
      + constructor; [exact IH|].
        destruct l' as [|z l']; simpl.
        * constructor. exact Hxy.
        * destruct (compare x z); constructor; [exact Hxy|].
          inversion Hhd. assumption. }
  induction l as [|x l IH]; simpl; [constructor|].
  apply Hinsert. exact IH.
Qed.

End SortFacts.

Section ShadowMapOrderFacts.
Context `{SceneExternals}.
Import LightProcessor DrawableProcessor LightProcessorOrder Notions.

Lemma compareShadowMapSize_asymmetric (a b : LightProcessor) :
  compareShadowMapSize a b = true → compareShadowMapSize b a = false.
Proof.
  unfold compareShadowMapSize.
  repeat case_bool_decide; simpl; rewrite ?Z.ltb_lt, ?N.ltb_lt, ?Z.ltb_ge, ?N.ltb_ge;
    try congruence; lia.
Qed.

(** [compareShadowMapSize] is a strict order on all light processors: it
    is irreflexive, asymmetric and transitive. *)
Theorem compareShadowMapSize_strict_order :
  (∀ a, compareShadowMapSize a a = false) ∧
  (∀ a b, compareShadowMapSize a b = true → compareShadowMapSize b a = false) ∧
  (∀ a b c, compareShadowMapSize a b = true → compareShadowMapSize b c = true →
            compareShadowMapSize a c = true).
Proof.
  split; [|split; [exact compareShadowMapSize_asymmetric|]]; unfold compareShadowMapSize.
  - intros a. rewrite bool_decide_eq_true_2 by reflexivity. simpl. apply N.ltb_irrefl.
  - intros a b c.
    destruct (decide (GetShadowMapSize a = GetShadowMapSize b)) as [Hab|Hab],
             (decide (GetShadowMapSize b = GetShadowMapSize c)) as [Hbc|Hbc];
      rewrite ?(bool_decide_eq_true_2 _ Hab), ?(bool_decide_eq_false_2 _ Hab),
              ?(bool_decide_eq_true_2 _ Hbc), ?(bool_decide_eq_false_2 _ Hbc); simpl;
      rewrite ?Z.ltb_lt, ?N.ltb_lt; intros H1 H2.
    + rewrite bool_decide_eq_true_2 by congruence. simpl. apply N.ltb_lt. lia.
    + rewrite bool_decide_eq_false_2 by congruence. simpl. apply Z.ltb_lt.
      rewrite Hab. exact H2.
    + rewrite bool_decide_eq_false_2 by congruence. simpl. apply Z.ltb_lt.
      rewrite <- Hbc. exact H1.
    + rewrite bool_decide_eq_false_2.
      * simpl. apply Z.ltb_lt. lia.
      * intros Hac. rewrite Hac in H1. lia.
Qed.

Lemma shadowMapSizes_by_length (u v : IntVector2) :
  u ∈ shadowMapSizes → v ∈ shadowMapSizes →
  IntVector2_LengthSquared u = IntVector2_LengthSquared v → u = v.
Proof.
  assert (Hall : Forall (λ u, Forall (λ v,
            IntVector2_LengthSquared u = IntVector2_LengthSquared v → u = v)
            shadowMapSizes) shadowMapSizes).
  { apply (bool_decide_unpack _). vm_compute. exact I. }
  intros Hu Hv. rewrite Forall_forall in Hall. specialize (Hall u Hu).
  rewrite Forall_forall in Hall. exact (Hall v Hv).
Qed.

Lemma GetShadowMapSize_shadowMapSizes (lp : LightProcessor) :
  shadowMapSize_ lp ∈ shadowMapSizes → GetShadowMapSize lp ∈ shadowMapSizes.
Proof.
  intros Hsize. unfold GetShadowMapSize. destruct (negb _); [exact Hsize|].
  unfold shadowMapSizes. apply elem_of_cons. auto.
Qed.

(** [FinalizeShadowMap] keeps the shadow map size among the sizes listed
    in [shadowMapSizes], and a light that still has its shadow afterwards
    has got one of them, whatever its size was before. *)
Theorem FinalizeShadowMap_shadowMapSizes (lp lp' : LightProcessor) :
  FinalizeShadowMap lp = Some lp' →
  (shadowMapSize_ lp ∈ shadowMapSizes → shadowMapSize_ lp' ∈ shadowMapSizes) ∧
  (hasShadow_ lp' = true → shadowMapSize_ lp' ∈ shadowMapSizes).
Proof.
  unfold FinalizeShadowMap. intros Hrun.
  destruct (hasShadow_ lp) eqn:Hshadow; simpl in Hrun.
  2:{ injection Hrun as <-. split; [auto|]. rewrite Hshadow. discriminate. }
  case_decide; [|discriminate].
  destruct (any_of _ _); simpl in Hrun; injection Hrun as <-; simpl.
  2:{ split; [auto|discriminate]. }
  assert (Hin : ((if decide (lightType_ (light_ lp) ≠ LIGHT_POINT) then 512 else 256)
                 * (GetSplitsGridSize lp).1,
                 (if decide (lightType_ (light_ lp) ≠ LIGHT_POINT) then 512 else 256)
                 * (GetSplitsGridSize lp).2)%Z ∈ shadowMapSizes).
  { unfold GetSplitsGridSize, shadowMapSizes.
    repeat case_decide; vm_compute; set_solver. }
  auto.
Qed.

(** On light processors whose shadow map sizes are among [shadowMapSizes]
    two processors of different lights always compare one way or the
    other: shadow maps of different size differ in length. *)
Theorem compareShadowMapSize_total (a b : LightProcessor) :
  shadowMapSize_ a ∈ shadowMapSizes →
  shadowMapSize_ b ∈ shadowMapSizes →
  light_ID (light_ a) ≠ light_ID (light_ b) →
  compareShadowMapSize a b = true ∨ compareShadowMapSize b a = true.
Proof.
  intros Ha Hb Hid. unfold compareShadowMapSize.
  apply GetShadowMapSize_shadowMapSizes in Ha, Hb.
  destruct (decide (GetShadowMapSize a = GetShadowMapSize b)) as [Hab|Hab].
  - rewrite !bool_decide_eq_true_2 by congruence. simpl. rewrite !N.ltb_lt. lia.
  - rewrite !bool_decide_eq_false_2 by congruence. simpl. rewrite !Z.ltb_lt.
    pose proof (shadowMapSizes_by_length _ _ Ha Hb) as Hlen.
    destruct (Z.lt_trichotomy (IntVector2_LengthSquared (GetShadowMapSize a))
                (IntVector2_LengthSquared (GetShadowMapSize b))) as [Hlt|[Heq|Hgt]]; auto.
    exfalso. auto.
Qed.

Lemma NoDup_fmap_elem {X Y} (f : X → Y) (l : list X) (a b : X) :
  NoDup (f <$> l) → a ∈ l → b ∈ l → f a = f b → a = b.
Proof.
  induction l as [|c l IH]; simpl; intros Hnodup Ha Hb Hf.
  { inversion Ha. }
  apply NoDup_cons in Hnodup as [Hnotin Hnodup].
  apply elem_of_cons in Ha as [->|Ha]; apply elem_of_cons in Hb as [->|Hb]; auto.
  - exfalso. apply Hnotin. rewrite Hf. apply list_elem_of_fmap_2. exact Hb.
  - exfalso. apply Hnotin. rewrite <- Hf. apply list_elem_of_fmap_2. exact Ha.
Qed.

Lemma Sorted_on {X} (R R' : X → X → Prop) (Q : X → Prop) (l : list X) :
  (∀ a b, Q a → Q b → R a b → R' a b) → Forall Q l → Sorted R l → Sorted R' l.
Proof.
  intros Himpl Hall Hsorted. induction Hsorted as [|x l Hsorted IH Hhd]; [constructor|].
  apply Forall_cons in Hall as [Hx Hall]. constructor; [apply IH; exact Hall|].
  destruct Hhd as [|y l Hxy]; constructor.
  apply Forall_cons in Hall as [Hy _]. auto.
Qed.

#[local] Instance largerShadowMapFirst_Transitive : Transitive largerShadowMapFirst.
Proof. intros a b c. unfold largerShadowMapFirst. simpl. lia. Qed.

Lemma compareShadowMapSize_largerShadowMapFirst (a b : LightProcessor) :
  shadowMapSize_ a ∈ shadowMapSizes →
  shadowMapSize_ b ∈ shadowMapSizes →
  compareShadowMapSize b a = false → largerShadowMapFirst a b.
Proof.
  intros Ha Hb. unfold compareShadowMapSize, largerShadowMapFirst. simpl.
  apply GetShadowMapSize_shadowMapSizes in Ha, Hb.
  destruct (decide (GetShadowMapSize b = GetShadowMapSize a)) as [Hba|Hba].
  - rewrite bool_decide_eq_true_2 by exact Hba. simpl. rewrite N.ltb_ge, Hba. auto.
  - rewrite bool_decide_eq_false_2 by exact Hba. simpl. rewrite Z.ltb_ge. intros Hge.
    pose proof (shadowMapSizes_by_length _ _ Hb Ha) as Hlen.
    destruct (decide (IntVector2_LengthSquared (GetShadowMapSize b)
                      = IntVector2_LengthSquared (GetShadowMapSize a))) as [Heq|Hne].
    + exfalso. auto.
    + left. lia.
Qed.

(** For light processors of pairwise different lights whose shadow map
    sizes are among [shadowMapSizes], [SortLightProcessorsByShadowMap]
    returns the processors it was given with larger shadow maps first and,
    among equal ones, in ascending order of the light's component ID; the
    result does not depend on the order in which they were handed in. *)
Theorem SortLightProcessorsByShadowMap_deterministic (l1 l2 : list LightProcessor) :
  Forall (λ lp, shadowMapSize_ lp ∈ shadowMapSizes) l1 →
  NoDup ((λ lp, light_ID (light_ lp)) <$> l1) →
  l2 ≡ₚ l1 →
  SortLightProcessorsByShadowMap l1 ≡ₚ l1 ∧
  Sorted largerShadowMapFirst (SortLightProcessorsByShadowMap l1) ∧
  SortLightProcessorsByShadowMap l2 = SortLightProcessorsByShadowMap l1.
Proof.
  intros Hsizes Hnodup Hperm. unfold SortLightProcessorsByShadowMap.
  pose proof compareShadowMapSize_asymmetric as Hasym.
  assert (Hsorted : ∀ l, l ≡ₚ l1 → Sorted largerShadowMapFirst (ea_sort compareShadowMapSize l)).
  { intros l Hl.
    apply (Sorted_on (λ a b, compareShadowMapSize b a = false) _
             (λ lp, shadowMapSize_ lp ∈ shadowMapSizes)).
    - intros a b. apply compareShadowMapSize_largerShadowMapFirst.
    - rewrite ea_sort_perm, Hl. exact Hsizes.
    - apply ea_sort_adjacent. exact Hasym. }
  split; [apply ea_sort_perm|]. split; [apply Hsorted; reflexivity|].
  apply (Sorted_unique_strong largerShadowMapFirst).
  - intros a b Ha Hb Hab Hba.
    apply (NoDup_fmap_elem (λ lp, light_ID (light_ lp)) l1); [exact Hnodup| | |].
    + rewrite ea_sort_perm, Hperm in Ha. exact Ha.
    + rewrite ea_sort_perm in Hb. exact Hb.
    + unfold largerShadowMapFirst in Hab, Hba. simpl in Hab, Hba. lia.
  - apply Hsorted. exact Hperm.
  - apply Hsorted. reflexivity.
  - rewrite !ea_sort_perm. exact Hperm.
Qed.

End ShadowMapOrderFacts.

(** ** Shadow casters *)

Section ShadowCasterFacts.
Context `{ShadowCasterExternals}.
Import LightProcessor DrawableProcessor ShadowCasters Spec Notions.

Lemma QueueDrawableUpdate_spec threadIndex (drawable : Drawable) (dp : DrawableProcessor)
    (queue : list (list Drawable)) :
  (drawableIndex_ drawable < length (isDrawableUpdated_ dp))%nat →
  (threadIndex < length queue)%nat →
  ∃ queue',
    QueueDrawableUpdate threadIndex drawable (dp, queue)
    = Some (set_isDrawableUpdated_
              (<[drawableIndex_ drawable := true]> (isDrawableUpdated_ dp)) dp, queue') ∧
    length queue' = length queue ∧
    ((isDrawableUpdated_ dp !! drawableIndex_ drawable = Some true ∧ queue' = queue) ∨
     (isDrawableUpdated_ dp !! drawableIndex_ drawable = Some false ∧
      Elements queue' ≡ₚ drawable :: Elements queue)).
Proof.
  intros Hindex Hthread. unfold QueueDrawableUpdate.
  destruct (lookup_lt_is_Some_2 _ _ Hindex) as [[|] Hmark]; rewrite Hmark; simpl.
  - exists queue. split; [reflexivity|]. split; [reflexivity|]. left. auto.
  - destruct (PushBack_total threadIndex drawable queue Hthread) as (queue' & -> & Hlen & Hperm).
    simpl. exists queue'. split; [reflexivity|]. split; [exact Hlen|]. right. auto.
Qed.

(** The loop over the candidates: which of them become shadow casters,
    which marks are set and which drawables are queued. *)
Lemma CollectCasters_spec numDrawables threadIndex lightType shadowCamera lightSpaceFrustum
    lightSpaceFrustumBoundingBox (candidates : list Drawable) :
  ∀ shadowCasters (dp : DrawableProcessor) queue,
  length (isDrawableUpdated_ dp) = numDrawables →
  length (geometryFlags_ dp) = numDrawables →
  (threadIndex < length queue)%nat →
  Forall (λ d, drawableIndex_ d < numDrawables)%nat candidates →
  ∃ added marks queue' queued,
    CollectCasters threadIndex lightType shadowCamera lightSpaceFrustum
      lightSpaceFrustumBoundingBox candidates shadowCasters (dp, queue)
    = Some (shadowCasters ++ added, (set_isDrawableUpdated_ marks dp, queue')) ∧
    added `sublist_of` candidates ∧
    (∀ d flags, d ∈ candidates →
       geometryFlags_ dp !! drawableIndex_ d = Some flags →
       testFlag flags GeometryRenderFlag_Visible = true →
       (lightType = LIGHT_POINT →
        ShadowCamera_IsOutside shadowCamera (worldBoundingBox_ d) = false) →
       d ∈ added) ∧
    length marks = numDrawables ∧
    (∀ i, marks !! i = Some true ↔
          isDrawableUpdated_ dp !! i = Some true ∨ ∃ d, d ∈ added ∧ drawableIndex_ d = i) ∧
    length queue' = length queue ∧
    Elements queue' ≡ₚ queued ++ Elements queue ∧
    queued `sublist_of` added ∧
    NoDup (drawableIndex_ <$> queued) ∧
    Forall (λ d, isDrawableUpdated_ dp !! drawableIndex_ d = Some false) queued.
Proof.
  induction candidates as [|drawable rest IH];
    intros shadowCasters dp queue Hmarks Hflags Hthread Hrange; cbn [CollectCasters].
  { exists [], (isDrawableUpdated_ dp), queue, []. rewrite app_nil_r.
    destruct dp. simpl in *. split; [reflexivity|]. split; [constructor|].
    split; [intros d flags Hd; inversion Hd|]. split; [exact Hmarks|].
    split; [|repeat split; auto; constructor].
    intros i. split; [auto|]. intros [Hi|(d & Hd & _)]; [exact Hi|inversion Hd]. }
  apply Forall_cons in Hrange as [Hindex Hrange].
  assert (Hskip : ∀ added marks queue' queued,
    (added `sublist_of` rest ∧
     (∀ d flags, d ∈ rest →
        geometryFlags_ dp !! drawableIndex_ d = Some flags →
        testFlag flags GeometryRenderFlag_Visible = true →
        (lightType = LIGHT_POINT →
         ShadowCamera_IsOutside shadowCamera (worldBoundingBox_ d) = false) →
        d ∈ added) ∧
     length marks = numDrawables ∧
     (∀ i, marks !! i = Some true ↔
           isDrawableUpdated_ dp !! i = Some true ∨ ∃ d, d ∈ added ∧ drawableIndex_ d = i) ∧
     length queue' = length queue ∧
     Elements queue' ≡ₚ queued ++ Elements queue ∧
     queued `sublist_of` added ∧
     NoDup (drawableIndex_ <$> queued) ∧
     Forall (λ d, isDrawableUpdated_ dp !! drawableIndex_ d = Some false) queued) →
    (∀ flags, geometryFlags_ dp !! drawableIndex_ drawable = Some flags →
       testFlag flags GeometryRenderFlag_Visible = true →
       (lightType = LIGHT_POINT →
        ShadowCamera_IsOutside shadowCamera (worldBoundingBox_ drawable) = false) → False) →
    added `sublist_of` drawable :: rest ∧
    (∀ d flags, d ∈ drawable :: rest →
       geometryFlags_ dp !! drawableIndex_ d = Some flags →
       testFlag flags GeometryRenderFlag_Visible = true →
       (lightType = LIGHT_POINT →
        ShadowCamera_IsOutside shadowCamera (worldBoundingBox_ d) = false) →
       d ∈ added) ∧
    length marks = numDrawables ∧
    (∀ i, marks !! i = Some true ↔
          isDrawableUpdated_ dp !! i = Some true ∨ ∃ d, d ∈ added ∧ drawableIndex_ d = i) ∧
    length queue' = length queue ∧
    Elements queue' ≡ₚ queued ++ Elements queue ∧
    queued `sublist_of` added ∧
    NoDup (drawableIndex_ <$> queued) ∧
    Forall (λ d, isDrawableUpdated_ dp !! drawableIndex_ d = Some false) queued).
  { intros added marks queue' queued (Hsub & Hvis & Hrest) Hnot.
    split; [apply sublist_cons; exact Hsub|]. split; [|exact Hrest].
    intros d flags Hd Hf Hv Hout. apply elem_of_cons in Hd as [->|Hd]; [|eauto].
    exfalso. eauto. }
  destruct (bool_decide (lightType = LIGHT_POINT)
            && ShadowCamera_IsOutside shadowCamera (worldBoundingBox_ drawable)) eqn:Houtside.
  { destruct (IH shadowCasters dp queue Hmarks Hflags Hthread Hrange)
      as (added & marks & queue' & queued & Hrun & Hrest).
    exists added, marks, queue', queued. split; [exact Hrun|].
    apply Hskip; [exact Hrest|]. intros flags _ _ Hout.
    apply andb_true_iff in Houtside as [Hpoint Hout'].
    apply bool_decide_eq_true in Hpoint. rewrite (Hout Hpoint) in Hout'. discriminate. }
  assert (Hflag : (drawableIndex_ drawable < length (geometryFlags_ dp))%nat) by lia.
  destruct (lookup_lt_is_Some_2 _ _ Hflag) as [flags Hflags']. cbn [fst].
  rewrite Hflags'. cbn [mbind option_bind].
  destruct (testFlag flags GeometryRenderFlag_Visible
            || IsShadowCasterVisible _ shadowCamera lightSpaceFrustum
                 lightSpaceFrustumBoundingBox) eqn:Hcaster.
  2:{ destruct (IH shadowCasters dp queue Hmarks Hflags Hthread Hrange)
        as (added & marks & queue' & queued & Hrun & Hrest).
      exists added, marks, queue', queued. split; [exact Hrun|].
      apply Hskip; [exact Hrest|]. intros flags' Hf Hv _.
      rewrite Hflags' in Hf. injection Hf as <-.
      rewrite Hv in Hcaster. discriminate. }
  clear Hskip.
  destruct (QueueDrawableUpdate_spec threadIndex drawable dp queue ltac:(lia) Hthread)
    as (queue1 & -> & Hlen1 & Hqueue1).
  cbn [mbind option_bind].
  set (dp1 := set_isDrawableUpdated_ _ dp).
  destruct (IH (shadowCasters ++ [drawable]) dp1 queue1)
    as (added & marks & queue' & queued & Hrun & Hsub & Hvis & Hlen & Hiff & Hlenq & Hperm
        & Hqsub & Hnodup & Hfresh).
  { simpl. rewrite length_insert. exact Hmarks. }
  { exact Hflags. }
  { lia. }
  { exact Hrange. }
  assert (Hdp1 : ∀ i, isDrawableUpdated_ dp1 !! i = Some true ↔
            isDrawableUpdated_ dp !! i = Some true ∨ i = drawableIndex_ drawable).
  { intros i. simpl. destruct (decide (i = drawableIndex_ drawable)) as [->|Hne].
    - rewrite list_lookup_insert_eq by lia. tauto.
    - rewrite list_lookup_insert_ne by auto. split; [auto|]. intros [Hi|Hi]; [exact Hi|done]. }
  assert (Hfresh1 : ∀ d, isDrawableUpdated_ dp1 !! drawableIndex_ d = Some false →
            isDrawableUpdated_ dp !! drawableIndex_ d = Some false ∧
            drawableIndex_ d ≠ drawableIndex_ drawable).
  { intros d. simpl. destruct (decide (drawableIndex_ d = drawableIndex_ drawable)) as [->|Hne].
    - rewrite list_lookup_insert_eq by lia. discriminate.
    - rewrite list_lookup_insert_ne by auto. auto. }
  assert (Hfresh' : Forall (λ d, isDrawableUpdated_ dp !! drawableIndex_ d = Some false ∧
                                 drawableIndex_ d ≠ drawableIndex_ drawable) queued).
  { eapply Forall_impl; [exact Hfresh|]. exact Hfresh1. }
  rewrite <- app_assoc in Hrun. simpl in Hrun.
  replace (set_isDrawableUpdated_ marks dp1) with (set_isDrawableUpdated_ marks dp) in Hrun
    by reflexivity.
  assert (Hvis' : ∀ d flags', d ∈ drawable :: rest →
            geometryFlags_ dp !! drawableIndex_ d = Some flags' →
            testFlag flags' GeometryRenderFlag_Visible = true →
            (lightType = LIGHT_POINT →
             ShadowCamera_IsOutside shadowCamera (worldBoundingBox_ d) = false) →
            d ∈ drawable :: added).
  { intros d flags' Hd Hf Hv Hout. apply elem_of_cons in Hd as [->|Hd];
      [apply elem_of_cons; auto|].
    apply elem_of_cons. right. apply (Hvis d flags'); auto. }
  assert (Hiff' : ∀ i, marks !! i = Some true ↔
            isDrawableUpdated_ dp !! i = Some true
            ∨ ∃ d, d ∈ drawable :: added ∧ drawableIndex_ d = i).
  { intros i. rewrite Hiff, Hdp1. split.
    - intros [[Hi| ->]|(d & Hd & Hi)]; [auto| |].
      + right. exists drawable. split; [apply elem_of_cons; auto|reflexivity].
      + right. exists d. split; [apply elem_of_cons; auto|exact Hi].
    - intros [Hi|(d & Hd & Hi)]; [auto|].
      apply elem_of_cons in Hd as [->|Hd]; [auto|]. right. eauto. }
  destruct Hqueue1 as [[Hmarked ->]|[Hunmarked Hpush]].
  - exists (drawable :: added), marks, queue', queued.
    split; [exact Hrun|]. split; [apply sublist_skip; exact Hsub|].
    split; [exact Hvis'|]. split; [exact Hlen|]. split; [exact Hiff'|].
    split; [lia|]. split; [exact Hperm|]. split; [apply sublist_cons; exact Hqsub|].
    split; [exact Hnodup|]. eapply Forall_impl; [exact Hfresh'|]. simpl. tauto.
  - exists (drawable :: added), marks, queue', (drawable :: queued).
    split; [exact Hrun|]. split; [apply sublist_skip; exact Hsub|].
    split; [exact Hvis'|]. split; [exact Hlen|]. split; [exact Hiff'|].
    split; [lia|].
    split; [rewrite Hperm, Hpush; symmetry; apply Permutation_middle|].
    split; [apply sublist_skip; exact Hqsub|]. split.
    + simpl. apply NoDup_cons. split; [|exact Hnodup].
      intros Hin. apply list_elem_of_fmap in Hin as (d & Heq & Hd).
      rewrite Forall_forall in Hfresh'. destruct (Hfresh' d Hd) as [_ Hne]. auto.
    + constructor; [exact Hunmarked|].
      eapply Forall_impl; [exact Hfresh'|]. simpl. tauto.
Qed.

Lemma PreprocessShadowCasters_spec numDrawables threadIndex (candidates : list Drawable)
    frustumSubRange light shadowCamera (dp : DrawableProcessor) queue :
  length (isDrawableUpdated_ dp) = numDrawables →
  length (geometryFlags_ dp) = numDrawables →
  (threadIndex < length queue)%nat →
  Forall (λ d, drawableIndex_ d < numDrawables)%nat candidates →
  ∃ shadowCasters marks queue' queued,
    PreprocessShadowCasters threadIndex candidates frustumSubRange light shadowCamera
      (dp, queue)
    = Some (shadowCasters, (set_isDrawableUpdated_ marks dp, queue')) ∧
    shadowCasters `sublist_of` candidates ∧
    (let splitZRange :=
       if negb (bool_decide (lightType_ light = LIGHT_DIRECTIONAL)) then sceneZRange_ dp
       else FloatRange_and (sceneZRange_ dp) frustumSubRange in
     let lightSpaceFrustum :=
       Frustum_ToLightSpace shadowCamera
         (GetSplitFrustum (first splitZRange) (second splitZRange)) in
     if Frustum_IsDegenerate lightSpaceFrustum
     then shadowCasters = [] ∧ queue' = queue
     else ∀ d flags, d ∈ candidates →
            geometryFlags_ dp !! drawableIndex_ d = Some flags →
            testFlag flags GeometryRenderFlag_Visible = true →
            (lightType_ light = LIGHT_POINT →
             ShadowCamera_IsOutside shadowCamera (worldBoundingBox_ d) = false) →
            d ∈ shadowCasters) ∧
    length marks = numDrawables ∧
    (∀ i, marks !! i = Some true ↔
          isDrawableUpdated_ dp !! i = Some true
          ∨ ∃ d, d ∈ shadowCasters ∧ drawableIndex_ d = i) ∧
    length queue' = length queue ∧
    Elements queue' ≡ₚ queued ++ Elements queue ∧
    queued `sublist_of` shadowCasters ∧
    NoDup (drawableIndex_ <$> queued) ∧
    Forall (λ d, isDrawableUpdated_ dp !! drawableIndex_ d = Some false) queued.
Proof.
  intros Hmarks Hflags Hthread Hrange. unfold PreprocessShadowCasters. cbn [fst].
  destruct (Frustum_IsDegenerate _) eqn:Hdegenerate.
  - exists [], (isDrawableUpdated_ dp), queue, [].
    split; [destruct dp; reflexivity|]. split; [apply sublist_nil_l|].
    split; [auto|]. split; [exact Hmarks|]. split.
    { intros i. split; [auto|]. intros [Hi|(d & Hd & _)]; [exact Hi|inversion Hd]. }
    repeat split; auto; constructor.
  - match goal with |- context [CollectCasters ?t ?lt ?cam ?f ?bb ?c ?s (?d, ?q)] =>
      destruct (CollectCasters_spec numDrawables t lt cam f bb c s d q
                  Hmarks Hflags Hthread Hrange)
        as (added & marks & queue' & queued & Hrun & Hrest) end.
    exists added, marks, queue', queued. split; [exact Hrun|]. exact Hrest.
Qed.

(** [PreprocessShadowCasters] returns; the shadow casters it leaves in the
    split are candidates, in the order of the candidates.  With a
    degenerate split frustum there is none and nothing is queued;
    otherwise every candidate that is flagged visible is a shadow caster
    (for a point light: unless it is outside the frustum of the cube face).
    Only the update marks of the drawable processor change: the marks set
    afterwards are those set before and those of the shadow casters. *)
Theorem PreprocessShadowCasters_casters numDrawables threadIndex (candidates : list Drawable)
    frustumSubRange light shadowCamera (dp : DrawableProcessor) queue :
  length (isDrawableUpdated_ dp) = numDrawables →
  length (geometryFlags_ dp) = numDrawables →
  (threadIndex < length queue)%nat →
  Forall (λ d, drawableIndex_ d < numDrawables)%nat candidates →
  ∃ shadowCasters dp' queue',
    PreprocessShadowCasters threadIndex candidates frustumSubRange light shadowCamera
      (dp, queue) = Some (shadowCasters, (dp', queue')) ∧
    shadowCasters `sublist_of` candidates ∧
    (let splitZRange :=
       if negb (bool_decide (lightType_ light = LIGHT_DIRECTIONAL)) then sceneZRange_ dp
       else FloatRange_and (sceneZRange_ dp) frustumSubRange in
     let lightSpaceFrustum :=
       Frustum_ToLightSpace shadowCamera
         (GetSplitFrustum (first splitZRange) (second splitZRange)) in
     if Frustum_IsDegenerate lightSpaceFrustum
     then shadowCasters = [] ∧ queue' = queue
     else ∀ d flags, d ∈ candidates →
            geometryFlags_ dp !! drawableIndex_ d = Some flags →
            testFlag flags GeometryRenderFlag_Visible = true →
            (lightType_ light = LIGHT_POINT →
             ShadowCamera_IsOutside shadowCamera (worldBoundingBox_ d) = false) →
            d ∈ shadowCasters) ∧
    dp' = set_isDrawableUpdated_ (isDrawableUpdated_ dp') dp ∧
    length (isDrawableUpdated_ dp') = numDrawables ∧
    (∀ i, isDrawableUpdated_ dp' !! i = Some true ↔
          isDrawableUpdated_ dp !! i = Some true
          ∨ ∃ d, d ∈ shadowCasters ∧ drawableIndex_ d = i).
Proof.
  intros Hmarks Hflags Hthread Hrange.
  destruct (PreprocessShadowCasters_spec numDrawables threadIndex candidates frustumSubRange
              light shadowCamera dp queue Hmarks Hflags Hthread Hrange)
    as (shadowCasters & marks & queue' & queued & Hrun & Hsub & Hvis & Hlen & Hiff & _).
  exists shadowCasters, (set_isDrawableUpdated_ marks dp), queue'.
  split; [exact Hrun|]. split; [exact Hsub|]. split; [exact Hvis|]. simpl. auto.
Qed.

Lemma Permutation_queues {X} (worker t main n q v : list X) :
  main ++ worker ≡ₚ v →
  (worker ++ t) ++ (main ++ n) ++ q ≡ₚ v ++ t ++ n ++ q.
Proof.
  intros <-. rewrite <- !app_assoc.
  rewrite (Permutation_app_swap_app t main). apply Permutation_app_swap_app.
Qed.

Lemma queuedForUpdate_marks (dp : DrawableProcessor) marks queue queue' queued :
  Elements queue' ≡ₚ queued ++ Elements queue →
  queuedForUpdate (set_isDrawableUpdated_ marks dp, queue')
  ≡ₚ queued ++ queuedForUpdate (dp, queue).
Proof.
  intros Hperm. unfold queuedForUpdate. simpl. rewrite Hperm.
  rewrite (Permutation_app_swap_app (Elements (nonThreadedGeometryUpdates_ dp)) queued).
  apply Permutation_app_swap_app.
Qed.

Lemma UpdatesUnique_grow (dp dp' : DrawableProcessor) queue queue' (queued : list Drawable) :
  UpdatesUnique (dp, queue) →
  queuedForUpdate (dp', queue') ≡ₚ queued ++ queuedForUpdate (dp, queue) →
  NoDup (drawableIndex_ <$> queued) →
  Forall (λ d, isDrawableUpdated_ dp !! drawableIndex_ d = Some false) queued →
  Forall (λ d, isDrawableUpdated_ dp' !! drawableIndex_ d = Some true) queued →
  (∀ i, isDrawableUpdated_ dp !! i = Some true → isDrawableUpdated_ dp' !! i = Some true) →
  UpdatesUnique (dp', queue').
Proof.
  intros [Hnodup Hmarked] Hperm Hnew Hfresh Hset Hmono. unfold UpdatesUnique.
  rewrite Hperm. split.
  - rewrite fmap_app. apply NoDup_app. split; [exact Hnew|]. split; [|exact Hnodup].
    intros i Hi Hi'.
    apply list_elem_of_fmap in Hi as (d & -> & Hd).
    apply list_elem_of_fmap in Hi' as (d' & Heq & Hd').
    rewrite Forall_forall in Hfresh, Hmarked.
    specialize (Hfresh d Hd). specialize (Hmarked d' Hd'). simpl in Hmarked.
    rewrite Heq, Hmarked in Hfresh. discriminate.
  - apply Forall_app. split; [exact Hset|].
    eapply Forall_impl; [exact Hmarked|]. simpl. intros d. apply Hmono.
Qed.

(** [PreprocessShadowCasters] queues a drawable update only for shadow
    casters that were not marked as updated before, and for each drawable
    index at most once; a drawable that [ProcessVisibleDrawable] or an
    earlier split has marked is never queued again.  When no drawable
    index waited twice for a geometry update before the call, none does
    after it. *)
Theorem PreprocessShadowCasters_queue numDrawables threadIndex (candidates : list Drawable)
    frustumSubRange light shadowCamera (dp : DrawableProcessor) queue :
  length (isDrawableUpdated_ dp) = numDrawables →
  length (geometryFlags_ dp) = numDrawables →
  (threadIndex < length queue)%nat →
  Forall (λ d, drawableIndex_ d < numDrawables)%nat candidates →
  UpdatesUnique (dp, queue) →
  ∃ shadowCasters dp' queue' queued,
    PreprocessShadowCasters threadIndex candidates frustumSubRange light shadowCamera
      (dp, queue) = Some (shadowCasters, (dp', queue')) ∧
    length queue' = length queue ∧
    Elements queue' ≡ₚ queued ++ Elements queue ∧
    queued `sublist_of` shadowCasters ∧
    NoDup (drawableIndex_ <$> queued) ∧
    Forall (λ d, isDrawableUpdated_ dp !! drawableIndex_ d = Some false) queued ∧
    UpdatesUnique (dp', queue').
Proof.
  intros Hmarks Hflags Hthread Hrange Hunique.
  destruct (PreprocessShadowCasters_spec numDrawables threadIndex candidates frustumSubRange
              light shadowCamera dp queue Hmarks Hflags Hthread Hrange)
    as (shadowCasters & marks & queue' & queued & Hrun & Hsub & _ & Hlen & Hiff & Hlenq
        & Hperm & Hqsub & Hnodup & Hfresh).
  exists shadowCasters, (set_isDrawableUpdated_ marks dp), queue', queued.
  split; [exact Hrun|]. split; [exact Hlenq|]. split; [exact Hperm|].
  split; [exact Hqsub|]. split; [exact Hnodup|]. split; [exact Hfresh|].
  apply (UpdatesUnique_grow dp _ queue queue' queued Hunique).
  - apply queuedForUpdate_marks. exact Hperm.
  - exact Hnodup.
  - exact Hfresh.
  - apply Forall_forall. intros d Hd. simpl. apply Hiff. right. exists d.
    split; [|reflexivity]. eapply elem_of_sublist; [exact Hd|exact Hqsub].
  - intros i Hi. simpl. apply Hiff. auto.
Qed.

(** The queued drawables are handed to the geometry update queues. *)
Lemma ForEachQueued_spec numThreads (schedule : list (nat * Drawable)) :
  ∀ dp : DrawableProcessor,
  length (threadedGeometryUpdates_ dp) = numThreads →
  length (nonThreadedGeometryUpdates_ dp) = numThreads →
  Forall (λ call, call.1 < numThreads)%nat schedule →
  ∃ dp',
    ForEachQueued schedule dp = Some dp' ∧
    isDrawableUpdated_ dp' = isDrawableUpdated_ dp ∧
    geometryFlags_ dp' = geometryFlags_ dp ∧
    visibleGeometries_ dp' = visibleGeometries_ dp ∧
    length (threadedGeometryUpdates_ dp') = numThreads ∧
    length (nonThreadedGeometryUpdates_ dp') = numThreads ∧
    Elements (nonThreadedGeometryUpdates_ dp')
    ≡ₚ filter (λ d, updatesInMainThread d = true) schedule.*2
       ++ Elements (nonThreadedGeometryUpdates_ dp) ∧
    Elements (threadedGeometryUpdates_ dp')
    ≡ₚ filter (λ d, updatesInMainThread d ≠ true) schedule.*2
       ++ Elements (threadedGeometryUpdates_ dp).
Proof.
  induction schedule as [|[threadIndex drawable] rest IH]; intros dp Ht Hn Hrange; simpl.
  { exists dp. auto 10. }
  apply Forall_cons in Hrange as [Hthread Hrange]. simpl in Hthread.
  unfold ProcessQueuedDrawable, QueueDrawableGeometryUpdate, updatesInMainThread.
  rewrite !filter_cons.
  destruct (updateGeometryType_ drawable) eqn:Htype; simpl.
  - destruct (PushBack_total threadIndex drawable (threadedGeometryUpdates_ dp) ltac:(lia))
      as (q & -> & Hlen & Hperm). simpl.
    destruct (IH (set_threadedGeometryUpdates_ q dp)) as (dp' & Hrun & Hu & Hf & Hv & Ht' & Hn'
      & Hmain & Hworker); simpl; try lia; [exact Hrange|].
    exists dp'. simpl in *. rewrite Hrun, Hmain, Hworker, Hperm.
    repeat split; auto. symmetry. apply Permutation_middle.
  - destruct (PushBack_total threadIndex drawable (nonThreadedGeometryUpdates_ dp) ltac:(lia))
      as (q & -> & Hlen & Hperm). simpl.
    destruct (IH (set_nonThreadedGeometryUpdates_ q dp)) as (dp' & Hrun & Hu & Hf & Hv & Ht'
      & Hn' & Hmain & Hworker); simpl; try lia; [exact Hrange|].
    exists dp'. simpl in *. rewrite Hrun, Hmain, Hworker, Hperm.
    repeat split; auto. symmetry. apply Permutation_middle.
  - destruct (PushBack_total threadIndex drawable (threadedGeometryUpdates_ dp) ltac:(lia))
      as (q & -> & Hlen & Hperm). simpl.
    destruct (IH (set_threadedGeometryUpdates_ q dp)) as (dp' & Hrun & Hu & Hf & Hv & Ht' & Hn'
      & Hmain & Hworker); simpl; try lia; [exact Hrange|].
    exists dp'. simpl in *. rewrite Hrun, Hmain, Hworker, Hperm.
    repeat split; auto. symmetry. apply Permutation_middle.
Qed.

(** [ProcessShadowCasters] returns with an empty queue of drawable
    updates: every queued drawable has moved to the geometry update queue
    of its update type, the update marks are as before, and the drawables
    that wait for a geometry update are the same as before, each drawable
    index still at most once. *)
Theorem ProcessShadowCasters_moves_queue numThreads (schedule : list (nat * Drawable))
    (dp : DrawableProcessor) queue :
  length (threadedGeometryUpdates_ dp) = numThreads →
  length (nonThreadedGeometryUpdates_ dp) = numThreads →
  Forall (λ call, call.1 < numThreads)%nat schedule →
  schedule.*2 ≡ₚ Elements queue →
  UpdatesUnique (dp, queue) →
  ∃ dp',
    ProcessShadowCasters numThreads schedule (dp, queue)
    = Some (dp', replicate numThreads []) ∧
    isDrawableUpdated_ dp' = isDrawableUpdated_ dp ∧
    Elements (nonThreadedGeometryUpdates_ dp')
    ≡ₚ filter (λ d, updatesInMainThread d = true) (Elements queue)
       ++ Elements (nonThreadedGeometryUpdates_ dp) ∧
    Elements (threadedGeometryUpdates_ dp')
    ≡ₚ filter (λ d, updatesInMainThread d ≠ true) (Elements queue)
       ++ Elements (threadedGeometryUpdates_ dp) ∧
    queuedForUpdate (dp', replicate numThreads []) ≡ₚ queuedForUpdate (dp, queue) ∧
    UpdatesUnique (dp', replicate numThreads []).
Proof.
  intros Ht Hn Hrange Hschedule [Hnodup Hmarked]. unfold ProcessShadowCasters. cbn [fst].
  destruct (ForEachQueued_spec numThreads schedule dp Ht Hn Hrange)
    as (dp' & -> & Hu & _ & _ & _ & _ & Hmain & Hworker).
  simpl. exists dp'. split; [reflexivity|]. split; [exact Hu|].
  rewrite Hschedule in Hmain, Hworker. split; [exact Hmain|]. split; [exact Hworker|].
  assert (Hperm : queuedForUpdate (dp', replicate numThreads [])
                  ≡ₚ queuedForUpdate (dp, queue)).
  { unfold queuedForUpdate. simpl. rewrite Elements_replicate_nil, app_nil_r.
    rewrite Hmain, Hworker.
    pose proof (filter_app_complement (λ d, updatesInMainThread d = true) (Elements queue))
      as Hsplit.
    change (λ x : Drawable, ¬ updatesInMainThread x = true)
      with (λ d : Drawable, updatesInMainThread d ≠ true) in Hsplit.
    rewrite <- Hsplit at 3.
    set (main := filter (λ d, updatesInMainThread d = true) (Elements queue)).
    set (worker := filter (λ d, updatesInMainThread d ≠ true) (Elements queue)).
    rewrite (Permutation_app_comm worker), <- app_assoc.
    apply Permutation_app_head.
    rewrite (Permutation_app_comm worker), (Permutation_app_comm main), <- app_assoc.
    reflexivity. }
  split; [exact Hperm|]. unfold UpdatesUnique. rewrite Hperm. simpl. rewrite Hu.
  split; assumption.
Qed.

(** When the drawables handed to [ProcessVisibleDrawables] have pairwise
    distinct drawable indices and none of them is marked as updated yet,
    the visible geometries among them join the drawables that wait for a
    geometry update, and still no drawable index waits twice. *)
Theorem ProcessVisibleDrawables_updates_unique numThreads numDrawables
    (schedule : list (nat * Drawable)) (dp : DrawableProcessor) queue :
  FrameSized numThreads numDrawables dp →
  ScheduleInRange numThreads numDrawables schedule →
  NoDup (drawableIndex_ <$> schedule.*2) →
  Forall (λ d, isDrawableUpdated_ dp !! drawableIndex_ d = Some false) schedule.*2 →
  UpdatesUnique (dp, queue) →
  ∃ dp',
    ProcessVisibleDrawables schedule dp = Some dp' ∧
    queuedForUpdate (dp', queue)
    ≡ₚ visibleGeometriesOf schedule.*2 ++ queuedForUpdate (dp, queue) ∧
    UpdatesUnique (dp', queue).
Proof.
  intros Hsized Hrange Hnodup Hfresh Hunique.
  destruct (ProcessVisibleDrawables_returns _ _ schedule dp Hsized Hrange) as [dp' Hrun].
  exists dp'. split; [exact Hrun|].
  apply ProcessVisibleDrawables_inv in Hrun as (dp1 & Hrun & Hu & _ & _ & Ht & Hn & _).
  pose proof (ForEachParallel_geometries _ _ _ Hrun) as (_ & Hmain & Hworker).
  pose proof (ForEachParallel_marks _ _ _ Hrun) as (Hmono & _ & Hall & _).
  assert (Hperm : queuedForUpdate (dp', queue)
                  ≡ₚ visibleGeometriesOf schedule.*2 ++ queuedForUpdate (dp, queue)).
  { unfold queuedForUpdate. simpl. rewrite Ht, Hn, Hmain, Hworker.
    apply Permutation_queues.
    exact (filter_app_complement (λ d, updatesInMainThread d = true)
             (visibleGeometriesOf schedule.*2)). }
  split; [exact Hperm|].
  assert (Hsub : visibleGeometriesOf schedule.*2 `sublist_of` schedule.*2)
    by apply sublist_filter.
  apply (UpdatesUnique_grow dp dp' queue queue (visibleGeometriesOf schedule.*2) Hunique).
  - exact Hperm.
  - eapply sublist_NoDup; [exact Hnodup|]. apply fmap_sublist. exact Hsub.
  - apply Forall_forall. intros d Hd. rewrite Forall_forall in Hfresh. apply Hfresh.
    eapply elem_of_sublist; [exact Hd|exact Hsub].
  - apply Forall_forall. intros d Hd. rewrite Hu. apply Hall.
    eapply elem_of_sublist; [exact Hd|exact Hsub].
  - intros i Hi. rewrite Hu. apply Hmono. exact Hi.
Qed.

(** [LightProcessor::ProcessShadowCasters] returns for a split that has a
    camera; it replaces the shadow casters of that split by candidates, in
    the order of the candidates, and leaves the number of active splits,
    the cameras and the depth ranges of all splits as they were, which is
    what [FinalizeShadowMap] and [SetShadowMap] rely on afterwards. *)
Theorem LightProcessor_ProcessShadowCasters_split numDrawables threadIndex
    (drawables : list Drawable) splitIndex (lp : LightProcessor) (dp : DrawableProcessor)
    queue split shadowCamera :
  splits_ lp !! splitIndex = Some split →
  shadowCamera_ split = Some shadowCamera →
  length (isDrawableUpdated_ dp) = numDrawables →
  length (geometryFlags_ dp) = numDrawables →
  (threadIndex < length queue)%nat →
  Forall (λ d, drawableIndex_ d < numDrawables)%nat drawables →
  ∃ lp' dp' queue' shadowCasters,
    LightProcessor_ProcessShadowCasters threadIndex drawables splitIndex lp (dp, queue)
    = Some (lp', (dp', queue')) ∧
    shadowCasters `sublist_of` drawables ∧
    splits_ lp' = <[splitIndex := set_shadowCasters shadowCasters split]> (splits_ lp) ∧
    numSplits_ lp' = numSplits_ lp ∧
    shadowCamera_ <$> splits_ lp' = shadowCamera_ <$> splits_ lp ∧
    zRange_ <$> splits_ lp' = zRange_ <$> splits_ lp.
Proof.
  intros Hsplit Hcamera Hmarks Hflags Hthread Hrange.
  unfold LightProcessor_ProcessShadowCasters. rewrite Hsplit. cbn [mbind option_bind].
  rewrite Hcamera. cbn [mbind option_bind].
  destruct (PreprocessShadowCasters_spec numDrawables threadIndex drawables (zRange_ split)
              (light_ lp) shadowCamera dp queue Hmarks Hflags Hthread Hrange)
    as (shadowCasters & marks & queue' & queued & -> & Hsub & _).
  cbn [mbind option_bind fst snd].
  eexists _, _, _, shadowCasters. split; [reflexivity|]. simpl.
  split; [exact Hsub|]. split; [reflexivity|]. split; [reflexivity|].
  rewrite !list_fmap_insert. simpl.
  split; apply list_insert_id; rewrite list_lookup_fmap, Hsplit; reflexivity.
Qed.

End ShadowCasterFacts.

(** ** Shader defines *)

Section ShaderDefineFacts.
Import ShaderDefines.

Lemma back_append_space (s : string) : back (String.append s " ") = Some Ascii.Space.
Proof.
  induction s as [|c s IH]; simpl; [reflexivity|].
  destruct (String.append s " ") eqn:Happend; [|exact IH].
  destruct s; discriminate.
Qed.

Lemma empty_append_space (s : string) : empty (String.append s " ") = false.
Proof. destruct s; reflexivity. Qed.

(** A normalized shader define is empty exactly when the define was, ends
    with a space otherwise, and normalizing it again changes nothing. *)
Theorem NormalizeShaderDefine_normal (define : string) :
  empty (NormalizeShaderDefine define) = empty define ∧
  (empty define = false → back (NormalizeShaderDefine define) = Some Ascii.Space) ∧
  NormalizeShaderDefine (NormalizeShaderDefine define) = NormalizeShaderDefine define.
Proof.
  unfold NormalizeShaderDefine.
  destruct (empty define) eqn:Hempty; simpl.
  { rewrite Hempty. simpl. split; [reflexivity|]. split; [discriminate|reflexivity]. }
  case_bool_decide as Hback; simpl.
  - rewrite Hempty, (bool_decide_eq_true_2 _ Hback). simpl. auto.
  - rewrite empty_append_space, back_append_space.
    rewrite bool_decide_eq_true_2 by reflexivity. simpl. auto.
Qed.

End ShaderDefineFacts.

(** ** Octree queries *)

Section OctreeQueryFacts.
Context `{OctreeExternals}.
Import OctreeQueries.

(** [TestDrawables] of a point or spot light query returns whenever the
    drawables it is handed have render flags; it appends to the result the
    drawables that [IsLitOrShadowCaster] takes as lit and to the shadow
    casters those it takes as shadow casters, in the order of the
    drawables.  With a null shadow caster pointer no drawable is taken as
    a shadow caster and nothing is written through the pointer.  Every
    drawable appended to the shadow casters casts shadows and has a shadow
    mask that shares a bit with the light mask of the query. *)
Theorem TestDrawables_spec (query : LitGeometriesQuery) (drawables : list Drawable)
    (inside : bool) (result : list Drawable) (shadowCasters : option (list Drawable)) :
  Forall (λ d, drawableIndex_ d < length (query_geometryFlags_ query))%nat drawables →
  let hasShadowCasters := bool_decide (is_Some shadowCasters) in
  let lit :=
    filter (λ d, fst <$> IsLitOrShadowCaster query hasShadowCasters d inside = Some true)
      drawables in
  let casters :=
    filter (λ d, snd <$> IsLitOrShadowCaster query hasShadowCasters d inside = Some true)
      drawables in
  TestDrawables query drawables inside result shadowCasters
  = Some (result ++ lit, (λ c, c ++ casters) <$> shadowCasters) ∧
  (shadowCasters = None → casters = []) ∧
  Forall (λ d, castShadows_ d = true ∧
               overlaps (GetShadowMask d) (query_lightMask_ query) = true) casters.
Proof.
  intros Hrange hasShadowCasters lit casters. split; [|split].
  - subst lit casters.
    assert (Hhas : hasShadowCasters = bool_decide (is_Some shadowCasters)) by reflexivity.
    clearbody hasShadowCasters. revert result shadowCasters Hhas.
    induction Hrange as [|drawable rest Hindex _ IH]; intros result shadowCasters Hhas;
      cbn [TestDrawables].
    { rewrite !filter_nil, app_nil_r. destruct shadowCasters; simpl; rewrite ?app_nil_r; reflexivity. }
    rewrite !filter_cons, <- Hhas.
    assert (Hsome : ∃ isLit isShadowCaster,
              IsLitOrShadowCaster query hasShadowCasters drawable inside
              = Some (isLit, isShadowCaster) ∧
              (isShadowCaster = true → hasShadowCasters = true)).
    { unfold IsLitOrShadowCaster.
      destruct (lookup_lt_is_Some_2 _ _ Hindex) as [flags ->]. simpl.
      eexists _, _. split; [reflexivity|]. intros Hc.
      repeat (apply andb_true_iff in Hc as [Hc ?]). exact Hc. }
    destruct Hsome as (isLit & isShadowCaster & Hquery & Hcaster).
    rewrite Hquery. simpl.
    destruct isLit, isShadowCaster; simpl.
    + rewrite Hhas in Hcaster. specialize (Hcaster eq_refl).
      apply bool_decide_eq_true in Hcaster as [c ->]. simpl.
      rewrite (IH (result ++ [drawable]) (Some (c ++ [drawable]))) by (rewrite Hhas; reflexivity).
      simpl. rewrite <- !app_assoc. reflexivity.
    + rewrite (IH (result ++ [drawable]) shadowCasters Hhas). rewrite <- !app_assoc. reflexivity.
    + rewrite Hhas in Hcaster. specialize (Hcaster eq_refl).
      apply bool_decide_eq_true in Hcaster as [c ->]. simpl.
      rewrite (IH result (Some (c ++ [drawable]))) by (rewrite Hhas; reflexivity).
      simpl. rewrite <- !app_assoc. reflexivity.
    + apply IH. exact Hhas.
  - intros ->. subst casters hasShadowCasters.
    rewrite bool_decide_eq_false_2 by (intros [? ?]; discriminate).
    induction drawables as [|d rest IH]; [reflexivity|].
    apply Forall_cons in Hrange as [_ Hrange]. rewrite filter_cons.
    rewrite decide_False; [exact (IH Hrange)|].
    unfold IsLitOrShadowCaster. destruct (_ !! _); simpl; discriminate.
  - subst casters. apply Forall_forall. intros d Hd.
    apply list_elem_of_filter in Hd as [Hd _].
    unfold IsLitOrShadowCaster in Hd. destruct (_ !! _); simpl in Hd; [|discriminate].
    injection Hd as Hd. repeat (apply andb_true_iff in Hd as [Hd ?]). auto.
Qed.

(** [TestDrawables] of the directional shadow caster query appends the
    drawables that [IsShadowCaster] accepts. *)
Lemma TestShadowCasters_filter (query : ShadowCasterQuery) (drawables : list Drawable)
    (inside : bool) :
  ∀ result,
  TestShadowCasters query drawables inside result
  = result ++ filter (λ d, IsShadowCaster query d inside = true) drawables.
Proof.
  induction drawables as [|drawable rest IH]; intros result; simpl.
  { rewrite app_nil_r. reflexivity. }
  rewrite IH, filter_cons. destruct (IsShadowCaster query drawable inside); simpl.
  - rewrite <- app_assoc. reflexivity.
  - reflexivity.
Qed.

End OctreeQueryFacts.

(** ** Shadow batches of a split *)

Section ShadowBatchFacts.
Context `{SceneExternals}.
Import LightProcessor ScenePass.

(** The batches that one shadow caster adds, and the dirty entries that go
    with them. *)
Lemma AddShadowBatches_spec pass threadIndex materialQuality (sceneLight : LightProcessor)
    splitIndex (drawable : Drawable) (sourceBatches : list SourceBatch) :
  ∀ j batches dirty,
  (threadIndex < length dirty)%nat →
  Forall (λ sourceBatch,
            is_Some (FindTechnique
                       (default (renderer_defaultMaterial_ pass) (sb_material_ sourceBatch))
                       drawable materialQuality)) sourceBatches →
  ∃ new dirty' added,
    AddShadowBatches pass threadIndex materialQuality sceneLight splitIndex drawable j
      sourceBatches (batches, dirty) = Some (batches ++ new, dirty') ∧
    length dirty' = length dirty ∧
    Forall (λ b, batch_drawable_ b = drawable ∧
                 (j ≤ batch_sourceBatchIndex_ b < j + length sourceBatches)%nat) new ∧
    Elements dirty' ≡ₚ added ++ Elements dirty ∧
    Forall (λ e, ∃ k b, e = (light_ID (light_ sceneLight), splitIndex, k) ∧
                        (length batches ≤ k)%nat ∧
                        (batches ++ new) !! k = Some b ∧
                        batch_pipelineState_ b = None) added ∧
    (∀ k b, new !! k = Some b → batch_pipelineState_ b = None →
            (light_ID (light_ sceneLight), splitIndex, (length batches + k)%nat) ∈ added).
Proof.
  induction sourceBatches as [|sourceBatch rest IH]; intros j batches dirty Hthread Htech;
    cbn [AddShadowBatches].
  { exists [], dirty, []. rewrite app_nil_r. repeat split; auto; try constructor.
    intros k b Hk. inversion Hk. }
  apply Forall_cons in Htech as [[tech Htech] Hrest]. rewrite Htech. cbn [mbind option_bind].
  destruct (Technique_GetSupportedPass tech (shadowPassIndex_ pass)) as [shadowPass|].
  2:{ destruct (IH (S j) batches dirty Hthread Hrest)
        as (new & dirty' & added & Hrun & Hlen & Hnew & Hperm & Hsound & Hcomplete).
      exists new, dirty', added. repeat split; auto.
      eapply Forall_impl; [exact Hnew|]. simpl. intros b [? ?]. split; [assumption|lia]. }
  set (key := (_, light_pipelineStateHash_ (light_ sceneLight))).
  set (b0 := {| batch_drawableIndex_ := drawableIndex_ drawable;
                batch_pipelineState_ := pipelineStateCache_ pass key |}).
  assert (Hdirty : ∃ dirty1 added0,
            (if pipelineStateCache_ pass key is None
             then PushBack threadIndex
                    (light_ID (light_ sceneLight), splitIndex, length batches) dirty
             else Some dirty) = Some dirty1 ∧
            length dirty1 = length dirty ∧
            Elements dirty1 ≡ₚ added0 ++ Elements dirty ∧
            added0 = (if pipelineStateCache_ pass key is None
                      then [(light_ID (light_ sceneLight), splitIndex, length batches)]
                      else [])).
  { destruct (pipelineStateCache_ pass key).
    - exists dirty, []. auto.
    - destruct (PushBack_total threadIndex
                  (light_ID (light_ sceneLight), splitIndex, length batches) dirty Hthread)
        as (dirty1 & -> & Hlen1 & Hperm1).
      exists dirty1, [(light_ID (light_ sceneLight), splitIndex, length batches)]. auto. }
  destruct Hdirty as (dirty1 & added0 & -> & Hlen1 & Hperm1 & Hadded0).
  cbn [mbind option_bind].
  destruct (IH (S j) (batches ++ [b0]) dirty1 ltac:(lia) Hrest)
    as (new & dirty' & added & Hrun & Hlen & Hnew & Hperm & Hsound & Hcomplete).
  rewrite <- app_assoc in Hrun, Hsound. simpl in Hrun, Hsound.
  rewrite length_app in Hsound, Hcomplete. simpl in Hsound, Hcomplete.
  exists (b0 :: new), dirty', (added ++ added0).
  split; [exact Hrun|]. split; [lia|]. split.
  { constructor; [simpl; split; [reflexivity|lia]|].
    eapply Forall_impl; [exact Hnew|]. simpl. intros b [? ?]. split; [assumption|lia]. }
  split; [rewrite Hperm, Hperm1, app_assoc; reflexivity|]. split.
  { apply Forall_app. split.
    - eapply Forall_impl; [exact Hsound|]. simpl.
      intros e (k & b & -> & Hk & Hb & Hstate). exists k, b. repeat split; auto. lia.
    - rewrite Hadded0. destruct (pipelineStateCache_ pass key) eqn:Hstate; constructor;
        [|constructor].
      exists (length batches), b0. repeat split; auto.
      apply list_lookup_middle. reflexivity. }
  intros k b Hk Hstate. apply elem_of_app. destruct k as [|k]; simpl in Hk.
  - injection Hk as <-. right. rewrite Hadded0. simpl in Hstate. rewrite Hstate.
    rewrite Nat.add_0_r. apply list_elem_of_here.
  - left. replace (length batches + S k)%nat with (length batches + 1 + k)%nat by lia.
    apply (Hcomplete k b Hk Hstate).
Qed.

(** The loop over the shadow casters of the split. *)
Lemma CollectCasterBatches_spec pass threadIndex materialQuality (sceneLight : LightProcessor)
    splitIndex lightMask (shadowCasters : list Drawable) :
  ∀ batches dirty,
  (threadIndex < length dirty)%nat →
  Forall (λ drawable,
            ShadowMaskCheck drawable lightMask = false →
            ShadowDistanceCheck drawable = false →
            Forall (λ sourceBatch,
                      is_Some (FindTechnique
                                 (default (renderer_defaultMaterial_ pass)
                                    (sb_material_ sourceBatch))
                                 drawable materialQuality)) (batches_ drawable))
    shadowCasters →
  ∃ new dirty' added,
    CollectCasterBatches pass threadIndex materialQuality sceneLight splitIndex lightMask
      shadowCasters (batches, dirty) = Some (batches ++ new, dirty') ∧
    length dirty' = length dirty ∧
    Forall (λ b, batch_drawable_ b ∈ shadowCasters ∧
                 ShadowMaskCheck (batch_drawable_ b) lightMask = false ∧
                 ShadowDistanceCheck (batch_drawable_ b) = false ∧
                 (batch_sourceBatchIndex_ b < length (batches_ (batch_drawable_ b)))%nat) new ∧
    Elements dirty' ≡ₚ added ++ Elements dirty ∧
    Forall (λ e, ∃ k b, e = (light_ID (light_ sceneLight), splitIndex, k) ∧
                        (length batches ≤ k)%nat ∧
                        (batches ++ new) !! k = Some b ∧
                        batch_pipelineState_ b = None) added ∧
    (∀ k b, new !! k = Some b → batch_pipelineState_ b = None →
            (light_ID (light_ sceneLight), splitIndex, (length batches + k)%nat) ∈ added).
Proof.
  induction shadowCasters as [|drawable rest IH]; intros batches dirty Hthread Htech;
    cbn [CollectCasterBatches].
  { exists [], dirty, []. rewrite app_nil_r. repeat split; auto; try constructor.
    intros k b Hk. inversion Hk. }
  apply Forall_cons in Htech as [Htech Hrest].
  assert (Hskip :
    (∃ new dirty' added,
       CollectCasterBatches pass threadIndex materialQuality sceneLight splitIndex lightMask
         rest (batches, dirty) = Some (batches ++ new, dirty') ∧
       length dirty' = length dirty ∧
       Forall (λ b, batch_drawable_ b ∈ rest ∧
                    ShadowMaskCheck (batch_drawable_ b) lightMask = false ∧
                    ShadowDistanceCheck (batch_drawable_ b) = false ∧
                    (batch_sourceBatchIndex_ b < length (batches_ (batch_drawable_ b)))%nat)
         new ∧
       Elements dirty' ≡ₚ added ++ Elements dirty ∧
       Forall (λ e, ∃ k b, e = (light_ID (light_ sceneLight), splitIndex, k) ∧
                           (length batches ≤ k)%nat ∧
                           (batches ++ new) !! k = Some b ∧
                           batch_pipelineState_ b = None) added ∧
       (∀ k b, new !! k = Some b → batch_pipelineState_ b = None →
               (light_ID (light_ sceneLight), splitIndex, (length batches + k)%nat) ∈ added)) →
    ∃ new dirty' added,
      CollectCasterBatches pass threadIndex materialQuality sceneLight splitIndex lightMask
        rest (batches, dirty) = Some (batches ++ new, dirty') ∧
      length dirty' = length dirty ∧
      Forall (λ b, batch_drawable_ b ∈ drawable :: rest ∧
                   ShadowMaskCheck (batch_drawable_ b) lightMask = false ∧
                   ShadowDistanceCheck (batch_drawable_ b) = false ∧
                   (batch_sourceBatchIndex_ b < length (batches_ (batch_drawable_ b)))%nat)
        new ∧
      Elements dirty' ≡ₚ added ++ Elements dirty ∧
      Forall (λ e, ∃ k b, e = (light_ID (light_ sceneLight), splitIndex, k) ∧
                          (length batches ≤ k)%nat ∧
                          (batches ++ new) !! k = Some b ∧
                          batch_pipelineState_ b = None) added ∧
      (∀ k b, new !! k = Some b → batch_pipelineState_ b = None →
              (light_ID (light_ sceneLight), splitIndex, (length batches + k)%nat) ∈ added)).
  { intros (new & dirty' & added & Hrun & Hlen & Hnew & Hrest').
    exists new, dirty', added. split; [exact Hrun|]. split; [exact Hlen|].
    split; [|exact Hrest'].
    eapply Forall_impl; [exact Hnew|]. simpl. intros b (Hin & Hother).
    split; [apply elem_of_cons; auto|exact Hother]. }
  destruct (ShadowMaskCheck drawable lightMask) eqn:Hmask.
  { apply Hskip. apply IH; assumption. }
  destruct (ShadowDistanceCheck drawable) eqn:Hdistance.
  { apply Hskip. apply IH; assumption. }
  clear Hskip.
  destruct (AddShadowBatches_spec pass threadIndex materialQuality sceneLight splitIndex
              drawable (batches_ drawable) 0 batches dirty Hthread
              (Htech eq_refl eq_refl))
    as (new0 & dirty0 & added0 & -> & Hlen0 & Hnew0 & Hperm0 & Hsound0 & Hcomplete0).
  cbn [mbind option_bind].
  destruct (IH (batches ++ new0) dirty0 ltac:(lia) Hrest)
    as (new1 & dirty' & added1 & Hrun & Hlen1 & Hnew1 & Hperm1 & Hsound1 & Hcomplete1).
  rewrite <- app_assoc in Hrun, Hsound1. rewrite length_app in Hsound1, Hcomplete1.
  exists (new0 ++ new1), dirty', (added1 ++ added0).
  split; [exact Hrun|]. split; [lia|]. split.
  { apply Forall_app. split.
    - eapply Forall_impl; [exact Hnew0|]. simpl. intros b [-> Hindex].
      split; [apply list_elem_of_here|]. repeat split; auto. lia.
    - eapply Forall_impl; [exact Hnew1|]. simpl. intros b (Hin & Hother).
      split; [apply elem_of_cons; auto|exact Hother]. }
  split; [rewrite Hperm1, Hperm0, app_assoc; reflexivity|]. split.
  { apply Forall_app. split.
    - eapply Forall_impl; [exact Hsound1|]. simpl.
      intros e (k & b & -> & Hk & Hb & Hstate). exists k, b. repeat split; auto. lia.
    - eapply Forall_impl; [exact Hsound0|]. simpl.
      intros e (k & b & -> & Hk & Hb & Hstate). exists k, b. repeat split; auto.
      rewrite app_assoc. apply lookup_app_l_Some. exact Hb. }
  intros k b Hk Hstate. apply elem_of_app.
  destruct (decide (k < length new0)%nat) as [Hlt|Hge].
  - right. rewrite lookup_app_l in Hk by exact Hlt. apply (Hcomplete0 k b Hk Hstate).
  - left. rewrite lookup_app_r in Hk by lia.
    replace (length batches + k)%nat
      with (length batches + length new0 + (k - length new0))%nat by lia.
    apply (Hcomplete1 _ b Hk Hstate).
Qed.

(** [CollectShadowBatches] only appends to the shadow caster batches of
    the split it is called for, and leaves the other splits alone.  Every
    batch it appends belongs to a shadow caster of the split that passed
    the mask test and is within its shadow distance, and names one of the
    caster's source batches.  The dirty entries it adds name this light,
    this split and the index of an appended batch that has no pipeline
    state, so that [FinalizeShadowBatches] finds a batch at each of them;
    every appended batch without a pipeline state has its entry. *)
Theorem CollectShadowBatches_appends threadIndex materialQuality (sceneLight : LightProcessor)
    splitIndex pass split :
  splits_ sceneLight !! splitIndex = Some split →
  (threadIndex < length (batchesDirty_ pass))%nat →
  Forall (λ drawable,
            ShadowMaskCheck drawable (lightMask_ (light_ sceneLight)) = false →
            ShadowDistanceCheck drawable = false →
            Forall (λ sourceBatch,
                      is_Some (FindTechnique
                                 (default (renderer_defaultMaterial_ pass)
                                    (sb_material_ sourceBatch))
                                 drawable materialQuality)) (batches_ drawable))
    (shadowCasters_ split) →
  ∃ sceneLight' pass' new added,
    CollectShadowBatches threadIndex materialQuality sceneLight splitIndex pass
    = Some (sceneLight', pass') ∧
    splits_ sceneLight'
    = <[splitIndex := set_shadowCasterBatches (shadowCasterBatches_ split ++ new) split]>
        (splits_ sceneLight) ∧
    numSplits_ sceneLight' = numSplits_ sceneLight ∧
    Forall (λ b, batch_drawable_ b ∈ shadowCasters_ split ∧
                 ShadowMaskCheck (batch_drawable_ b) (lightMask_ (light_ sceneLight)) = false ∧
                 ShadowDistanceCheck (batch_drawable_ b) = false ∧
                 (batch_sourceBatchIndex_ b < length (batches_ (batch_drawable_ b)))%nat) new ∧
    pass' = set_batchesDirty (batchesDirty_ pass') pass ∧
    Elements (batchesDirty_ pass') ≡ₚ added ++ Elements (batchesDirty_ pass) ∧
    Forall (λ e, ∃ k b, e = (light_ID (light_ sceneLight), splitIndex, k) ∧
                        (length (shadowCasterBatches_ split) ≤ k)%nat ∧
                        (shadowCasterBatches_ split ++ new) !! k = Some b ∧
                        batch_pipelineState_ b = None) added ∧
    (∀ k b, new !! k = Some b → batch_pipelineState_ b = None →
            (light_ID (light_ sceneLight), splitIndex,
             (length (shadowCasterBatches_ split) + k)%nat) ∈ added).
Proof.
  intros Hsplit Hthread Htech. unfold CollectShadowBatches. rewrite Hsplit.
  cbn [mbind option_bind].
  destruct (CollectCasterBatches_spec pass threadIndex materialQuality sceneLight splitIndex
              (lightMask_ (light_ sceneLight)) (shadowCasters_ split)
              (shadowCasterBatches_ split) (batchesDirty_ pass) Hthread Htech)
    as (new & dirty' & added & -> & Hlen & Hnew & Hperm & Hsound & Hcomplete).
  cbn [mbind option_bind]. eexists _, _, new, added. split; [reflexivity|]. simpl.
  repeat split; auto.
Qed.

End ShadowBatchFacts.

(** * Further scenes, checked *)

Section LightProcessorMoreScenes.
Import LightProcessor Spec LightFade Scenes MoreScenes.
#[local] Existing Instance Line.externals.

(** The spot light whose only split has a shadow caster keeps its shadow
    and gets a shadow map of one split of 512 texels. *)
Lemma FinalizeShadowMap_with_caster_witness :
  ∃ lp',
    FinalizeShadowMap spotWithCamera = Some lp' ∧
    hasShadow_ lp' = true ∧
    numSplits_ lp' = numSplits_ spotWithCamera ∧
    splits_ lp' = splits_ spotWithCamera ∧
    shadowMapSplitSize_ lp'
    = (if decide (lightType_ (light_ spotWithCamera) = LIGHT_POINT) then 256 else 512)%Z ∧
    shadowMapSize_ lp'
    = (shadowMapSplitSize_ lp' * (GetSplitsGridSize spotWithCamera).1,
       shadowMapSplitSize_ lp' * (GetSplitsGridSize spotWithCamera).2)%Z ∧
    (Z.of_nat (numSplits_ spotWithCamera)
     * (shadowMapSplitSize_ lp' * shadowMapSplitSize_ lp')
     ≤ (shadowMapSize_ lp').1 * (shadowMapSize_ lp').2)%Z.
Proof.
  apply (FinalizeShadowMap_with_caster spotWithCamera).
  - reflexivity.
  - simpl. lia.
  - left. simpl. unfold MAX_CASCADE_SPLITS. lia.
  - apply Exists_cons_hd. discriminate.
Defined.

Example spotWithCamera_shadowMapSize :
  shadowMapSize_ <$> FinalizeShadowMap spotWithCamera = Some (512, 512)%Z.
Proof. vm_compute. reflexivity. Qed.

Lemma SetupShadowCameras_cascades_tile_witness :
  ∃ lp',
    SetupShadowCameras (mkContext 1 1000) fourCascades = Some lp' ∧
    (∀ i, (i < numSplits_ lp')%nat → ∃ split,
        splits_ lp' !! i = Some split ∧
        (first (zRange_ split) < second (zRange_ split))%Q ∧
        (second (zRange_ split) <= cull_farClip_ (mkContext 1 1000))%Q) ∧
    ((0 < numSplits_ lp')%nat → ∃ split,
        splits_ lp' !! 0%nat = Some split ∧
        first (zRange_ split) = cull_nearClip_ (mkContext 1 1000)) ∧
    (∀ i s s', (S i < numSplits_ lp')%nat →
       splits_ lp' !! i = Some s → splits_ lp' !! S i = Some s' →
       first (zRange_ s') = second (zRange_ s)).
Proof.
  apply (SetupShadowCameras_cascades_tile (mkContext 1 1000) fourCascades).
  - reflexivity.
  - reflexivity.
  - reflexivity.
  - simpl. unfold MAX_CASCADE_SPLITS. lia.
  - constructor.
Defined.

Lemma SetupShadowCameras_cameras_witness :
  ∃ lp',
    SetupShadowCameras (mkContext 1 1000) pointLightNoCasters = Some lp' ∧
    length (splits_ lp') = MAX_SPLITS ∧
    (∀ j, (numSplits_ lp' ≤ j)%nat → splits_ lp' !! j = splits_ pointLightNoCasters !! j) ∧
    (∀ j, (j < numSplits_ lp')%nat → ∃ split old c,
        splits_ lp' !! j = Some split ∧ splits_ pointLightNoCasters !! j = Some old ∧
        shadowCasters_ split = shadowCasters_ old ∧
        shadowCamera_ split = Some c ∧ zoom_ c = 1%Q ∧
        match lightType_ (light_ pointLightNoCasters) with
        | LIGHT_DIRECTIONAL => orthographic_ c = true ∧ nearClip_ c = 0%Q
        | LIGHT_SPOT =>
            orthographic_ c = false ∧
            nearClip_ c = (shadowNearFarRatio_ (light_ pointLightNoCasters)
                           * light_range_ (light_ pointLightNoCasters))%Q ∧
            farClip_ c = light_range_ (light_ pointLightNoCasters) ∧
            fov_ c = light_fov_ (light_ pointLightNoCasters) ∧
            aspectRatio_ c = light_aspectRatio_ (light_ pointLightNoCasters)
        | LIGHT_POINT =>
            orthographic_ c = false ∧
            nearClip_ c = (shadowNearFarRatio_ (light_ pointLightNoCasters)
                           * light_range_ (light_ pointLightNoCasters))%Q ∧
            farClip_ c = light_range_ (light_ pointLightNoCasters) ∧
            fov_ c = 90%Q ∧ aspectRatio_ c = 1%Q
        end).
Proof.
  apply (SetupShadowCameras_cameras (mkContext 1 1000) pointLightNoCasters).
  - reflexivity.
  - reflexivity.
  - simpl. unfold MAX_CASCADE_SPLITS. lia.
  - constructor.
Defined.

Lemma FinalizeShadowCamera_zoom_witness :
  ∃ split' camera',
    FinalizeShadowCamera bitZeroLight allocatedSplit = Some split' ∧
    shadowCamera_ split' = Some camera' ∧
    zRange_ split' = zRange_ allocatedSplit ∧
    split_shadowMap_ split' = split_shadowMap_ allocatedSplit ∧
    shadowCasters_ split' = shadowCasters_ allocatedSplit ∧
    shadowCasterBatches_ split' = shadowCasterBatches_ allocatedSplit ∧
    orthographic_ camera' = orthographic_ Camera_new ∧
    nearClip_ camera' = nearClip_ Camera_new ∧
    farClip_ camera' = farClip_ Camera_new ∧
    fov_ camera' = fov_ Camera_new ∧
    (lightType_ bitZeroLight ≠ LIGHT_DIRECTIONAL →
     aspectRatio_ camera' = aspectRatio_ Camera_new ∧
     orthoSize_ camera' = orthoSize_ Camera_new) ∧
    ((zoom_ Camera_new < 1)%Q → zoom_ camera' = zoom_ Camera_new) ∧
    ((1 <= zoom_ Camera_new)%Q → (zoom_ camera' < zoom_ Camera_new)%Q).
Proof.
  apply (FinalizeShadowCamera_zoom bitZeroLight allocatedSplit Camera_new).
  - reflexivity.
  - reflexivity.
Defined.

(** The zoom 1 becomes 510/512. *)
Example allocatedSplit_zoom :
  (λ split', zoom_ <$> shadowCamera_ split') <$> FinalizeShadowCamera bitZeroLight allocatedSplit
  = Some (Some (510 # 512)%Q).
Proof. vm_compute. reflexivity. Qed.

Lemma SetShadowMap_allocated_witness :
  ∃ lp',
    SetShadowMap allocatedShadowMap spotWithCamera = Some lp' ∧
    numSplits_ lp' = numSplits_ spotWithCamera ∧
    hasShadow_ lp' = hasShadow_ spotWithCamera ∧
    shadowMap_ lp' = allocatedShadowMap ∧
    shadowMapSize_ lp' = shadowMapSize_ spotWithCamera ∧
    length (splits_ lp') = length (splits_ spotWithCamera) ∧
    (∀ j, (numSplits_ spotWithCamera ≤ j)%nat →
       splits_ lp' !! j = splits_ spotWithCamera !! j) ∧
    (∀ j, (j < numSplits_ spotWithCamera)%nat → ∃ split split',
        splits_ spotWithCamera !! j = Some split ∧ splits_ lp' !! j = Some split' ∧
        split_shadowMap_ split'
        = ShadowMap_GetSplit allocatedShadowMap j (GetSplitsGridSize spotWithCamera) ∧
        zRange_ split' = zRange_ split ∧
        shadowCasters_ split' = shadowCasters_ split ∧
        shadowCasterBatches_ split' = shadowCasterBatches_ split ∧
        is_Some (shadowCamera_ split')).
Proof.
  apply (SetShadowMap_allocated allocatedShadowMap spotWithCamera).
  - simpl. eauto.
  - simpl. lia.
  - intros j split Hj Hsplit. simpl in Hj.
    assert (j = 0%nat) as -> by lia. simpl in Hsplit. injection Hsplit as <-. simpl. eauto.
Defined.

(** The four cascades: once the cameras are set up, the shadow map is
    sized and handed over without a missing split or camera. *)
Lemma SetShadowMap_after_SetupShadowCameras_witness :
  ∃ lp3 lp4,
    FinalizeShadowMap
      (default fourCascades (SetupShadowCameras (mkContext 1 1000) fourCascades)) = Some lp3 ∧
    SetShadowMap allocatedShadowMap lp3 = Some lp4 ∧
    numSplits_ lp4
    = match texture_ allocatedShadowMap with
      | Some _ =>
          numSplits_
            (default fourCascades (SetupShadowCameras (mkContext 1 1000) fourCascades))
      | None => 0%nat
      end.
Proof.
  apply (SetShadowMap_after_SetupShadowCameras (mkContext 1 1000) allocatedShadowMap
           fourCascades
           (default fourCascades (SetupShadowCameras (mkContext 1 1000) fourCascades))
           (default fourCascades (SetupShadowCameras (mkContext 1 1000) fourCascades))).
  - vm_compute. reflexivity.
  - reflexivity.
  - reflexivity.
Defined.

(** A light 30 away with draw distance 20 is not faded when the fade
    starts at 40, beyond the light. *)
Lemma GetLightFade_near_witness : (GetLightFade 40 fadingLight == 1)%Q.
Proof.
  apply (GetLightFade_near 40 fadingLight). vm_compute. discriminate.
Defined.

(** With the fade starting at 10 the same light is as far beyond its draw
    distance as the draw distance is beyond the fade start: its fade
    factor is at most -1. *)
Lemma GetLightFade_sign_witness :
  (GetLightFade 10 fadingLight <= 0)%Q ∧ (GetLightFade 10 fadingLight <= -1)%Q.
Proof.
  destruct (GetLightFade_sign 10 fadingLight) as (Hfar & _ & Htwice).
  - discriminate.
  - reflexivity.
  - reflexivity.
  - split; [apply Hfar|apply Htwice]; vm_compute; discriminate.
Defined.

Example fadingLight_fade : (GetLightFade 10 fadingLight == - (1))%Q.
Proof. vm_compute. reflexivity. Qed.

(** The shadow map size becomes one of the listed sizes. *)
Lemma FinalizeShadowMap_shadowMapSizes_witness :
  (shadowMapSize_ spotWithCamera ∈ Notions.shadowMapSizes →
   shadowMapSize_ (default spotWithCamera (FinalizeShadowMap spotWithCamera))
   ∈ Notions.shadowMapSizes) ∧
  (hasShadow_ (default spotWithCamera (FinalizeShadowMap spotWithCamera)) = true →
   shadowMapSize_ (default spotWithCamera (FinalizeShadowMap spotWithCamera))
   ∈ Notions.shadowMapSizes).
Proof.
  apply (FinalizeShadowMap_shadowMapSizes spotWithCamera
           (default spotWithCamera (FinalizeShadowMap spotWithCamera))).
  vm_compute. reflexivity.
Defined.

End LightProcessorMoreScenes.

Section DrawableProcessorMoreScenes.
Import LightProcessor DrawableProcessor LightProcessorOrder ShadowCasters OctreeQueries
  ScenePass Spec Notions Scenes MoreScenes.
#[local] Existing Instance Line.externals.
#[local] Existing Instance Line.sceneExternals.
#[local] Existing Instance LineShadows.shadowCasterExternals.
#[local] Existing Instance LineShadows.octreeExternals.

Lemma GetDrawableLightPenalty_classes_witness :
  ((-2 <= GetDrawableLightPenalty 1 LI_IMPORTANT LIGHT_POINT)%Q ∧
   (GetDrawableLightPenalty 1 LI_IMPORTANT LIGHT_POINT <= -1)%Q) ∧
  ((0 <= GetDrawableLightPenalty (1 # 2) LI_AUTO LIGHT_DIRECTIONAL)%Q ∧
   (GetDrawableLightPenalty (1 # 2) LI_AUTO LIGHT_DIRECTIONAL <= 2)%Q) ∧
  ((3 <= GetDrawableLightPenalty 2 LI_NOT_IMPORTANT LIGHT_SPOT)%Q ∧
   (GetDrawableLightPenalty 2 LI_NOT_IMPORTANT LIGHT_SPOT <= 5)%Q) ∧
  (GetDrawableLightPenalty 1 LI_IMPORTANT LIGHT_POINT
   < GetDrawableLightPenalty (1 # 2) LI_AUTO LIGHT_DIRECTIONAL)%Q ∧
  (GetDrawableLightPenalty (1 # 2) LI_AUTO LIGHT_DIRECTIONAL
   < GetDrawableLightPenalty 2 LI_NOT_IMPORTANT LIGHT_SPOT)%Q.
Proof.
  apply (GetDrawableLightPenalty_classes 1 (1 # 2) 2 LIGHT_POINT LIGHT_DIRECTIONAL LIGHT_SPOT).
  - reflexivity.
  - reflexivity.
Defined.

Lemma GetDrawableLightPenalty_monotone_witness :
  (GetDrawableLightPenalty (1 # 2) LI_AUTO LIGHT_POINT
   <= GetDrawableLightPenalty 2 LI_AUTO LIGHT_POINT)%Q.
Proof.
  apply (GetDrawableLightPenalty_monotone (1 # 2) 2 LI_AUTO LIGHT_POINT).
  - reflexivity.
  - vm_compute. discriminate.
Defined.

Lemma frameStart_FrameSized : FrameSized 2 3 frameStart.
Proof. repeat split; try reflexivity. repeat constructor. Qed.

Lemma firstRun_ScheduleInRange : ScheduleInRange 2 3 firstRun.
Proof. repeat constructor; simpl; lia. Qed.

Lemma ProcessVisibleDrawables_visibleGeometries_witness :
  ∃ dp',
    ProcessVisibleDrawables firstRun frameStart = Some dp' ∧
    Elements (visibleGeometries_ dp')
    ≡ₚ visibleGeometriesOf firstRun.*2 ++ Elements (visibleGeometries_ frameStart).
Proof.
  apply (ProcessVisibleDrawables_visibleGeometries 2 3 firstRun frameStart).
  - exact frameStart_FrameSized.
  - exact firstRun_ScheduleInRange.
Defined.

Lemma ProcessVisibleDrawables_update_queues_witness :
  ∃ dp',
    ProcessVisibleDrawables firstRun frameStart = Some dp' ∧
    Elements (nonThreadedGeometryUpdates_ dp')
    ≡ₚ filter (λ d, updatesInMainThread d = true) (visibleGeometriesOf firstRun.*2)
       ++ Elements (nonThreadedGeometryUpdates_ frameStart) ∧
    Elements (threadedGeometryUpdates_ dp')
    ≡ₚ filter (λ d, updatesInMainThread d ≠ true) (visibleGeometriesOf firstRun.*2)
       ++ Elements (threadedGeometryUpdates_ frameStart) ∧
    (length (Elements (nonThreadedGeometryUpdates_ dp'))
     + length (Elements (threadedGeometryUpdates_ dp')))%nat
    = (length (visibleGeometriesOf firstRun.*2)
       + (length (Elements (nonThreadedGeometryUpdates_ frameStart))
          + length (Elements (threadedGeometryUpdates_ frameStart))))%nat.
Proof.
  apply (ProcessVisibleDrawables_update_queues 2 3 firstRun frameStart).
  - exact frameStart_FrameSized.
  - exact firstRun_ScheduleInRange.
Defined.

Lemma ProcessVisibleDrawables_flags_witness :
  ∃ dp',
    ProcessVisibleDrawables firstRun frameStart = Some dp' ∧
    (∀ d, d ∈ firstRun.*2 → isDrawableUpdated_ dp' !! drawableIndex_ d = Some true) ∧
    (∀ d, d ∈ visibleGeometriesOf firstRun.*2 →
       ∃ flag, flag ∈ visibleFlags ∧ geometryFlags_ dp' !! drawableIndex_ d = Some flag) ∧
    (∀ i, (∀ d, d ∈ firstRun.*2 → drawableIndex_ d ≠ i) →
       isDrawableUpdated_ dp' !! i = isDrawableUpdated_ frameStart !! i ∧
       geometryFlags_ dp' !! i = geometryFlags_ frameStart !! i) ∧
    log_ dp' = log_ frameStart.
Proof.
  apply (ProcessVisibleDrawables_flags 2 3 firstRun frameStart).
  - exact frameStart_FrameSized.
  - exact firstRun_ScheduleInRange.
Defined.

(** After the first run all three drawables are marked, the geometry has
    the flags visible, lit and forward lit, and it waits in the queue of
    the worker threads. *)
Example firstRun_marks_and_flags :
  (isDrawableUpdated_ afterFirstRun, geometryFlags_ afterFirstRun,
   drawableIndex_ <$> Elements (threadedGeometryUpdates_ afterFirstRun),
   drawableIndex_ <$> Elements (nonThreadedGeometryUpdates_ afterFirstRun))
  = ([true; true; true], [7; 0; 0]%N, [0%nat], []).
Proof. vm_compute. reflexivity. Qed.

(** The light with ID 3, first of the visible lights after the first run,
    is accumulated once for the near geometry. *)
Lemma ProcessForwardLighting_accumulates_witness :
  ∃ dp',
    ProcessForwardLighting 0 [nearGeometry] afterFirstRun = Some dp' ∧
    dp' = set_geometryLighting_ (geometryLighting_ dp') afterFirstRun ∧
    log_ dp' = log_ afterFirstRun ∧
    length (geometryLighting_ dp') = length (geometryLighting_ afterFirstRun) ∧
    (∀ i, (∀ g, g ∈ [nearGeometry] → drawableIndex_ g ≠ i) →
       geometryLighting_ dp' !! i = geometryLighting_ afterFirstRun !! i) ∧
    (∀ g, g ∈ [nearGeometry] → ∃ accumulator,
       geometryLighting_ afterFirstRun !! drawableIndex_ g = Some accumulator ∧
       geometryLighting_ dp' !! drawableIndex_ g
       = Some (LightAccumulator_AccumulateLight 0
                 (lightImportance_ (asLight_ (lightDrawable 2 3)))
                 (maxVertexLights_ afterFirstRun) (maxPixelLights_ afterFirstRun)
                 (GetDrawableLightPenalty
                    (ea_max (GetDistanceTo (asLight_ (lightDrawable 2 3)) g) M_LARGE_EPSILON
                     * (1 / intensityDivisor_ (asLight_ (lightDrawable 2 3))))%Q
                    (lightImportance_ (asLight_ (lightDrawable 2 3)))
                    (lightType_ (asLight_ (lightDrawable 2 3))))
                 accumulator)).
Proof.
  apply (ProcessForwardLighting_accumulates 0 [nearGeometry] afterFirstRun
           (asLight_ (lightDrawable 2 3))).
  - vm_compute. reflexivity.
  - repeat constructor.
  - apply NoDup_singleton.
Defined.

Example afterFirstRun_lighting :
  geometryLighting_ <$> ProcessForwardLighting 0 [nearGeometry] afterFirstRun
  = Some [[(0%nat, 1%Q)]; []; []].
Proof. vm_compute. reflexivity. Qed.

(** *** Light processors by shadow map size *)

Lemma processorOf_shadowMapSizes id :
  shadowMapSize_ (processorOf id (1024, 512)%Z) ∈ shadowMapSizes ∧
  shadowMapSize_ (processorOf id (512, 512)%Z) ∈ shadowMapSizes.
Proof. split; apply (bool_decide_unpack _); vm_compute; exact I. Qed.

Lemma compareShadowMapSize_total_witness :
  compareShadowMapSize (processorOf 7 (512, 512)%Z) (processorOf 3 (1024, 512)%Z) = true ∨
  compareShadowMapSize (processorOf 3 (1024, 512)%Z) (processorOf 7 (512, 512)%Z) = true.
Proof.
  apply (compareShadowMapSize_total (processorOf 7 (512, 512)%Z)
           (processorOf 3 (1024, 512)%Z)).
  - apply (processorOf_shadowMapSizes 7).
  - apply (processorOf_shadowMapSizes 3).
  - discriminate.
Defined.

Lemma SortLightProcessorsByShadowMap_deterministic_witness :
  SortLightProcessorsByShadowMap
    [processorOf 7 (512, 512)%Z; processorOf 3 (1024, 512)%Z; processorOf 5 (512, 512)%Z]
  ≡ₚ [processorOf 7 (512, 512)%Z; processorOf 3 (1024, 512)%Z; processorOf 5 (512, 512)%Z] ∧
  Sorted largerShadowMapFirst
    (SortLightProcessorsByShadowMap
       [processorOf 7 (512, 512)%Z; processorOf 3 (1024, 512)%Z;
        processorOf 5 (512, 512)%Z]) ∧
  SortLightProcessorsByShadowMap
    [processorOf 5 (512, 512)%Z; processorOf 7 (512, 512)%Z; processorOf 3 (1024, 512)%Z]
  = SortLightProcessorsByShadowMap
      [processorOf 7 (512, 512)%Z; processorOf 3 (1024, 512)%Z; processorOf 5 (512, 512)%Z].
Proof.
  apply (SortLightProcessorsByShadowMap_deterministic
           [processorOf 7 (512, 512)%Z; processorOf 3 (1024, 512)%Z;
            processorOf 5 (512, 512)%Z]
           [processorOf 5 (512, 512)%Z; processorOf 7 (512, 512)%Z;
            processorOf 3 (1024, 512)%Z]).
  - repeat constructor; apply processorOf_shadowMapSizes.
  - apply (bool_decide_unpack _). vm_compute. exact I.
  - apply (Permutation_app_comm [processorOf 5 (512, 512)%Z]
             [processorOf 7 (512, 512)%Z; processorOf 3 (1024, 512)%Z]).
Defined.

(** The larger shadow map comes first, then the two of equal size by the
    component ID of their lights. *)
Example sorted_by_shadow_map :
  (λ lp, light_ID (light_ lp))
    <$> SortLightProcessorsByShadowMap
          [processorOf 7 (512, 512)%Z; processorOf 3 (1024, 512)%Z;
           processorOf 5 (512, 512)%Z]
  = [3; 5; 7]%N.
Proof. vm_compute. reflexivity. Qed.

(** Shadow map sizes outside the listed ones can differ and still have
    the same length: then neither processor compares less than the other,
    while each of them is told apart from a third one. *)
Example same_length_different_size :
  compareShadowMapSize (processorOf 1 (3, 4)%Z) (processorOf 2 (4, 3)%Z) = false ∧
  compareShadowMapSize (processorOf 2 (4, 3)%Z) (processorOf 1 (3, 4)%Z) = false ∧
  compareShadowMapSize (processorOf 2 (4, 3)%Z) (processorOf 3 (3, 4)%Z) = false ∧
  compareShadowMapSize (processorOf 3 (3, 4)%Z) (processorOf 2 (4, 3)%Z) = false ∧
  compareShadowMapSize (processorOf 1 (3, 4)%Z) (processorOf 3 (3, 4)%Z) = true.
Proof. vm_compute. repeat split; reflexivity. Qed.

(** *** Shadow casters *)

Lemma queueStart_UpdatesUnique : UpdatesUnique queueStart.
Proof. split; [apply NoDup_nil_2|constructor]. Qed.

Lemma PreprocessShadowCasters_casters_witness :
  ∃ shadowCasters dp' queue',
    PreprocessShadowCasters 0 [nearGeometry; farGeometry] (MkRange 1 10)
      (mkLight LIGHT_DIRECTIONAL [10; 100; 400; 1000]%Q 4 noFocus) lineCamera
      (queueStart.1, queueStart.2) = Some (shadowCasters, (dp', queue')) ∧
    shadowCasters `sublist_of` [nearGeometry; farGeometry] ∧
    (let splitZRange :=
       if negb (bool_decide
                  (lightType_ (mkLight LIGHT_DIRECTIONAL [10; 100; 400; 1000]%Q 4 noFocus)
                   = LIGHT_DIRECTIONAL))
       then sceneZRange_ queueStart.1
       else FloatRange_and (sceneZRange_ queueStart.1) (MkRange 1 10) in
     let lightSpaceFrustum :=
       Frustum_ToLightSpace lineCamera
         (GetSplitFrustum (first splitZRange) (second splitZRange)) in
     if Frustum_IsDegenerate lightSpaceFrustum
     then shadowCasters = [] ∧ queue' = queueStart.2
     else ∀ d flags, d ∈ [nearGeometry; farGeometry] →
            geometryFlags_ queueStart.1 !! drawableIndex_ d = Some flags →
            testFlag flags GeometryRenderFlag_Visible = true →
            (lightType_ (mkLight LIGHT_DIRECTIONAL [10; 100; 400; 1000]%Q 4 noFocus)
             = LIGHT_POINT →
             ShadowCamera_IsOutside lineCamera (worldBoundingBox_ d) = false) →
            d ∈ shadowCasters) ∧
    dp' = set_isDrawableUpdated_ (isDrawableUpdated_ dp') queueStart.1 ∧
    length (isDrawableUpdated_ dp') = 3%nat ∧
    (∀ i, isDrawableUpdated_ dp' !! i = Some true ↔
          isDrawableUpdated_ queueStart.1 !! i = Some true
          ∨ ∃ d, d ∈ shadowCasters ∧ drawableIndex_ d = i).
Proof.
  apply (PreprocessShadowCasters_casters 3 0 [nearGeometry; farGeometry] (MkRange 1 10)
           (mkLight LIGHT_DIRECTIONAL [10; 100; 400; 1000]%Q 4 noFocus) lineCamera
           queueStart.1 queueStart.2).
  - reflexivity.
  - reflexivity.
  - simpl. lia.
  - repeat constructor.
Defined.

Lemma PreprocessShadowCasters_queue_witness :
  ∃ shadowCasters dp' queue' queued,
    PreprocessShadowCasters 0 [nearGeometry; farGeometry] (MkRange 1 10)
      (mkLight LIGHT_DIRECTIONAL [10; 100; 400; 1000]%Q 4 noFocus) lineCamera
      (queueStart.1, queueStart.2) = Some (shadowCasters, (dp', queue')) ∧
    length queue' = length queueStart.2 ∧
    Elements queue' ≡ₚ queued ++ Elements queueStart.2 ∧
    queued `sublist_of` shadowCasters ∧
    NoDup (drawableIndex_ <$> queued) ∧
    Forall (λ d, isDrawableUpdated_ queueStart.1 !! drawableIndex_ d = Some false) queued ∧
    UpdatesUnique (dp', queue').
Proof.
  apply (PreprocessShadowCasters_queue 3 0 [nearGeometry; farGeometry] (MkRange 1 10)
           (mkLight LIGHT_DIRECTIONAL [10; 100; 400; 1000]%Q 4 noFocus) lineCamera
           queueStart.1 queueStart.2).
  - reflexivity.
  - reflexivity.
  - simpl. lia.
  - repeat constructor.
  - exact queueStart_UpdatesUnique.
Defined.

(** The near geometry, whose box lies in the split, is taken as a shadow
    caster and queued once, although it is handed in with the far
    geometry of the same drawable index; the far geometry, outside the
    split, is not. *)
Example nearGeometry_cast :
  (λ r : list Drawable * QueueState,
     (distance_ <$> r.1, distance_ <$> Elements r.2.2, isDrawableUpdated_ r.2.1))
    <$> PreprocessShadowCasters 0 [nearGeometry; farGeometry] (MkRange 1 10)
          (mkLight LIGHT_DIRECTIONAL [10; 100; 400; 1000]%Q 4 noFocus) lineCamera queueStart
  = Some ([5%Q], [5%Q], [true; false; false]).
Proof. vm_compute. reflexivity. Qed.

Lemma casterQueued_UpdatesUnique : UpdatesUnique (casterQueued.1, casterQueued.2).
Proof.
  split.
  - apply (bool_decide_unpack _). vm_compute. exact I.
  - repeat constructor.
Qed.

Lemma ProcessShadowCasters_moves_queue_witness :
  ∃ dp',
    ProcessShadowCasters 2 [(1%nat, nearGeometry)] (casterQueued.1, casterQueued.2)
    = Some (dp', replicate 2 []) ∧
    isDrawableUpdated_ dp' = isDrawableUpdated_ casterQueued.1 ∧
    Elements (nonThreadedGeometryUpdates_ dp')
    ≡ₚ filter (λ d, updatesInMainThread d = true) (Elements casterQueued.2)
       ++ Elements (nonThreadedGeometryUpdates_ casterQueued.1) ∧
    Elements (threadedGeometryUpdates_ dp')
    ≡ₚ filter (λ d, updatesInMainThread d ≠ true) (Elements casterQueued.2)
       ++ Elements (threadedGeometryUpdates_ casterQueued.1) ∧
    queuedForUpdate (dp', replicate 2 [])
    ≡ₚ queuedForUpdate (casterQueued.1, casterQueued.2) ∧
    UpdatesUnique (dp', replicate 2 []).
Proof.
  apply (ProcessShadowCasters_moves_queue 2 [(1%nat, nearGeometry)]
           casterQueued.1 casterQueued.2).
  - reflexivity.
  - reflexivity.
  - repeat constructor.
  - reflexivity.
  - exact casterQueued_UpdatesUnique.
Defined.

Lemma ProcessVisibleDrawables_updates_unique_witness :
  ∃ dp',
    ProcessVisibleDrawables firstRun frameStart = Some dp' ∧
    queuedForUpdate (dp', [[]; []])
    ≡ₚ visibleGeometriesOf firstRun.*2 ++ queuedForUpdate (frameStart, [[]; []]) ∧
    UpdatesUnique (dp', [[]; []]).
Proof.
  apply (ProcessVisibleDrawables_updates_unique 2 3 firstRun frameStart [[]; []]).
  - exact frameStart_FrameSized.
  - exact firstRun_ScheduleInRange.
  - apply (bool_decide_unpack _). vm_compute. exact I.
  - repeat constructor.
  - split; [apply NoDup_nil_2|constructor].
Defined.

Lemma LightProcessor_ProcessShadowCasters_split_witness :
  ∃ lp' dp' queue' shadowCasters,
    LightProcessor_ProcessShadowCasters 0 [nearGeometry; farGeometry] 0 spotWithCamera
      (queueStart.1, queueStart.2) = Some (lp', (dp', queue')) ∧
    shadowCasters `sublist_of` [nearGeometry; farGeometry] ∧
    splits_ lp'
    = <[0%nat := set_shadowCasters shadowCasters allocatedSplit]> (splits_ spotWithCamera) ∧
    numSplits_ lp' = numSplits_ spotWithCamera ∧
    shadowCamera_ <$> splits_ lp' = shadowCamera_ <$> splits_ spotWithCamera ∧
    zRange_ <$> splits_ lp' = zRange_ <$> splits_ spotWithCamera.
Proof.
  apply (LightProcessor_ProcessShadowCasters_split 3 0 [nearGeometry; farGeometry] 0
           spotWithCamera queueStart.1 queueStart.2 allocatedSplit Camera_new).
  - reflexivity.
  - reflexivity.
  - reflexivity.
  - reflexivity.
  - simpl. lia.
  - repeat constructor.
Defined.

(** *** Octree queries *)

Lemma TestDrawables_spec_witness :
  let hasShadowCasters := bool_decide (is_Some (@None (list Drawable))) in
  let lit :=
    filter (λ d, fst <$> IsLitOrShadowCaster spotQuery hasShadowCasters d false = Some true)
      [nearGeometry; maskedCaster] in
  let casters :=
    filter (λ d, snd <$> IsLitOrShadowCaster spotQuery hasShadowCasters d false = Some true)
      [nearGeometry; maskedCaster] in
  TestDrawables spotQuery [nearGeometry; maskedCaster] false [] None
  = Some ([] ++ lit, (λ c, c ++ casters) <$> None) ∧
  (@None (list Drawable) = None → casters = []) ∧
  Forall (λ d, castShadows_ d = true ∧
               overlaps (GetShadowMask d) (query_lightMask_ spotQuery) = true) casters.
Proof.
  apply (TestDrawables_spec spotQuery [nearGeometry; maskedCaster] false [] None).
  repeat constructor.
Defined.

(** Both drawables are lit; with shadow casters asked for, both are shadow
    casters as well. *)
Example spotQuery_results :
  (λ r : list Drawable * option (list Drawable),
     (drawable_ID <$> r.1, fmap (M := list) drawable_ID <$> r.2))
    <$> TestDrawables spotQuery [nearGeometry; maskedCaster] false [] (Some [])
  = Some ([100; 100]%N, Some [100; 100]%N).
Proof. vm_compute. reflexivity. Qed.

(** *** Shadow batches *)

Lemma CollectShadowBatches_appends_witness :
  ∃ sceneLight' pass' new added,
    CollectShadowBatches 0 0 spotWithCamera 0 shadowPass = Some (sceneLight', pass') ∧
    splits_ sceneLight'
    = <[0%nat := set_shadowCasterBatches (shadowCasterBatches_ allocatedSplit ++ new)
                   allocatedSplit]> (splits_ spotWithCamera) ∧
    numSplits_ sceneLight' = numSplits_ spotWithCamera ∧
    Forall (λ b, batch_drawable_ b ∈ shadowCasters_ allocatedSplit ∧
                 ShadowMaskCheck (batch_drawable_ b) (lightMask_ (light_ spotWithCamera))
                 = false ∧
                 ShadowDistanceCheck (batch_drawable_ b) = false ∧
                 (batch_sourceBatchIndex_ b < length (batches_ (batch_drawable_ b)))%nat) new ∧
    pass' = set_batchesDirty (batchesDirty_ pass') shadowPass ∧
    Elements (batchesDirty_ pass') ≡ₚ added ++ Elements (batchesDirty_ shadowPass) ∧
    Forall (λ e, ∃ k b, e = (light_ID (light_ spotWithCamera), 0%nat, k) ∧
                        (length (shadowCasterBatches_ allocatedSplit) ≤ k)%nat ∧
                        (shadowCasterBatches_ allocatedSplit ++ new) !! k = Some b ∧
                        batch_pipelineState_ b = None) added ∧
    (∀ k b, new !! k = Some b → batch_pipelineState_ b = None →
            (light_ID (light_ spotWithCamera), 0%nat,
             (length (shadowCasterBatches_ allocatedSplit) + k)%nat) ∈ added).
Proof.
  apply (CollectShadowBatches_appends 0 0 spotWithCamera 0 shadowPass allocatedSplit).
  - reflexivity.
  - simpl. lia.
  - repeat constructor. simpl. eauto.
Defined.

Example spotWithCamera_batches :
  (λ r, ((λ split, batch_sourceBatchIndex_ <$> shadowCasterBatches_ split)
           <$> splits_ r.1 !! 0%nat,
         Elements (batchesDirty_ r.2)))
    <$> CollectShadowBatches 0 0 spotWithCamera 0 shadowPass
  = Some (Some [0%nat], [(1%N, 0%nat, 0%nat)]).
Proof. vm_compute. reflexivity. Qed.

End DrawableProcessorMoreScenes.
